(** * XenoFde synchronisation engine: a shallow embedding of
      [server/src/services/shopifyService.js], the scheduler and the
      event routes, with the properties of the written specification. *)

From Stdlib Require Import Ascii String NArith ZArith Lia List Bool.
From stdpp Require Import base option list gmap strings.

Local Open Scope N_scope.

(** ** JavaScript strings

    A JS string is modelled as a [string] whose characters are code units in
    the range 0..255 (Latin-1).  The methods below are the ones the service
    calls. *)

Module JS.

Definition code (c : ascii) : N := N_of_ascii c.

Definition in_range (lo hi : N) (c : ascii) : bool :=
  (lo <=? code c) && (code c <=? hi).

(** Code units that [String.prototype.toLowerCase] changes: A-Z and the
    Latin-1 capitals U+00C0..U+00DE without the multiplication sign. *)
Definition is_upper (c : ascii) : bool :=
  in_range 65 90 c || (in_range 192 222 c && negb (code c =? 215)).

Definition lower_char (c : ascii) : ascii :=
  if is_upper c then ascii_of_N (code c + 32) else c.

Fixpoint toLowerCase (s : string) : string :=
  match s with
  | EmptyString => EmptyString
  | String c r => String (lower_char c) (toLowerCase r)
  end.

Definition chars (s : string) : list ascii := list_ascii_of_string s.
Definition str (l : list ascii) : string := string_of_list_ascii l.

(** WhiteSpace and LineTerminator code units below 256. *)
Definition is_js_space (c : ascii) : bool :=
  in_range 9 13 c || (code c =? 32) || (code c =? 160).

Fixpoint drop_while (p : ascii -> bool) (l : list ascii) : list ascii :=
  match l with
  | c :: r => if p c then drop_while p r else l
  | [] => []
  end.

Definition strip (p : ascii -> bool) (l : list ascii) : list ascii :=
  rev (drop_while p (rev (drop_while p l))).

Definition trim (s : string) : string := str (strip is_js_space (chars s)).

Fixpoint starts_with (p l : list ascii) : bool :=
  match p, l with
  | [], _ => true
  | a :: p', b :: l' => if ascii_dec a b then starts_with p' l' else false
  | _ :: _, [] => false
  end.

Fixpoint includes_l (sub l : list ascii) : bool :=
  starts_with sub l ||
  match l with
  | [] => false
  | _ :: r => includes_l sub r
  end.

Definition startsWith (s p : string) : bool := starts_with (chars p) (chars s).
Definition endsWith (s p : string) : bool :=
  starts_with (rev (chars p)) (rev (chars s)).
Definition includes (s sub : string) : bool := includes_l (chars sub) (chars s).

(** [s.split(sep)] for a one-character separator. *)
Fixpoint split_l (sep : ascii) (cur : list ascii) (l : list ascii)
  : list (list ascii) :=
  match l with
  | [] => [rev cur]
  | c :: r =>
      if ascii_dec c sep then rev cur :: split_l sep [] r
      else split_l sep (c :: cur) r
  end.

Definition split (sep : ascii) (s : string) : list string :=
  map str (split_l sep [] (chars s)).

(** Truthiness of a string: only the empty string is falsy. *)
Definition truthy_string (s : string) : bool :=
  match s with EmptyString => false | _ => true end.

Definition dquote : ascii := ascii_of_N 34.

End JS.

(** ** The URL class

    [new URL(s)] follows the WHATWG URL parser without a base URL.  The
    model keeps what the service reads: the host name and the query.
    Internationalised host names (code units above 127 in the host of a
    special scheme, Punycode labels) are outside the model: parsing such a
    host fails here. *)

Module URL.
Import JS.

Record t := mk { scheme : string; hostname : string; query : string }.

Definition is_digit (c : ascii) : bool := in_range 48 57 c.
Definition is_alpha (c : ascii) : bool := in_range 65 90 c || in_range 97 122 c.
Definition is_hex (c : ascii) : bool :=
  is_digit c || in_range 65 70 c || in_range 97 102 c.

Definition ascii_lower (c : ascii) : ascii :=
  if in_range 65 90 c then ascii_of_N (code c + 32) else c.

Definition hex_val (c : ascii) : N :=
  if is_digit c then code c - 48
  else if in_range 65 70 c then code c - 55
  else code c - 87.

Definition hex_digit (n : N) : ascii :=
  if n <? 10 then ascii_of_N (48 + n) else ascii_of_N (87 + n).

Definition upper_hex_digit (n : N) : ascii :=
  if n <? 10 then ascii_of_N (48 + n) else ascii_of_N (55 + n).

Definition is_c0_or_space (c : ascii) : bool := code c <=? 32.
Definition is_tab_or_newline (c : ascii) : bool :=
  (code c =? 9) || (code c =? 10) || (code c =? 13).

Definition is_char (n : N) (c : ascii) : bool := code c =? n.

Definition forbidden_host (c : ascii) : bool :=
  existsb (fun n => is_char n c)
    [0; 9; 10; 13; 32; 35; 47; 58; 60; 62; 63; 64; 91; 92; 93; 94; 124].

Definition forbidden_domain (c : ascii) : bool :=
  forbidden_host c || (code c <=? 31) || (code c =? 37) || (code c =? 127).

Fixpoint percent_decode (l : list ascii) : list ascii :=
  match l with
  | [] => []
  | c :: r =>
      if is_char 37 c then
        match r with
        | h1 :: ((h2 :: _) as r1) =>
            if is_hex h1 && is_hex h2
            then ascii_of_N (16 * hex_val h1 + hex_val h2) :: percent_decode_skip r1
            else c :: percent_decode r
        | _ => c :: percent_decode r
        end
      else c :: percent_decode r
  end
with percent_decode_skip (l : list ascii) : list ascii :=
  match l with
  | [] => []
  | _ :: r => percent_decode r
  end.

(** UTF-8 percent-encoding with the C0 control percent-encode set. *)
Definition percent_encode_byte (n : N) : list ascii :=
  [ascii_of_N 37; upper_hex_digit (n / 16); upper_hex_digit (n mod 16)].

Definition c0_encode (c : ascii) : list ascii :=
  if code c <=? 31 then percent_encode_byte (code c)
  else if code c <=? 126 then [c]
  else if code c <=? 127 then percent_encode_byte (code c)
  else percent_encode_byte (192 + code c / 64) ++
       percent_encode_byte (128 + code c mod 64).

(** *** Numbers of an IPv4 address *)

Fixpoint digits_val (radix : N) (acc : N) (l : list ascii) : option N :=
  match l with
  | [] => Some acc
  | c :: r =>
      if is_hex c && (hex_val c <? radix)
      then digits_val radix (radix * acc + hex_val c) r
      else None
  end.

Definition ipv4_number (l : list ascii) : option N :=
  match l with
  | [] => None
  | c0 :: x :: r =>
      if is_char 48 c0 && (is_char 120 x || is_char 88 x)
      then digits_val 16 0 r
      else if is_char 48 c0 then digits_val 8 0 (x :: r)
      else digits_val 10 0 l
  | _ => digits_val 10 0 l
  end.

(** The parts of a host between dots, with one trailing empty part dropped
    when there is more than one part. *)
Definition host_parts (l : list ascii) : list (list ascii) :=
  let parts := split_l (ascii_of_N 46) [] l in
  match rev parts with
  | [] :: ((_ :: _) as others) => rev others
  | _ => parts
  end.

Definition ends_in_number (l : list ascii) : bool :=
  match rev (split_l (ascii_of_N 46) [] l) with
  | [] :: [] => false
  | [] :: lastp :: _ | lastp :: _ =>
      match lastp with
      | [] => false
      | _ => forallb is_digit lastp ||
             match ipv4_number lastp with Some _ => true | None => false end
      end
  | [] => false
  end.

Fixpoint all_some {A} (l : list (option A)) : option (list A) :=
  match l with
  | [] => Some []
  | None :: _ => None
  | Some a :: r => match all_some r with Some r' => Some (a :: r') | None => None end
  end.

Fixpoint ipv4_sum (numbers : list N) (slots : nat) : option N :=
  match numbers, slots with
  | [], _ => None
  | [lastn], _ => if lastn <? 256 ^ N.of_nat (S slots) then Some lastn else None
  | n :: r, S k =>
      if 255 <? n then None
      else match ipv4_sum r k with
           | Some v => Some (n * 256 ^ N.of_nat (S k) + v)
           | None => None
           end
  | _ :: _ :: _, O => None
  end.

Definition ipv4_parse (l : list ascii) : option N :=
  let parts := host_parts l in
  if (4 <? length parts)%nat then None
  else match all_some (map ipv4_number parts) with
       | Some numbers => ipv4_sum numbers 3
       | None => None
       end.

Fixpoint decimal_go (fuel : nat) (n : N) (acc : list ascii) : list ascii :=
  match fuel with
  | O => acc
  | S f =>
      let acc' := ascii_of_N (48 + n mod 10) :: acc in
      if n / 10 =? 0 then acc' else decimal_go f (n / 10) acc'
  end.

Definition decimal (n : N) : list ascii := decimal_go (S (N.to_nat (N.log2 n))) n [].

Definition ipv4_serialize (a : N) : list ascii :=
  decimal (a / 16777216) ++ [ascii_of_N 46] ++
  decimal (a / 65536 mod 256) ++ [ascii_of_N 46] ++
  decimal (a / 256 mod 256) ++ [ascii_of_N 46] ++
  decimal (a mod 256).

(** *** IPv6 literals *)

Fixpoint set_piece (addr : list N) (i : nat) (v : N) : list N :=
  match addr, i with
  | [], _ => []
  | _ :: r, O => v :: r
  | a :: r, S k => a :: set_piece r k v
  end.

Fixpoint read_hex4 (n : nat) (value : N) (len : nat) (l : list ascii)
  : N * nat * list ascii :=
  match n, l with
  | S k, c :: r =>
      if is_hex c then read_hex4 k (16 * value + hex_val c) (S len) r
      else (value, len, l)
  | _, _ => (value, len, l)
  end.

(** One decimal piece of an embedded IPv4 address: no leading zero, at
    most 255. *)
Fixpoint read_ipv4_piece (piece : option N) (l : list ascii)
  : option (option N * list ascii) :=
  match l with
  | c :: r =>
      if is_digit c then
        match piece with
        | None => read_ipv4_piece (Some (hex_val c)) r
        | Some p =>
            if p =? 0 then None
            else if 255 <? 10 * p + hex_val c then None
            else read_ipv4_piece (Some (10 * p + hex_val c)) r
        end
      else Some (piece, l)
  | [] => Some (piece, l)
  end.

Fixpoint ipv4_in_ipv6 (fuel : nat) (l : list ascii) (addr : list N)
    (pi numbersSeen : nat) : option (list N * nat) :=
  match fuel with
  | O => None
  | S f =>
      match l with
      | [] => if (numbersSeen =? 4)%nat then Some (addr, pi) else None
      | c :: r =>
          let after_dot :=
            if (0 <? numbersSeen)%nat then
              if is_char 46 c && (numbersSeen <? 4)%nat then Some r else None
            else Some l in
          match after_dot with
          | None => None
          | Some l1 =>
              match l1 with
              | d :: _ =>
                  if is_digit d then
                    match read_ipv4_piece None l1 with
                    | Some (Some p, l2) =>
                        let addr' := set_piece addr pi (nth pi addr 0 * 256 + p) in
                        let seen := S numbersSeen in
                        let pi' :=
                          if (seen =? 2)%nat || (seen =? 4)%nat then S pi else pi in
                        ipv4_in_ipv6 f l2 addr' pi' seen
                    | _ => None
                    end
                  else None
              | [] => None
              end
          end
      end
  end.

Fixpoint ipv6_loop (fuel : nat) (l : list ascii) (addr : list N) (pi : nat)
    (compress : option nat) : option (list N * nat * option nat) :=
  match fuel with
  | O => None
  | S f =>
      match l with
      | [] => Some (addr, pi, compress)
      | c :: r =>
          if (pi =? 8)%nat then None
          else if is_char 58 c then
            match compress with
            | Some _ => None
            | None => ipv6_loop f r addr (S pi) (Some (S pi))
            end
          else
            let '(value, len, l1) := read_hex4 4 0 0 l in
            match l1 with
            | [] => ipv6_loop f [] (set_piece addr pi value) (S pi) compress
            | c1 :: r1 =>
                if is_char 46 c1 then
                  if (len =? 0)%nat then None
                  else if (6 <? pi)%nat then None
                  else match ipv4_in_ipv6 (S (length l)) l addr pi 0 with
                       | Some (addr', pi') => Some (addr', pi', compress)
                       | None => None
                       end
                else if is_char 58 c1 then
                  match r1 with
                  | [] => None
                  | _ => ipv6_loop f r1 (set_piece addr pi value) (S pi) compress
                  end
                else None
            end
      end
  end.

Definition ipv6_parse (l : list ascii) : option (list N) :=
  let zero := repeat 0 8 in
  let start :=
    match l with
    | c :: r =>
        if is_char 58 c then
          match r with
          | c' :: r' => if is_char 58 c' then Some (r', 1%nat, Some 1%nat) else None
          | [] => None
          end
        else Some (l, 0%nat, None)
    | [] => Some (l, 0%nat, None)
    end in
  match start with
  | None => None
  | Some (l0, pi0, compress0) =>
      match ipv6_loop (S (S (length l0))) l0 zero pi0 compress0 with
      | None => None
      | Some (addr, pi, Some cmp) =>
          (* the pieces read after the compression move to the end *)
          let swaps := (pi - cmp)%nat in
          Some (firstn cmp addr ++ repeat 0 (8 - cmp - swaps)%nat ++
                firstn swaps (skipn cmp addr))
      | Some (addr, pi, None) => if (pi =? 8)%nat then Some addr else None
      end
  end.

Fixpoint hex_go (fuel : nat) (n : N) (acc : list ascii) : list ascii :=
  match fuel with
  | O => acc
  | S f =>
      let acc' := hex_digit (n mod 16) :: acc in
      if n / 16 =? 0 then acc' else hex_go f (n / 16) acc'
  end.

Definition hex (n : N) : list ascii := hex_go 4 n [].

(** Length of the run of zero pieces at the head of [l]. *)
Fixpoint zero_run (l : list N) : nat :=
  match l with
  | 0 :: r => S (zero_run r)
  | _ => O
  end.

(** Index of the first longest run of at least two zero pieces. *)
Fixpoint find_compress (l : list N) (i : nat) (best : option (nat * nat))
  : option nat :=
  match l with
  | [] => option_map fst best
  | _ :: r =>
      let n := zero_run l in
      let best' :=
        if (1 <? n)%nat && (match best with Some (_, m) => (m <? n)%nat | None => true end)
        then Some (i, n) else best in
      find_compress r (S i) best'
  end.

Fixpoint ipv6_pieces (l : list N) (i : nat) (compress : option nat)
    (ignore0 : bool) : list ascii :=
  match l with
  | [] => []
  | p :: r =>
      if ignore0 && (p =? 0) then ipv6_pieces r (S i) compress true
      else if match compress with Some k => (k =? i)%nat | None => false end then
        (if (i =? 0)%nat then [ascii_of_N 58; ascii_of_N 58] else [ascii_of_N 58])
        ++ ipv6_pieces r (S i) compress true
      else hex p ++ (if (i =? 7)%nat then [] else [ascii_of_N 58])
           ++ ipv6_pieces r (S i) compress false
  end.

Definition ipv6_serialize (addr : list N) : list ascii :=
  ipv6_pieces addr 0 (find_compress addr 0 None) false.

(** *** The host parser *)

Definition opaque_host (l : list ascii) : option (list ascii) :=
  if existsb forbidden_host l then None else Some (concat (map c0_encode l)).

Definition host_parse (isOpaque : bool) (l : list ascii) : option (list ascii) :=
  match l with
  | c :: r =>
      if is_char 91 c then
        match rev r with
        | e :: inner =>
            if is_char 93 e then
              match ipv6_parse (rev inner) with
              | Some addr => Some ([ascii_of_N 91] ++ ipv6_serialize addr ++ [ascii_of_N 93])
              | None => None
              end
            else None
        | [] => None
        end
      else if isOpaque then opaque_host l
      else
        let domain := percent_decode l in
        if existsb (fun c => 127 <? code c) domain then None
        else
          let asciiDomain := map ascii_lower domain in
          match asciiDomain with
          | [] => None
          | _ =>
              if existsb forbidden_domain asciiDomain then None
              else if ends_in_number asciiDomain then
                option_map ipv4_serialize (ipv4_parse asciiDomain)
              else Some asciiDomain
          end
  | [] => if isOpaque then opaque_host l else None
  end.

(** *** The parser *)

Fixpoint span (p : ascii -> bool) (l : list ascii) : list ascii * list ascii :=
  match l with
  | c :: r => if p c then let '(a, b) := span p r in (c :: a, b) else ([], l)
  | [] => ([], [])
  end.

Definition scheme_char (c : ascii) : bool :=
  is_alpha c || is_digit c || is_char 43 c || is_char 45 c || is_char 46 c.

Definition is_slash (c : ascii) : bool := is_char 47 c || is_char 92 c.

Definition special_not_file (sch : string) : bool :=
  bool_decide (sch ∈ ["http"; "https"; "ws"; "wss"; "ftp"]).

(** The authority ends at the first slash, question mark or, for a special
    scheme, backslash (the fragment is cut off before). *)
Definition authority_end (special : bool) (c : ascii) : bool :=
  is_char 47 c || is_char 63 c || (special && is_char 92 c).

(** Position after the last at-sign of the authority, when there is one. *)
Fixpoint after_last_at (l : list ascii) : option (list ascii) :=
  match l with
  | [] => None
  | c :: r =>
      match after_last_at r with
      | Some h => Some h
      | None => if is_char 64 c then Some r else None
      end
  end.

Fixpoint split_host_port (inBrackets : bool) (acc l : list ascii)
  : list ascii * option (list ascii) :=
  match l with
  | [] => (rev acc, None)
  | c :: r =>
      if is_char 58 c && negb inBrackets then (rev acc, Some r)
      else
        let inb := if is_char 91 c then true
                   else if is_char 93 c then false else inBrackets in
        split_host_port inb (c :: acc) r
  end.

Definition port_ok (l : list ascii) : bool :=
  forallb is_digit l &&
  match digits_val 10 0 l with Some n => n <=? 65535 | None => false end.

(** Authority, host and port states: the serialised host, or failure. *)
Definition parse_authority (special : bool) (l : list ascii) : option (list ascii) :=
  let seg := fst (span (fun c => negb (authority_end special c)) l) in
  let hostport :=
    match after_last_at seg with
    | Some [] => None
    | Some h => Some h
    | None => Some seg
    end in
  match hostport with
  | None => None
  | Some hp =>
      match split_host_port false [] hp with
      | ([], Some _) => None
      | (h, Some port) =>
          if port_ok port then host_parse (negb special) h else None
      | (h, None) =>
          match h with
          | [] => if special then None else host_parse true h
          | _ => host_parse (negb special) h
          end
      end
  end.

Definition is_drive_letter (l : list ascii) : bool :=
  match l with
  | [a; b] => is_alpha a && (is_char 58 b || is_char 124 b)
  | _ => false
  end.

(** File, file slash and file host states. *)
Definition parse_file_host (l : list ascii) : option (list ascii) :=
  match l with
  | c1 :: c2 :: r =>
      if is_slash c1 && is_slash c2 then
        let buffer := fst (span (fun c => negb (is_slash c || is_char 63 c)) r) in
        if is_drive_letter buffer then Some []
        else match buffer with
             | [] => Some []
             | _ =>
                 match host_parse false buffer with
                 | Some h => if bool_decide (str h = "localhost") then Some [] else Some h
                 | None => None
                 end
             end
      else Some []
  | _ => Some []
  end.

Definition parse (input : string) : option t :=
  let l := List.filter (fun c => negb (is_tab_or_newline c))
             (strip is_c0_or_space (chars input)) in
  match l with
  | c :: _ =>
      if is_alpha c then
        let '(sch, rest) := span scheme_char l in
        match rest with
        | colon :: rest1 =>
            if is_char 58 colon then
              let sch := str (map ascii_lower sch) in
              let '(body, _) := span (fun c => negb (is_char 35 c)) rest1 in
              let '(_, q) := span (fun c => negb (is_char 63 c)) body in
              let host :=
                if bool_decide (sch = "file") then parse_file_host body
                else if special_not_file sch
                then parse_authority true (drop_while is_slash body)
                else match body with
                     | s1 :: s2 :: r =>
                         if is_char 47 s1 && is_char 47 s2
                         then parse_authority false r else Some []
                     | _ => Some []
                     end in
              match host with
              | Some h => Some (mk sch (str h) (str (tl q)))
              | None => None
              end
            else None
        | [] => None
        end
      else None
  | [] => None
  end.

(** *** [url.searchParams.get(name)] *)

Definition form_decode (l : list ascii) : string :=
  str (percent_decode (map (fun c => if is_char 43 c then ascii_of_N 32 else c) l)).

Definition search_pairs (q : string) : list (string * string) :=
  omap (fun seq : list ascii =>
          match seq with
          | [] => None
          | _ => let '(n, v) := span (fun c => negb (is_char 61 c)) seq in
                 Some (form_decode n, form_decode (tl v))
          end)
       (split_l (ascii_of_N 38) [] (chars q)).

Fixpoint assoc (k : string) (l : list (string * string)) : option string :=
  match l with
  | [] => None
  | (k', v) :: r => if bool_decide (k' = k) then Some v else assoc k r
  end.

Definition searchParams_get (u : t) (name : string) : option string :=
  assoc name (search_pairs (query u)).

End URL.

(** ** Domain Normalizer: [normalizeShopDomain]

    The result [None] is the [null] the callers turn into the
    invalid-domain failure. *)

Definition platform_suffix : string := ".myshopify.com".

(** The text handed to [new URL]: the input itself when it names a scheme,
    else the input behind [https://]. *)
Definition domain_url (trimmed : string) : string :=
  if JS.includes trimmed "://" then trimmed else "https://" +:+ trimmed.

(** A host without a dot is taken for the bare shop subdomain. *)
Definition default_suffix (host : string) : string :=
  if JS.truthy_string host && negb (JS.includes host ".")
  then host +:+ platform_suffix else host.

Definition normalizeShopDomain (rawDomain : string) : option string :=
  if negb (JS.truthy_string rawDomain) then None
  else
    match URL.parse (domain_url (JS.trim rawDomain)) with
    | None => None
    | Some u =>
        let host := default_suffix (JS.toLowerCase (URL.hostname u)) in
        if negb (JS.endsWith host platform_suffix) then None else Some host
    end.

(** A character of a plain host name: a-z, 0-9, hyphen or dot. *)
Definition plain_char (c : ascii) : bool :=
  JS.in_range 97 122 c || JS.in_range 48 57 c
  || URL.is_char 45 c || URL.is_char 46 c.

Definition plain_host (h : string) : bool := forallb plain_char (JS.chars h).

(** ** JavaScript values

    Records that arrive from the upstream API or from a webhook body are
    JSON values; [JUndefined] is the value of a missing property.  A finite
    number is kept as the exact decimal [m * 10^e] its literal denotes (the
    rounding to a double is not modelled). *)

Inductive num := NaN | Inf (negative : bool) | Dec (m e : Z).

#[local] Unset Elimination Schemes.
Inductive jsval :=
| JUndefined
| JNull
| JBool (b : bool)
| JNum (n : num)
| JStr (s : string)
| JArr (items : list jsval)
| JObj (fields : list (string * jsval)).
#[local] Set Elimination Schemes.

#[global] Instance num_eq_dec : EqDecision num.
Proof. solve_decision. Defined.

(** Equality of JSON values is decided by structure. *)
Fixpoint jsval_eq_dec (a b : jsval) {struct a} : {a = b} + {a <> b}.
Proof.
  destruct a as [| |x|x|x|xs|xs], b as [| |y|y|y|ys|ys];
    try (right; discriminate); try (left; reflexivity).
  - destruct (decide (x = y)) as [->|]; [left; reflexivity|right; congruence].
  - destruct (decide (x = y)) as [->|]; [left; reflexivity|right; congruence].
  - destruct (decide (x = y)) as [->|]; [left; reflexivity|right; congruence].
  - assert ({xs = ys} + {xs <> ys}) as [->|];
      [|left; reflexivity|right; congruence].
    revert ys. induction xs as [|x xs IH]; intros [|y ys];
      try (right; discriminate); try (left; reflexivity).
    destruct (jsval_eq_dec x y) as [->|]; [|right; congruence].
    destruct (IH ys) as [->|]; [left; reflexivity|right; congruence].
  - assert ({xs = ys} + {xs <> ys}) as [->|];
      [|left; reflexivity|right; congruence].
    revert ys. induction xs as [|[k x] xs IH]; intros [|[k' y] ys];
      try (right; discriminate); try (left; reflexivity).
    destruct (decide (k = k')) as [->|]; [|right; congruence].
    destruct (jsval_eq_dec x y) as [->|]; [|right; congruence].
    destruct (IH ys) as [->|]; [left; reflexivity|right; congruence].
Defined.

#[global] Instance jsval_eq_decision : EqDecision jsval := jsval_eq_dec.

(** Exceptions carry what the callers read: [err.message], [err.status]. *)
Record error := mkError { err_message : string; err_status : option N }.

Inductive outcome (A : Type) :=
| Ok (a : A)
| Throw (e : error).
Arguments Ok {A} a.
Arguments Throw {A} e.

Definition TypeError (msg : string) : error := mkError msg None.

Definition obind {A B} (x : outcome A) (f : A -> outcome B) : outcome B :=
  match x with
  | Ok a => f a
  | Throw e => Throw e
  end.

Declare Scope js_scope.
Delimit Scope js_scope with js.
Notation "'let!' x ':=' c 'in' k" := (obind c (fun x => k))
  (at level 10, x name, c at level 100, k at level 200) : js_scope.

Module Value.
Import JS.
Local Open Scope js_scope.

Fixpoint lookup_field (k : string) (fs : list (string * jsval)) : jsval :=
  match fs with
  | [] => JUndefined
  | (k', v) :: r => if bool_decide (k' = k) then v else lookup_field k r
  end.

Definition has_own (k : string) (fs : list (string * jsval)) : bool :=
  existsb (fun kv => bool_decide (fst kv = k)) fs.

(** [v.k] for a property name [k] that no built-in prototype defines (all
    the field names the mappers read are of this kind). *)
Definition get (v : jsval) (k : string) : outcome jsval :=
  match v with
  | JUndefined | JNull =>
      Throw (TypeError ("Cannot read properties of null or undefined, reading " +:+ k))
  | JObj fs => Ok (lookup_field k fs)
  | _ => Ok JUndefined
  end.

(** [v?.k] *)
Definition get_opt (v : jsval) (k : string) : outcome jsval :=
  match v with
  | JUndefined | JNull => Ok JUndefined
  | _ => get v k
  end.

Definition num_is_zero (n : num) : bool :=
  match n with Dec m _ => (m =? 0)%Z | _ => false end.

Definition truthy (v : jsval) : bool :=
  match v with
  | JUndefined | JNull => false
  | JBool b => b
  | JNum NaN => false
  | JNum n => negb (num_is_zero n)
  | JStr s => truthy_string s
  | JArr _ | JObj _ => true
  end.

(** *** [Number::toString] *)

Definition digits_of (n : N) : list ascii := URL.decimal n.

Fixpoint strip_zeros (fuel : nat) (m e : Z) : Z * Z :=
  match fuel with
  | O => (m, e)
  | S f => if ((m mod 10 =? 0) && negb (m =? 0))%Z
           then strip_zeros f (m / 10)%Z (e + 1)%Z else (m, e)
  end.

Definition zeros (n : Z) : list ascii := repeat (ascii_of_N 48) (Z.to_nat n).

Definition exponent_text (x : Z) : list ascii :=
  [ascii_of_N 101; if (x <? 0)%Z then ascii_of_N 45 else ascii_of_N 43]
  ++ digits_of (Z.to_N (Z.abs x)).

Definition finite_to_string (m0 e0 : Z) : list ascii :=
  let '(m, e) := strip_zeros (S (Z.to_nat (Z.log2 (Z.abs m0)))) m0 e0 in
  if (m =? 0)%Z then [ascii_of_N 48]
  else
    let sign := if (m <? 0)%Z then [ascii_of_N 45] else [] in
    let s := digits_of (Z.to_N (Z.abs m)) in
    let k := Z.of_nat (length s) in
    let n := (k + e)%Z in
    sign ++
    if ((k <=? n) && (n <=? 21))%Z then s ++ zeros (n - k)
    else if ((0 <? n) && (n <=? 21))%Z
    then firstn (Z.to_nat n) s ++ [ascii_of_N 46] ++ skipn (Z.to_nat n) s
    else if ((-6 <? n) && (n <=? 0))%Z
    then [ascii_of_N 48; ascii_of_N 46] ++ zeros (- n) ++ s
    else match s with
         | [d] => [d] ++ exponent_text (n - 1)
         | d :: r => [d; ascii_of_N 46] ++ r ++ exponent_text (n - 1)
         | [] => []
         end.

Definition number_to_string (n : num) : string :=
  match n with
  | NaN => "NaN"
  | Inf false => "Infinity"
  | Inf true => "-Infinity"
  | Dec m e => str (finite_to_string m e)
  end.

(** *** [String(v)] *)

Definition join (sep : string) (l : list string) : string :=
  match l with
  | [] => EmptyString
  | x :: r => fold_left (fun acc y => acc +:+ sep +:+ y) r x
  end.

Fixpoint to_string (v : jsval) : outcome string :=
  match v with
  | JUndefined => Ok "undefined"
  | JNull => Ok "null"
  | JBool true => Ok "true"
  | JBool false => Ok "false"
  | JNum n => Ok (number_to_string n)
  | JStr s => Ok s
  | JArr l =>
      let! parts :=
        (fix go (l : list jsval) : outcome (list string) :=
           match l with
           | [] => Ok []
           | x :: r =>
               let! s := match x with
                         | JUndefined | JNull => Ok EmptyString
                         | _ => to_string x
                         end in
               let! rest := go r in
               Ok (s :: rest)
           end) l in
      Ok (join "," parts)
  | JObj fs =>
      (* an own, hence not callable, toString hides Object.prototype's *)
      if has_own "toString" fs
      then Throw (TypeError "Cannot convert object to primitive value")
      else Ok "[object Object]"
  end.

(** *** [Number(v)] *)

Definition digits_Z (l : list ascii) : Z :=
  fold_left (fun acc c => (10 * acc + Z.of_N (URL.hex_val c))%Z) l 0%Z.

Definition radix_literal (l : list ascii) : option num :=
  match l with
  | z :: x :: ((_ :: _) as ds) =>
      if URL.is_char 48 z then
        let radix :=
          if URL.is_char 120 x || URL.is_char 88 x then Some 16
          else if URL.is_char 111 x || URL.is_char 79 x then Some 8
          else if URL.is_char 98 x || URL.is_char 66 x then Some 2
          else None in
        match radix with
        | Some r => option_map (fun n => Dec (Z.of_N n) 0) (URL.digits_val r 0 ds)
        | None => None
        end
      else None
  | _ => None
  end.

Definition exponent_part (l : list ascii) : option Z :=
  match l with
  | [] => Some 0%Z
  | e :: r =>
      if URL.is_char 101 e || URL.is_char 69 e then
        let '(neg, ds) :=
          match r with
          | sg :: r' =>
              if URL.is_char 45 sg then (true, r')
              else if URL.is_char 43 sg then (false, r') else (false, r)
          | [] => (false, r)
          end in
        match ds with
        | [] => None
        | _ => if forallb URL.is_digit ds
               then Some (if neg then (- digits_Z ds)%Z else digits_Z ds)
               else None
        end
      else None
  end.

Definition unsigned_decimal (negative : bool) (l : list ascii) : option num :=
  if bool_decide (str l = "Infinity") then Some (Inf negative)
  else
    let '(ip, r1) := URL.span URL.is_digit l in
    let '(fp, r2, dot) :=
      match r1 with
      | d :: r =>
          if URL.is_char 46 d
          then let '(fp, r2) := URL.span URL.is_digit r in (fp, r2, true)
          else ([], r1, false)
      | [] => ([], r1, false)
      end in
    match ip, fp with
    | [], [] => None
    | _, _ =>
        match exponent_part r2 with
        | Some ex =>
            let m := digits_Z (ip ++ fp) in
            Some (Dec (if negative then (- m)%Z else m) (ex - Z.of_nat (length fp)))
        | None => None
        end
    end.

Definition string_to_number (s : string) : num :=
  match strip is_js_space (chars s) with
  | [] => Dec 0 0
  | (c :: r) as l =>
      match radix_literal l with
      | Some n => n
      | None =>
          let parsed :=
            if URL.is_char 45 c then unsigned_decimal true r
            else if URL.is_char 43 c then unsigned_decimal false r
            else unsigned_decimal false l in
          match parsed with Some n => n | None => NaN end
      end
  end.

Definition to_number (v : jsval) : outcome num :=
  match v with
  | JUndefined => Ok NaN
  | JNull => Ok (Dec 0 0)
  | JBool true => Ok (Dec 1 0)
  | JBool false => Ok (Dec 0 0)
  | JNum n => Ok n
  | JStr s => Ok (string_to_number s)
  | JArr _ => let! s := to_string v in Ok (string_to_number s)
  | JObj fs =>
      if has_own "toString" fs
      then Throw (TypeError "Cannot convert object to primitive value")
      else Ok NaN
  end.

Definition is_nan (n : num) : bool := match n with NaN => true | _ => false end.

End Value.

(** ** Resource Mapper: [toNumber], [normalizeTags], [resourceConfig.*.map] *)

Module Mapper.
Import JS Value.
Local Open Scope js_scope.

(** A mapped document is the object literal the [map] function returns:
    its keys in order, [JUndefined] where the expression is undefined. *)
Definition doc := list (string * jsval).

Definition toNumber (value : jsval) : outcome jsval :=
  match value with
  | JNull | JUndefined | JStr EmptyString => Ok JUndefined
  | _ =>
      let! n := to_number value in
      Ok (if is_nan n then JUndefined else JNum n)
  end.

Fixpoint map_outcome {A B} (f : A -> outcome B) (l : list A) : outcome (list B) :=
  match l with
  | [] => Ok []
  | x :: r =>
      let! y := f x in
      let! ys := map_outcome f r in
      Ok (y :: ys)
  end.

(** [t.trim()] on an element of a tags array: only strings have the
    method. *)
Definition call_trim (t : jsval) : outcome string :=
  match t with
  | JStr s => Ok (trim s)
  | JUndefined | JNull => Throw (TypeError "Cannot read properties of null, reading trim")
  | _ => Throw (TypeError "t.trim is not a function")
  end.

Definition normalizeTags (tags : jsval) : outcome (list string) :=
  if negb (truthy tags) then Ok []
  else match tags with
       | JArr l =>
           let! ts := map_outcome call_trim l in
           Ok (List.filter truthy_string ts)
       | _ =>
           let! s := to_string tags in
           Ok (List.filter truthy_string (map trim (split "," s)))
       end.

Definition tags_value (l : list string) : jsval := JArr (map JStr l).

(** [cond ? String(cond) : undefined] *)
Definition string_if_truthy (v : jsval) : outcome jsval :=
  if truthy v then let! s := to_string v in Ok (JStr s) else Ok JUndefined.

(** [(v || []).map(f)]: a truthy value that is not an array has no
    callable [map]. *)
Definition map_items (v : jsval) (f : jsval -> outcome jsval) : outcome jsval :=
  if negb (truthy v) then Ok (JArr [])
  else match v with
       | JArr l => let! ys := map_outcome f l in Ok (JArr ys)
       | _ => Throw (TypeError "map is not a function")
       end.

Definition map_customer (customer : jsval) (shopId : string) : outcome doc :=
  let! id := get customer "id" in
  let! shopifyId := to_string id in
  let! email := get customer "email" in
  let! phone := get customer "phone" in
  let! first_name := get customer "first_name" in
  let! last_name := get customer "last_name" in
  let! tags0 := get customer "tags" in
  let! tags := normalizeTags tags0 in
  let! total_spent := get customer "total_spent" in
  let! totalSpent := toNumber total_spent in
  let! state := get customer "state" in
  let! default_address := get customer "default_address" in
  let! country := get_opt default_address "country_code" in
  let! marketing := get customer "marketing_opt_in_level" in
  let! created_at := get customer "created_at" in
  let! updated_at := get customer "updated_at" in
  Ok [("shop", JStr shopId);
      ("shopifyId", JStr shopifyId);
      ("email", email);
      ("phone", phone);
      ("firstName", first_name);
      ("lastName", last_name);
      ("tags", tags_value tags);
      ("totalSpent", totalSpent);
      ("state", state);
      ("country", country);
      ("marketingOptInLevel", marketing);
      ("shopifyCreatedAt", created_at);
      ("shopifyUpdatedAt", updated_at)].

Definition map_order_customer (c : jsval) : outcome jsval :=
  if truthy c then
    let! id := get c "id" in
    let! sid := to_string id in
    let! email := get c "email" in
    let! first_name := get c "first_name" in
    let! last_name := get c "last_name" in
    Ok (JObj [("id", JStr sid); ("email", email);
              ("firstName", first_name); ("lastName", last_name)])
  else Ok JUndefined.

Definition map_line_item (li : jsval) : outcome jsval :=
  let! id := get li "id" in
  let! shopifyId := to_string id in
  let! product_id := get li "product_id" in
  let! productId := string_if_truthy product_id in
  let! variant_id := get li "variant_id" in
  let! variantId := string_if_truthy variant_id in
  let! name := get li "name" in
  let! quantity := get li "quantity" in
  let! price0 := get li "price" in
  let! price := toNumber price0 in
  Ok (JObj [("shopifyId", JStr shopifyId);
            ("productId", productId);
            ("variantId", variantId);
            ("name", name);
            ("quantity", quantity);
            ("price", price)]).

Definition map_order (order : jsval) (shopId : string) : outcome doc :=
  let! id := get order "id" in
  let! shopifyId := to_string id in
  let! name := get order "name" in
  let! email := get order "email" in
  let! currency := get order "currency" in
  let! total_price := get order "total_price" in
  let! totalPrice := toNumber total_price in
  let! subtotal_price := get order "subtotal_price" in
  let! subtotalPrice := toNumber subtotal_price in
  let! total_discounts := get order "total_discounts" in
  let! totalDiscounts := toNumber total_discounts in
  let! financial_status := get order "financial_status" in
  let! fulfillment_status := get order "fulfillment_status" in
  let! processed_at := get order "processed_at" in
  let! tags0 := get order "tags" in
  let! tags := normalizeTags tags0 in
  let! customer0 := get order "customer" in
  let! customer := map_order_customer customer0 in
  let! line_items := get order "line_items" in
  let! lineItems := map_items line_items map_line_item in
  let! created_at := get order "created_at" in
  let! updated_at := get order "updated_at" in
  Ok [("shop", JStr shopId);
      ("shopifyId", JStr shopifyId);
      ("name", name);
      ("email", email);
      ("currency", currency);
      ("totalPrice", totalPrice);
      ("subtotalPrice", subtotalPrice);
      ("totalDiscounts", totalDiscounts);
      ("financialStatus", financial_status);
      ("fulfillmentStatus", fulfillment_status);
      ("processedAt", processed_at);
      ("tags", tags_value tags);
      ("customer", customer);
      ("lineItems", lineItems);
      ("shopifyCreatedAt", created_at);
      ("shopifyUpdatedAt", updated_at)].

Definition map_variant (variant : jsval) : outcome jsval :=
  let! id := get variant "id" in
  let! shopifyId := to_string id in
  let! title := get variant "title" in
  let! sku := get variant "sku" in
  let! price0 := get variant "price" in
  let! price := toNumber price0 in
  let! inventory_quantity := get variant "inventory_quantity" in
  Ok (JObj [("shopifyId", JStr shopifyId);
            ("title", title);
            ("sku", sku);
            ("price", price);
            ("inventoryQuantity", inventory_quantity)]).

Definition map_product (product : jsval) (shopId : string) : outcome doc :=
  let! id := get product "id" in
  let! shopifyId := to_string id in
  let! title := get product "title" in
  let! status := get product "status" in
  let! product_type := get product "product_type" in
  let! vendor := get product "vendor" in
  let! tags0 := get product "tags" in
  let! tags := normalizeTags tags0 in
  let! variants0 := get product "variants" in
  let! variants := map_items variants0 map_variant in
  let! created_at := get product "created_at" in
  let! updated_at := get product "updated_at" in
  Ok [("shop", JStr shopId);
      ("shopifyId", JStr shopifyId);
      ("title", title);
      ("status", status);
      ("productType", product_type);
      ("vendor", vendor);
      ("tags", tags_value tags);
      ("variants", variants);
      ("shopifyCreatedAt", created_at);
      ("shopifyUpdatedAt", updated_at)].

End Mapper.

(** ** Vocabulary of the mapper properties: the shape of well-formed
    records and what a mapped field may be *)

Module MapperSpec.
Import Value Mapper.

(** A JSON scalar, or a missing property. *)
Definition primitive (v : jsval) : bool :=
  match v with JArr _ | JObj _ => false | _ => true end.

Definition is_string (v : jsval) : bool :=
  match v with JStr _ => true | _ => false end.

(** [v.k] on a record that is an object. *)
Definition field (k : string) (v : jsval) : jsval :=
  match v with JObj fs => lookup_field k fs | _ => JUndefined end.

(** A tags field: missing, a scalar, or an array of strings. *)
Definition tags_shape (v : jsval) : bool :=
  match v with
  | JArr l => forallb is_string l
  | JObj _ => false
  | _ => true
  end.

(** A nested list: missing or another falsy scalar, or an array whose
    elements have the given shape. *)
Definition items_shape (shape : jsval -> bool) (v : jsval) : bool :=
  match v with
  | JArr l => forallb shape l
  | _ => negb (truthy v)
  end.

Definition items (v : jsval) : list jsval :=
  match v with JArr l => l | _ => [] end.

Definition line_item_shape (li : jsval) : bool :=
  match li with
  | JObj _ =>
      primitive (field "id" li) && primitive (field "product_id" li)
      && primitive (field "variant_id" li) && primitive (field "price" li)
  | _ => false
  end.

Definition variant_shape (v : jsval) : bool :=
  match v with
  | JObj _ => primitive (field "id" v) && primitive (field "price" v)
  | _ => false
  end.

Definition customer_shape (c : jsval) : bool :=
  match c with
  | JObj _ =>
      primitive (field "id" c) && tags_shape (field "tags" c)
      && primitive (field "total_spent" c)
  | _ => false
  end.

Definition embedded_customer_shape (c : jsval) : bool :=
  match c with JObj _ => primitive (field "id" c) | _ => true end.

Definition order_shape (o : jsval) : bool :=
  match o with
  | JObj _ =>
      primitive (field "id" o) && primitive (field "total_price" o)
      && primitive (field "subtotal_price" o)
      && primitive (field "total_discounts" o)
      && tags_shape (field "tags" o)
      && embedded_customer_shape (field "customer" o)
      && items_shape line_item_shape (field "line_items" o)
  | _ => false
  end.

Definition product_shape (p : jsval) : bool :=
  match p with
  | JObj _ =>
      primitive (field "id" p) && tags_shape (field "tags" p)
      && items_shape variant_shape (field "variants" p)
  | _ => false
  end.

(** A monetary input that is missing, null, the empty string, or that
    [Number] turns into NaN. *)
Definition money_absent (v : jsval) : Prop :=
  v = JUndefined \/ v = JNull \/ v = JStr EmptyString \/ to_number v = Ok NaN.

(** The mapped monetary field is absent exactly for such an input. *)
Definition degrades (v out : jsval) : Prop :=
  out = JUndefined <-> money_absent v.

Definition line_item_rule (li out : jsval) : Prop :=
  degrades (field "price" li) (field "price" out) /\
  field "quantity" out = field "quantity" li.

Definition variant_rule (v out : jsval) : Prop :=
  degrades (field "price" v) (field "price" out) /\
  field "inventoryQuantity" out = field "inventory_quantity" v.

End MapperSpec.

(** ** The world the service runs in

    The collaborators are part of an explicit state: the upstream Admin API
    (a deterministic function of the requests made so far and the current
    request), the log of requests issued, the clock, and the collections of
    the document store.  Persistence calls are taken to succeed. *)

Record request := mkRequest {
  req_baseURL : string;
  req_token : string;
  req_path : string;
  req_params : list (string * string)
}.

Record response := mkResponse {
  res_data : jsval;
  res_link : option string      (* response.headers.link *)
}.

Record error_response := mkErrorResponse {
  er_status : N;
  er_statusText : string;
  er_data : jsval
}.

(** What a [catch] block sees: [err.message], [err.status],
    [err.response]. *)
Record exn := mkExn {
  ex_message : string;
  ex_status : option N;
  ex_response : option error_response
}.

Definition exn_of_error (e : error) : exn :=
  mkExn (err_message e) (err_status e) None.

Inductive shop_status := active | paused.

#[global] Instance shop_status_eq_dec : EqDecision shop_status.
Proof. solve_decision. Defined.

Record shop := mkShop {
  shop_id : string;                        (* _id *)
  ownerEmail : option string;
  shopDomain : string;
  accessToken : string;
  apiVersion : option string;
  status : shop_status;
  lastSyncedAt : option string;
  metadata : option (gmap string string)   (* a Map of strings, or unset *)
}.

Record event := mkEvent {
  ev_shop : string;
  ev_topic : string;
  ev_payload : jsval;
  ev_receivedAt : string
}.

Inductive model := Customer | Order | Product.

Record world := mkWorld {
  upstream : list request -> request -> response + exn;
  requests : list request;                 (* oldest first *)
  now : string;                            (* new Date(), as ISO text *)
  shops : list shop;
  customers : list (gmap string jsval);
  orders : list (gmap string jsval);
  products : list (gmap string jsval);
  events : list event
}.

Definition collection (m : model) (w : world) : list (gmap string jsval) :=
  match m with
  | Customer => customers w
  | Order => orders w
  | Product => products w
  end.

Definition set_collection (m : model) (c : list (gmap string jsval)) (w : world)
  : world :=
  match m with
  | Customer => mkWorld (upstream w) (requests w) (now w) (shops w)
                  c (orders w) (products w) (events w)
  | Order => mkWorld (upstream w) (requests w) (now w) (shops w)
               (customers w) c (products w) (events w)
  | Product => mkWorld (upstream w) (requests w) (now w) (shops w)
                 (customers w) (orders w) c (events w)
  end.

Definition set_requests (r : list request) (w : world) : world :=
  mkWorld (upstream w) r (now w) (shops w)
    (customers w) (orders w) (products w) (events w).

Definition set_shops (l : list shop) (w : world) : world :=
  mkWorld (upstream w) (requests w) (now w) l
    (customers w) (orders w) (products w) (events w).

Definition set_events (l : list event) (w : world) : world :=
  mkWorld (upstream w) (requests w) (now w) (shops w)
    (customers w) (orders w) (products w) l.

(** *** Asynchronous functions: state, exceptions, and the fuel of the one
    unbounded loop *)

Inductive result (A : Type) :=
| Ret (a : A)
| Raise (e : exn)
| OutOfFuel.
Arguments Ret {A} a.
Arguments Raise {A} e.
Arguments OutOfFuel {A}.

Definition M (A : Type) : Type := world -> world * result A.

Definition ret {A} (a : A) : M A := fun w => (w, Ret a).
Definition raise {A} (e : exn) : M A := fun w => (w, Raise e).

Definition bind {A B} (m : M A) (f : A -> M B) : M B :=
  fun w =>
    match m w with
    | (w', Ret a) => f a w'
    | (w', Raise e) => (w', Raise e)
    | (w', OutOfFuel) => (w', OutOfFuel)
    end.

(** [try { m } catch (err) { h err }] *)
Definition try_catch {A} (m : M A) (h : exn -> M A) : M A :=
  fun w =>
    match m w with
    | (w', Raise e) => h e w'
    | r => r
    end.

Definition lift {A} (o : outcome A) : M A :=
  match o with
  | Ok a => ret a
  | Throw e => raise (exn_of_error e)
  end.

Definition read {A} (f : world -> A) : M A := fun w => (w, Ret (f w)).
Definition modify (f : world -> world) : M unit := fun w => (f w, Ret tt).

Declare Scope async_scope.
Delimit Scope async_scope with async.
Notation "'let*' x ':=' c 'in' k" := (bind c (fun x => k))
  (at level 10, x name, c at level 100, k at level 200) : async_scope.
Notation "c ';;' k" := (bind c (fun _ => k))
  (at level 100, k at level 200, right associativity) : async_scope.

(** ** Upsert Writer: [upsertDocuments] over [Model.bulkWrite]

    [updateOne] with [$set] and [upsert: true]: the first stored record that
    equals the filter on its fields gets the fields of the update assigned,
    the other stored fields stay; without a match a record made of the
    filter's and the update's fields is inserted.  Paths whose value is
    [undefined] are dropped from an update before it is sent.  The
    operations of one unordered bulk are applied in the order of the list. *)

Module Store.
Import Mapper.

Definition set_fields (d : doc) (r : gmap string jsval) : gmap string jsval :=
  fold_left (fun acc kv =>
               match snd kv with
               | JUndefined => acc
               | v => <[fst kv := v]> acc
               end) d r.

Definition matches (filter : doc) (r : gmap string jsval) : bool :=
  forallb (fun kv => bool_decide (r !! fst kv = Some (snd kv))) filter.

Record write_result := mkWriteResult {
  upsertedCount : N;
  modifiedCount : N;
  matchedCount : N
}.

Definition no_writes : write_result := mkWriteResult 0 0 0.

Definition add_result (a b : write_result) : write_result :=
  mkWriteResult (upsertedCount a + upsertedCount b)
    (modifiedCount a + modifiedCount b) (matchedCount a + matchedCount b).

Fixpoint updateOne (filter update : doc) (c : list (gmap string jsval))
  : list (gmap string jsval) * write_result :=
  match c with
  | [] => ([set_fields update (set_fields filter ∅)], mkWriteResult 1 0 0)
  | r :: rest =>
      if matches filter r then
        let r' := set_fields update r in
        (r' :: rest, mkWriteResult 0 (if bool_decide (r' = r) then 0 else 1) 1)
      else
        let '(rest', res) := updateOne filter update rest in
        (r :: rest', res)
  end.

Record operation := mkOp { op_filter : doc; op_update : doc }.

Fixpoint bulkWrite (ops : list operation) (c : list (gmap string jsval))
  : list (gmap string jsval) * write_result :=
  match ops with
  | [] => (c, no_writes)
  | op :: rest =>
      let '(c1, r1) := updateOne (op_filter op) (op_update op) c in
      let '(c2, r2) := bulkWrite rest c1 in
      (c2, add_result r1 r2)
  end.

Definition upsert_operation (d : doc) : operation :=
  mkOp [("shop", Value.lookup_field "shop" d);
        ("shopifyId", Value.lookup_field "shopifyId" d)] d.

Definition upsertDocuments (Model : model) (docs : list doc) : M N :=
  match docs with
  | [] => ret 0
  | _ =>
      fun w =>
        let '(c, result) := bulkWrite (map upsert_operation docs) (collection Model w) in
        (set_collection Model c w,
         Ret (upsertedCount result + modifiedCount result + matchedCount result))
  end.

(** The filter of the operation written for a document. *)
Definition key_filter (d : doc) : doc := op_filter (upsert_operation d).

(** A document with distinct field names whose two key fields are set, as
    every document the mappers return is. *)
Definition keyed (d : doc) : Prop :=
  NoDup (map fst d) /\
  Value.lookup_field "shop" d <> JUndefined /\
  Value.lookup_field "shopifyId" d <> JUndefined.

End Store.

(** ** [JSON.stringify] on JSON values *)

Module Json.
Import JS Value.

Definition escape_char (c : ascii) : list ascii :=
  let bs := ascii_of_N 92 in
  if URL.is_char 34 c then [bs; c]
  else if URL.is_char 92 c then [bs; c]
  else if URL.is_char 8 c then [bs; ascii_of_N 98]
  else if URL.is_char 9 c then [bs; ascii_of_N 116]
  else if URL.is_char 10 c then [bs; ascii_of_N 110]
  else if URL.is_char 12 c then [bs; ascii_of_N 102]
  else if URL.is_char 13 c then [bs; ascii_of_N 114]
  else if code c <? 32
  then [bs; ascii_of_N 117; ascii_of_N 48; ascii_of_N 48;
        URL.hex_digit (code c / 16); URL.hex_digit (code c mod 16)]
  else [c].

Definition quote (s : string) : string :=
  str ([dquote] ++ concat (map escape_char (chars s)) ++ [dquote]).

(** [None] is the [undefined] that [JSON.stringify(undefined)] returns. *)
Fixpoint stringify (v : jsval) : option string :=
  match v with
  | JUndefined => None
  | JNull => Some "null"
  | JBool true => Some "true"
  | JBool false => Some "false"
  | JNum (Dec m e) => Some (number_to_string (Dec m e))
  | JNum _ => Some "null"
  | JStr s => Some (quote s)
  | JArr l =>
      Some ("[" +:+ join ","
              ((fix go (l : list jsval) : list string :=
                  match l with
                  | [] => []
                  | x :: r => default "null" (stringify x) :: go r
                  end) l) +:+ "]")
  | JObj fs =>
      Some ("{" +:+ join ","
              ((fix go (fs : list (string * jsval)) : list string :=
                  match fs with
                  | [] => []
                  | (k, x) :: r =>
                      match stringify x with
                      | Some t => (quote k +:+ ":" +:+ t) :: go r
                      | None => go r
                      end
                  end) fs) +:+ "}")
  end.

End Json.

(** ** API client, structured errors, Credential Verifier and Paginator *)

Module Api.
Import JS Value Mapper.
Local Open Scope async_scope.

(** [process.env.SHOPIFY_API_VERSION || '2024-10'] with the variable unset. *)
Definition DEFAULT_API_VERSION : string := "2024-10".

Definition quoted (s : string) : string :=
  String dquote (s +:+ String dquote EmptyString).

Definition invalid_domain_error : exn :=
  mkExn ("Invalid shop domain. Provide a hostname like "
         +:+ quoted "your-store.myshopify.com" +:+ ".") None None.

Record client := mkClient { baseURL : string; token : string }.

Definition version_of (s : shop) : string :=
  match apiVersion s with
  | Some v => if truthy_string v then v else DEFAULT_API_VERSION
  | None => DEFAULT_API_VERSION
  end.

(** [axios.create({ baseURL, headers })] for a validated domain. *)
Definition client_of (s : shop) (domain : string) : client :=
  mkClient ("https://" +:+ domain +:+ "/admin/api/" +:+ version_of s +:+ "/")
    (accessToken s).

Definition clientForShop (s : shop) : M client :=
  match normalizeShopDomain (shopDomain s) with
  | None => raise invalid_domain_error
  | Some domain => ret (client_of s domain)
  end.

(** [client.get(path, { params })]: the request is issued and logged, the
    upstream answers with a response or the call rejects. *)
Definition http_get (c : client) (path : string) (params : list (string * string))
  : M response :=
  fun w =>
    let req := mkRequest (baseURL c) (token c) path params in
    let w' := set_requests (requests w ++ [req]) w in
    match upstream w (requests w) req with
    | inl r => (w', Ret r)
    | inr e => (w', Raise e)
    end.

Definition parsePageInfo (linkHeader : option string) : option string :=
  match linkHeader with
  | None => None
  | Some header =>
      if negb (truthy_string header) then None
      else
        let marker := "rel=" +:+ quoted "next" in
        match List.find (fun part => includes part marker) (split "," header) with
        | None => None
        | Some nextLink =>
            let first := hd EmptyString (split ";" nextLink) in
            let urlPart :=
              str (List.filter (fun c => negb (URL.is_char 60 c || URL.is_char 62 c))
                     (chars (trim first))) in
            match URL.parse urlPart with
            | Some url => URL.searchParams_get url "page_info"
            | None => None
            end
        end
  end.

Definition or_else (a b : jsval) : jsval := if truthy a then a else b.

Definition status_text (st : option N) : string :=
  match st with
  | Some n => if n =? 0 then EmptyString else str (URL.decimal n)
  | None => EmptyString
  end.

Definition buildShopifyError (err : exn) (domain resourcePath : string) : exn :=
  let status := option_map er_status (ex_response err) in
  let statusText := option_map er_statusText (ex_response err) in
  let data := from_option er_data JUndefined (ex_response err) in
  let errors :=
    or_else (match get_opt data "errors" with Ok v => v | Throw _ => JUndefined end)
            data in
  let detail :=
    if truthy errors then default "undefined" (Json.stringify errors)
    else ex_message err in
  let hint : string :=
    if bool_decide (status = Some 404)
    then "Verify the shop domain is the Admin hostname (e.g. your-store.myshopify.com) and the token has access."
    else if bool_decide (status = Some 401) || bool_decide (status = Some 403)
    then "Check the Admin API token and scopes for customers/orders/products."
    else EmptyString in
  let text :=
    "Shopify " +:+ status_text status +:+ " " +:+ default EmptyString statusText
    +:+ " for " +:+ domain +:+ " " +:+ resourcePath +:+ ": " +:+ detail in
  let message := trim (join " - " (List.filter truthy_string [text; hint])) in
  mkExn message status (ex_response err).

(** [response?.data?.shop?.myshopify_domain?.toLowerCase() || normalizedDomain] *)
Definition canonical_of (data : jsval) (normalizedDomain : string) : outcome string :=
  match get_opt data "shop" with
  | Throw e => Throw e
  | Ok shopData =>
      match get_opt shopData "myshopify_domain" with
      | Throw e => Throw e
      | Ok (JUndefined | JNull) => Ok normalizedDomain
      | Ok (JStr d) =>
          Ok (if truthy_string (toLowerCase d) then toLowerCase d else normalizedDomain)
      | Ok _ => Throw (TypeError "toLowerCase is not a function")
      end
  end.

Definition verifyShopCredentials (s : shop) : M (string * jsval) :=
  match normalizeShopDomain (shopDomain s) with
  | None => raise invalid_domain_error
  | Some normalizedDomain =>
      let* c := clientForShop
                  (mkShop (shop_id s) (ownerEmail s) normalizedDomain (accessToken s)
                     (Some (version_of s)) (status s) (lastSyncedAt s) (metadata s)) in
      try_catch
        (let* r := http_get c "shop.json" [] in
         let* canonicalDomain := lift (canonical_of (res_data r) normalizedDomain) in
         ret (canonicalDomain,
              match get_opt (res_data r) "shop" with Ok v => v | Throw _ => JUndefined end))
        (fun err => raise (buildShopifyError err normalizedDomain "shop"))
  end.

(** Object spread: a key already present keeps its place and takes the new
    value. *)
Fixpoint assign_one (k v : string) (l : list (string * string))
  : list (string * string) :=
  match l with
  | [] => [(k, v)]
  | (k', v') :: r =>
      if bool_decide (k' = k) then (k, v) :: r else (k', v') :: assign_one k v r
  end.

Definition assign (base extra : list (string * string)) : list (string * string) :=
  fold_left (fun acc kv => assign_one (fst kv) (snd kv) acc) extra base.

Definition page_params (params : list (string * string)) (pageInfo : option string)
  : list (string * string) :=
  assign (assign [("limit", "250")] params)
    match pageInfo with
    | Some p => if truthy_string p then [("page_info", p)] else []
    | None => []
    end.

(** [records.push(...(response.data[dataKey] || []))] *)
Definition page_payload (data : jsval) (dataKey : string) : outcome (list jsval) :=
  match get data dataKey with
  | Throw e => Throw e
  | Ok v =>
      if negb (truthy v) then Ok []
      else match v with
           | JArr l => Ok l
           | JStr s => Ok (map (fun c => JStr (String c EmptyString)) (chars s))
           | _ => Throw (TypeError "payload is not iterable")
           end
  end.

Definition has_cursor (pageInfo : option string) : bool :=
  match pageInfo with
  | Some p => truthy_string p
  | None => false
  end.

(** The [do ... while (pageInfo)] loop; [fuel] bounds the number of pages. *)
Fixpoint page_loop (fuel : nat) (c : client) (domain resourcePath dataKey : string)
    (params : list (string * string)) (records : list jsval)
    (pageInfo : option string) : M (list jsval) :=
  match fuel with
  | O => fun w => (w, OutOfFuel)
  | S f =>
      let* page :=
        try_catch
          (let* r := http_get c (resourcePath +:+ ".json") (page_params params pageInfo) in
           let* payload := lift (page_payload (res_data r) dataKey) in
           ret (payload, parsePageInfo (res_link r)))
          (fun err => raise (buildShopifyError err domain resourcePath)) in
      if has_cursor (snd page)
      then page_loop f c domain resourcePath dataKey params
             (records ++ fst page) (snd page)
      else ret (records ++ fst page)
  end.

(** The request for the page behind a cursor; page one has none. *)
Definition page_request (c : client) (resourcePath : string)
    (params : list (string * string)) (cursor : option string) : request :=
  mkRequest (baseURL c) (token c) (resourcePath +:+ ".json") (page_params params cursor).


#[global] Instance request_eq_dec : EqDecision request.
Proof. solve_decision. Defined.

#[global] Instance error_eq_dec : EqDecision error.
Proof. solve_decision. Defined.

#[global] Instance outcome_eq_dec {A} `{EqDecision A} : EqDecision (outcome A).
Proof. solve_decision. Defined.


Definition fetchPaginatedResource (fuel : nat) (s : shop)
    (resourcePath dataKey : string) (params : list (string * string))
  : M (list jsval) :=
  let domain := default "null" (normalizeShopDomain (shopDomain s)) in
  let* c := clientForShop s in
  page_loop fuel c domain resourcePath dataKey params [] None.

End Api.

(** ** Sync Orchestrator: [resourceConfig], [syncShopResources] *)

Module Sync.
Import JS Value Mapper Store Api.
Local Open Scope async_scope.

Record config := mkConfig {
  cfg_path : string;
  cfg_dataKey : string;
  cfg_model : model;
  cfg_params : list (string * string);
  cfg_map : jsval -> string -> outcome doc
}.

(** [resourceConfig[resource]] looks the name up on the object and then on
    [Object.prototype]. *)
Inductive config_lookup :=
| Own (c : config)       (* one of the three configured kinds *)
| Inherited              (* a member of Object.prototype: truthy, no fields *)
| Missing.               (* undefined *)

Definition object_prototype_members : list string :=
  ["constructor"; "__defineGetter__"; "__defineSetter__"; "hasOwnProperty";
   "__lookupGetter__"; "__lookupSetter__"; "isPrototypeOf";
   "propertyIsEnumerable"; "toString"; "valueOf"; "__proto__";
   "toLocaleString"].

Definition resourceConfig (resource : string) : config_lookup :=
  if bool_decide (resource = "customers")
  then Own (mkConfig "customers" "customers" Customer [] map_customer)
  else if bool_decide (resource = "orders")
  then Own (mkConfig "orders" "orders" Order [("status", "any")] map_order)
  else if bool_decide (resource = "products")
  then Own (mkConfig "products" "products" Product [] map_product)
  else if bool_decide (resource ∈ object_prototype_members) then Inherited
  else Missing.

Inductive entry :=
| Counts (pulled saved : N)          (* { pulled, saved } *)
| UnsupportedResource.               (* { error: 'unsupported resource' } *)

(** [summary[resource] = e]; assigning to [__proto__] creates no entry. *)
Definition summary_set (resource : string) (e : entry) (summary : gmap string entry)
  : gmap string entry :=
  if bool_decide (resource = "__proto__") then summary else <[resource := e]> summary.

Definition sync_one (fuel : nat) (s : shop) (resource : string)
    (summary : gmap string entry) : M (gmap string entry) :=
  match resourceConfig resource with
  | Missing => ret (summary_set resource UnsupportedResource summary)
  | Own cfg =>
      let* raw := fetchPaginatedResource fuel s (cfg_path cfg) (cfg_dataKey cfg)
                    (cfg_params cfg) in
      let* docs := lift (map_outcome (fun item => cfg_map cfg item (shop_id s)) raw) in
      let* saved := upsertDocuments (cfg_model cfg) docs in
      ret (summary_set resource (Counts (N.of_nat (length raw)) saved) summary)
  | Inherited =>
      (* path, dataKey, params, map and model are all undefined *)
      let* raw := fetchPaginatedResource fuel s "undefined" "undefined" [] in
      match raw with
      | [] => ret (summary_set resource (Counts 0 0) summary)
      | _ => raise (exn_of_error (TypeError "config.map is not a function"))
      end
  end.

Fixpoint sync_loop (fuel : nat) (s : shop) (resources : list string)
    (summary : gmap string entry) : M (gmap string entry) :=
  match resources with
  | [] => ret summary
  | resource :: rest =>
      let* summary' := sync_one fuel s resource summary in
      sync_loop fuel s rest summary'
  end.

Definition default_resources : list string := ["customers"; "orders"; "products"].

Definition syncShopResources (fuel : nat) (s : shop) (resources : list string)
  : M (gmap string entry) :=
  sync_loop fuel s resources ∅.

End Sync.

(** ** Vocabulary of the orchestrator properties *)

Module SyncSpec.
Import Sync.

(** A kind the lookup finds, on the object or on its prototype. *)
Definition found (resource : string) : bool :=
  match resourceConfig resource with Missing => false | _ => true end.

(** Two summaries with the same entries for the kinds the lookup finds. *)
Definition agree (a b : gmap string entry) : Prop :=
  forall k, found k = true -> a !! k = b !! k.

Definition results_agree (x y : result (gmap string entry)) : Prop :=
  match x, y with
  | Ret a, Ret b => agree a b
  | Raise e, Raise e' => e = e'
  | OutOfFuel, OutOfFuel => True
  | _, _ => False
  end.

End SyncSpec.

(** ** Webhook Normalizer and the event routes *)

Module Webhook.
Import JS Value Mapper Store.
Local Open Scope async_scope.

Inductive handled :=
| Handled (type : string)     (* { handled: true, type } *)
| Unhandled.                  (* { handled: false } *)

(** [Event.create(...)]; [receivedAt] is the clock reading. *)
Definition Event_create (shopId topic : string) (payload : jsval) : M event :=
  fun w =>
    let e := mkEvent shopId topic payload (now w) in
    (set_events (events w ++ [e]) w, Ret e).

Definition handleWebhook (topic : string) (payload : jsval) (s : shop) : M handled :=
  let normalizedTopic := toLowerCase topic in
  Event_create (shop_id s) normalizedTopic payload ;;
  if startsWith normalizedTopic "customers/" then
    let* d := lift (map_customer payload (shop_id s)) in
    upsertDocuments Customer [d] ;;
    ret (Handled "customer")
  else if startsWith normalizedTopic "orders/" then
    let* d := lift (map_order payload (shop_id s)) in
    upsertDocuments Order [d] ;;
    ret (Handled "order")
  else if startsWith normalizedTopic "products/" then
    let* d := lift (map_product payload (shop_id s)) in
    upsertDocuments Product [d] ;;
    ret (Handled "product")
  else if startsWith normalizedTopic "carts/"
          || startsWith normalizedTopic "checkouts/"
          || includes normalizedTopic "abandon"
          || includes normalizedTopic "cart"
  then ret (Handled "event-only")
  else ret Unhandled.

(** The replies of the routes: status code and, for a stored event, the
    event. *)
Inductive reply :=
| Status (code : N)
| Created (e : event)
| Delivered (r : handled).

(** [POST /api/webhooks/shopify] with the two headers. *)
Definition webhook_route (topicHeader domainHeader : option string) (body : jsval)
  : M reply :=
  match topicHeader, domainHeader with
  | Some topic, Some domain =>
      if negb (truthy_string topic && truthy_string domain) then ret (Status 400)
      else
        let* found := read (fun w =>
          List.find (fun s => bool_decide (shopDomain s = toLowerCase domain)) (shops w)) in
        match found with
        | None => ret (Status 404)
        | Some s =>
            try_catch
              (let* r := handleWebhook topic body s in ret (Delivered r))
              (fun _ => ret (Status 500))
        end
  | _, _ => ret (Status 400)
  end.

(** [mongoose.Types.ObjectId.isValid] on a string. *)
Definition objectid_valid (id : string) : bool :=
  let l := chars id in
  (length l =? 12)%nat || ((length l =? 24)%nat && forallb URL.is_hex l).

(** [topic.toLowerCase()] for the [topic] of a JSON body. *)
Definition call_toLowerCase (topic : jsval) : outcome string :=
  match topic with
  | JStr t => Ok (toLowerCase t)
  | _ => Throw (TypeError "topic.toLowerCase is not a function")
  end.

(** [POST /api/events/:shopId] *)
Definition events_post_route (shopId : string) (userEmail : option string)
    (body : jsval) : M reply :=
  let* topic := lift (get body "topic") in
  let* payload := lift (get body "payload") in
  if negb (objectid_valid shopId) then ret (Status 400)
  else
    let* found := read (fun w =>
      List.find (fun s => bool_decide (shop_id s = shopId)) (shops w)) in
    match found with
    | None => ret (Status 404)
    | Some s =>
        if match ownerEmail s with
           | Some o => truthy_string o && negb (bool_decide (Some o = userEmail))
           | None => false
           end
        then ret (Status 403)
        else if negb (truthy topic) then ret (Status 400)
        else
          let* t := lift (call_toLowerCase topic) in
          let* e := Event_create shopId t payload in
          ret (Created e)
    end.

End Webhook.

(** ** Scheduler: [markShopError] and the cron callback of [startScheduler] *)

Module Scheduler.
Import JS Value Api Sync.
Local Open Scope async_scope.

(** [shop.save()]: the stored tenant with this id takes the values of the
    in-memory document. *)
Definition save (s : shop) : M unit :=
  modify (fun w =>
    set_shops (map (fun t => if bool_decide (shop_id t = shop_id s) then s else t)
                 (shops w)) w).

Definition with_domain (d : string) (s : shop) : shop :=
  mkShop (shop_id s) (ownerEmail s) d (accessToken s) (apiVersion s)
    (status s) (lastSyncedAt s) (metadata s).

Definition with_lastSyncedAt (t : string) (s : shop) : shop :=
  mkShop (shop_id s) (ownerEmail s) (shopDomain s) (accessToken s) (apiVersion s)
    (status s) (Some t) (metadata s).

Definition markShopError (s : shop) (err : exn) : M unit :=
  let* t := read now in
  let meta := default ∅ (metadata s) in
  let meta := <["lastError" := ex_message err]> meta in
  let meta := <["lastErrorStatus" := status_text (ex_status err)]> meta in
  let meta := <["lastErrorAt" := t]> meta in
  save (mkShop (shop_id s) (ownerEmail s) (shopDomain s) (accessToken s)
          (apiVersion s) paused (lastSyncedAt s) (Some meta)).

(** The stored tenant with a given id. *)
Definition stored (id : string) (w : world) : option shop :=
  List.find (fun t => bool_decide (shop_id t = id)) (shops w).

(** [/Invalid shop domain/i.test(err.message)] *)
Definition mentions_invalid_domain (message : string) : bool :=
  includes (str (map URL.ascii_lower (chars message))) "invalid shop domain".

(** The condition of the [catch] block. *)
Definition pauses (err : exn) : bool :=
  bool_decide (ex_status err = Some 404)
  || bool_decide (ex_status err = Some 401)
  || bool_decide (ex_status err = Some 403)
  || mentions_invalid_domain (ex_message err).

Definition scheduler_domain_error : exn :=
  mkExn ("Invalid shop domain. Provide the Admin hostname like "
         +:+ quoted "your-store.myshopify.com" +:+ ".") None None.

Definition on_failure (s : shop) (err : exn) : M unit :=
  if pauses err then markShopError s err else ret tt.

(** The [try] block for one tenant. *)
Definition sync_attempt (fuel : nat) (s : shop) : M unit :=
  match normalizeShopDomain (shopDomain s) with
  | None => raise scheduler_domain_error
  | Some normalizedDomain =>
      let s1 := if bool_decide (normalizedDomain = shopDomain s) then s
                else with_domain normalizedDomain s in
      (if bool_decide (normalizedDomain = shopDomain s) then ret tt else save s1) ;;
      verifyShopCredentials s1 ;;
      syncShopResources fuel s1 default_resources ;;
      let* t := read now in
      save (with_lastSyncedAt t s1)
  end.

(** The in-memory document as the [catch] block finds it: it carries a
    corrected domain once the assignment has run. *)
Definition in_memory (s : shop) : shop :=
  match normalizeShopDomain (shopDomain s) with
  | Some normalizedDomain =>
      if bool_decide (normalizedDomain = shopDomain s) then s
      else with_domain normalizedDomain s
  | None => s
  end.

Definition process_shop (fuel : nat) (s : shop) : M unit :=
  try_catch (sync_attempt fuel s) (on_failure (in_memory s)).

Fixpoint for_each (fuel : nat) (l : list shop) : M unit :=
  match l with
  | [] => ret tt
  | s :: rest => process_shop fuel s ;; for_each fuel rest
  end.

(** One tick: [Shop.find({ status: 'active' })], then the loop. *)
Definition tick (fuel : nat) : M unit :=
  let* found := read (fun w =>
    List.filter (fun s => bool_decide (status s = active)) (shops w)) in
  for_each fuel found.

End Scheduler.

(** ** Vocabulary of the scheduler properties *)

Module SchedulerSpec.
Import Scheduler.
Local Open Scope N_scope.


(** Between two lists of stored tenants: same ids in the same places, and
    every tenant other than [id] unchanged. *)
Definition others_kept (id : string) (l l' : list shop) : Prop :=
  Forall2 (fun t t' => shop_id t' = shop_id t /\ (shop_id t <> id -> t' = t)) l l'.

Definition touches {A} (id : string) (m : M A) : Prop :=
  forall w, others_kept id (shops w) (shops (fst (m w))).

End SchedulerSpec.

(** ** The operations that reach the store

    A webhook delivery, a posted custom event, a run of the orchestrator
    (from the sync route) and a tick of the scheduler. *)

Module System.
Import Webhook Sync Scheduler.

Inductive call :=
| WebhookDelivery (topic domain : option string) (body : jsval)
| EventPost (shopId : string) (userEmail : option string) (body : jsval)
| SyncRun (fuel : nat) (s : shop) (resources : list string)
| SchedulerTick (fuel : nat).

Definition step (c : call) (w : world) : world :=
  match c with
  | WebhookDelivery topic domain body => fst (webhook_route topic domain body w)
  | EventPost shopId userEmail body => fst (events_post_route shopId userEmail body w)
  | SyncRun fuel s resources => fst (syncShopResources fuel s resources w)
  | SchedulerTick fuel => fst (tick fuel w)
  end.

Definition run (calls : list call) (w : world) : world :=
  fold_left (fun w c => step c w) calls w.

(** No code unit of the topic is one that [toLowerCase] would change. *)
Definition lowercase (t : string) : bool :=
  forallb (fun c => negb (JS.is_upper c)) (JS.chars t).

(** The invariant of the Event collection. *)
Definition topics_lowercase (w : world) : Prop :=
  Forall (fun e => lowercase (ev_topic e) = true) (events w).

(** An asynchronous function leaves a component of the world as it was. *)
Definition preserves {A X : Type} (proj : world -> X) (m : M A) : Prop :=
  forall w, proj (fst (m w)) = proj w.

End System.

(** ** Fixtures: two tenants and an upstream with three pages of customers *)

Module Fixture.
Import JS Value Api.

Definition acme : shop :=
  mkShop "64b7f0c2a1d4e5f6a7b8c9d0" None "acme.myshopify.com"
    "shpat_0123456789abcdef0123" (Some "2024-10") active None None.

Definition beta : shop :=
  mkShop "64b7f0c2a1d4e5f6a7b8c9d1" None "beta.myshopify.com"
    "shpat_revoked_token_000000" (Some "2024-10") active None None.

Definition gamma : shop :=
  mkShop "64b7f0c2a1d4e5f6a7b8c9d2" None "gamma.myshopify.com"
    "shpat_fedcba9876543210fedc" (Some "2024-10") active None None.

Definition customer_record (i : nat) : jsval :=
  JObj [("id", JNum (Dec (Z.of_nat i) 0));
        ("email", JStr "buyer@example.com");
        ("tags", JStr "vip, newsletter");
        ("total_spent", JStr "12.50")].

Definition page_link (rel cursor : string) : string :=
  "<https://acme.myshopify.com/admin/api/2024-10/customers.json?limit=250&page_info="
  +:+ cursor +:+ ">; rel=" +:+ quoted rel.

Definition param (k : string) (r : request) : option string :=
  URL.assoc k (req_params r).

(** An order whose line item has an empty quantity and a price that is
    not a number, and a product whose variant has a textual stock level. *)
Definition untidy_order : jsval :=
  JObj [("id", JNum (Dec 1002 0));
        ("line_items",
         JArr [JObj [("id", JNum (Dec 1 0)); ("quantity", JStr EmptyString);
                     ("price", JStr "n/a")]])].

Definition untidy_product : jsval :=
  JObj [("id", JNum (Dec 2001 0));
        ("variants",
         JArr [JObj [("id", JNum (Dec 1 0)); ("inventory_quantity", JStr "n/a");
                     ("price", JStr EmptyString)]])].

Definition order_record : jsval :=
  JObj [("id", JNum (Dec 1001 0));
        ("total_price", JStr "40.00");
        ("line_items",
         JArr [JObj [("id", JNum (Dec 1 0)); ("quantity", JNum (Dec 2 0));
                     ("price", JStr "20.00")]])].

Definition unauthorized : exn :=
  mkExn "Request failed with status code 401" None
    (Some (mkErrorResponse 401 "Unauthorized"
             (JObj [("errors", JStr "[API] Invalid API key or access token")]))).

Definition not_found : exn :=
  mkExn "Request failed with status code 404" None
    (Some (mkErrorResponse 404 "Not Found" (JObj [("errors", JStr "Not Found")]))).

Definition timeout : exn := mkExn "timeout of 15000ms exceeded" None None.

(** The upstream: [beta]'s token is revoked, [gamma]'s host does not answer
    in time, [acme] has 250 + 250 + 10 customers on three pages, one order
    and no product; unknown paths are not found. *)
Definition api (log : list request) (r : request) : response + exn :=
  if bool_decide (req_token r = accessToken beta) then inr unauthorized
  else if bool_decide (req_path r = "shop.json")
  then inl (mkResponse (JObj [("shop", JObj [("myshopify_domain", JStr "acme.myshopify.com")])]) None)
  else if startsWith (req_baseURL r) "https://gamma." then inr timeout
  else if bool_decide (req_path r = "customers.json") then
    match param "page_info" r with
    | None =>
        inl (mkResponse (JObj [("customers", JArr (map customer_record (seq 1 250)))])
               (Some (page_link "next" "p2")))
    | Some cursor =>
        if bool_decide (cursor = "p2")
        then inl (mkResponse (JObj [("customers", JArr (map customer_record (seq 251 250)))])
                    (Some (page_link "previous" "p1" +:+ ", " +:+ page_link "next" "p3")))
        else inl (mkResponse (JObj [("customers", JArr (map customer_record (seq 501 10)))])
                    (Some (page_link "previous" "p2")))
    end
  else if bool_decide (req_path r = "orders.json")
  then inl (mkResponse (JObj [("orders", JArr [order_record])]) None)
  else if bool_decide (req_path r = "products.json")
  then inl (mkResponse (JObj [("products", JArr [])]) None)
  else inr not_found.





(** The three pages of customers with the requests that fetch them. *)
Definition customer_pages : list (request * list jsval) :=
  let c := client_of acme "acme.myshopify.com" in
  [(page_request c "customers" [] None, map customer_record (seq 1 250));
   (page_request c "customers" [] (Some "p2"), map customer_record (seq 251 250));
   (page_request c "customers" [] (Some "p3"), map customer_record (seq 501 10))].

Definition world0 : world :=
  mkWorld api [] "2024-11-05T10:00:00.000Z" [acme; beta; gamma] [] [] [] [].


(** The same upstream with only the two failing tenants registered. *)
Definition world1 : world :=
  mkWorld api [] "2024-11-05T10:30:00.000Z" [beta; gamma] [] [] [] [].

End Fixture.

(** * Further parts of the program and the vocabulary of their properties *)

(** ** Vocabulary: stored records and upserts *)

Module StoreSpec.
Import JS Value Mapper Store Api Sync Webhook Scheduler System.

(** A stored record that belongs to another tenant than [sid]. *)
Definition other_tenant (sid : string) (r : gmap string jsval) : bool :=
  negb (bool_decide (r !! "shop" = Some (JStr sid))).



#[global] Instance model_eq_dec : EqDecision model.
Proof. solve_decision. Defined.

End StoreSpec.

(** ** Vocabulary: the requests a function issues *)

Module ApiSpec.
Import JS Value Mapper Store Api Sync Webhook Scheduler System.



End ApiSpec.

(** ** Vocabulary: runs of pages *)

Module PaginatorSpec.
Import JS Value Mapper Store Api Sync Webhook Scheduler System.

(** Pages the upstream serves from a cursor on, each with a next cursor:
    the run ends at the cursor [final] of the page that follows. *)
Inductive page_run (up : list request -> request -> response + exn)
    (c : client) (resourcePath dataKey : string) (params : list (string * string))
  : list request -> option string -> list (request * list jsval) -> option string
    -> Prop :=
| run_done log cursor :
    page_run up c resourcePath dataKey params log cursor [] cursor
| run_next log cursor r payload rest final :
    up log (page_request c resourcePath params cursor) = inl r ->
    page_payload (res_data r) dataKey = Ok payload ->
    has_cursor (parsePageInfo (res_link r)) = true ->
    page_run up c resourcePath dataKey params
      (log ++ [page_request c resourcePath params cursor])
      (parsePageInfo (res_link r)) rest final ->
    page_run up c resourcePath dataKey params log cursor
      ((page_request c resourcePath params cursor, payload) :: rest) final.

(** A decision procedure for [page_run] on given pages. *)
Fixpoint run_check (up : list request -> request -> response + exn)
    (c : client) (resourcePath dataKey : string) (params : list (string * string))
    (log : list request) (cursor : option string)
    (pages : list (request * list jsval)) (final : option string) : bool :=
  match pages with
  | [] => bool_decide (cursor = final)
  | (req, payload) :: rest =>
      bool_decide (req = page_request c resourcePath params cursor) &&
      match up log req with
      | inl r =>
          bool_decide (page_payload (res_data r) dataKey = Ok payload) &&
          has_cursor (parsePageInfo (res_link r)) &&
          run_check up c resourcePath dataKey params (log ++ [req])
            (parsePageInfo (res_link r)) rest final
      | inr _ => false
      end
  end.

(** An upstream that answers every page request with a page and a next
    cursor. *)
Definition endless (up : list request -> request -> response + exn)
    (c : client) (resourcePath dataKey : string) (params : list (string * string))
  : Prop :=
  forall log cursor, exists r payload,
    up log (page_request c resourcePath params cursor) = inl r /\
    page_payload (res_data r) dataKey = Ok payload /\
    has_cursor (parsePageInfo (res_link r)) = true.

End PaginatorSpec.

(** ** Upstreams that fail or never end *)

Module Scenario.
Import JS Value Mapper Store Api Sync Webhook Scheduler System.

Definition server_error : exn :=
  mkExn "Request failed with status code 503" None
    (Some (mkErrorResponse 503 "Service Unavailable" JNull)).

(** [acme]'s upstream with the second page of customers failing. *)
Definition second_page_fails (log : list request) (r : request) : response + exn :=
  if bool_decide (Fixture.param "page_info" r = Some "p2") then inr server_error
  else Fixture.api log r.

(** An upstream whose every page of customers links to a next page. *)
Definition looping (log : list request) (r : request) : response + exn :=
  inl (mkResponse (JObj [("customers", JArr [Fixture.customer_record 1])])
         (Some (Fixture.page_link "next" "again"))).

Definition with_upstream (up : list request -> request -> response + exn) (w : world)
  : world :=
  mkWorld up (requests w) (now w) (shops w) (customers w) (orders w) (products w)
    (events w).

End Scenario.

(** ** Vocabulary: typed host names and handles *)

Module NormalizerSpec.
Import JS Value Mapper Store Api Sync Webhook Scheduler System.

(** A character of a host name as typed: a letter of either case, a digit,
    a hyphen or a dot. *)
Definition host_char (c : ascii) : bool :=
  URL.is_alpha c || URL.is_digit c || URL.is_char 45 c || URL.is_char 46 c.

(** A character of a shop handle: a letter, a digit or a hyphen. *)
Definition handle_char (c : ascii) : bool :=
  URL.is_alpha c || URL.is_digit c || URL.is_char 45 c.

(** A visible ASCII character (no space, no control). *)
Definition visible (c : ascii) : bool := in_range 33 126 c.

(** A string of white space only. *)
Definition spaces (s : string) : bool := forallb is_js_space (chars s).

(** The query of a URL text that follows the host. *)
Definition query_after (rest : list ascii) : string :=
  str (tl (snd (URL.span (fun c => negb (URL.is_char 63 c))
                  (fst (URL.span (fun c => negb (URL.is_char 35 c)) rest))))).

(** The text after a host ends the authority: it is empty or begins with
    a slash, a question mark, a backslash or a number sign. *)
Definition ends_authority (rest : list ascii) : bool :=
  match rest with
  | [] => true
  | c :: _ => URL.authority_end true c || URL.is_char 35 c
  end.

(** What may follow the host in a typed URL: a path, a query or a
    fragment of visible characters. *)
Definition url_tail (rest : string) : bool :=
  ends_authority (chars rest) && forallb visible (chars rest).

(** A character of a dotted number. *)
Definition digit_or_dot (c : ascii) : bool := URL.is_digit c || URL.is_char 46 c.

End NormalizerSpec.

(** ** Vocabulary: link headers *)

Module LinkSpec.
Import JS Value Mapper Store Api Sync Webhook Scheduler System NormalizerSpec.

(** The marker of the link to the next page. *)
Definition next_marker : string := "rel=" +:+ quoted "next".

(** One link of a [Link] header. *)
Definition link (url rel : string) : string :=
  "<" +:+ url +:+ ">; rel=" +:+ quoted rel.

(** A character of a cursor: a letter, a digit, a hyphen or an underscore. *)
Definition cursor_char (c : ascii) : bool := handle_char c || URL.is_char 95 c.

(** A character of the path of a link: visible, and none of the
    characters that end the path or separate links. *)
Definition path_char (c : ascii) : bool :=
  visible c &&
  negb (existsb (fun n => URL.is_char n c) [35; 44; 59; 60; 62; 63]).

(** The URL of the next page as the upstream writes it. *)
Definition page_url (host path cursor : string) : string :=
  "https://" +:+ host +:+ "/" +:+ path +:+ "?limit=250&page_info=" +:+ cursor.

(** Characters that may stand inside a link without ending it. *)
Definition link_safe (c : ascii) : bool :=
  visible c && negb (existsb (fun n => URL.is_char n c) [44; 59; 60; 62]).

End LinkSpec.

(** ** Vocabulary: the parts of a structured error *)

Module ErrorSpec.
Import JS Value Mapper Store Api Sync Webhook Scheduler System.

(** The two hints of the structured error. *)
Definition domain_hint : string :=
  "Verify the shop domain is the Admin hostname (e.g. your-store.myshopify.com) and the token has access.".

Definition token_hint : string :=
  "Check the Admin API token and scopes for customers/orders/products.".

(** Where the error says what was requested. *)
Definition request_part (domain resourcePath : string) : string :=
  " for " +:+ domain +:+ " " +:+ resourcePath +:+ ":".

(** The head of the message: status code and status text of the response,
    when there is one. *)
Definition status_part (err : exn) : string :=
  "Shopify " +:+ status_text (option_map er_status (ex_response err)) +:+ " "
  +:+ default EmptyString (option_map er_statusText (ex_response err)).

(** The detail: the errors of the response body, or the body, as JSON;
    without either the message of the failure. *)
Definition error_detail (err : exn) : string :=
  let data := from_option er_data JUndefined (ex_response err) in
  let errors :=
    or_else (match get_opt data "errors" with Ok v => v | Throw _ => JUndefined end)
            data in
  if truthy errors then default "undefined" (Json.stringify errors)
  else ex_message err.

(** The message without hint: head, request and detail. *)
Definition error_text (err : exn) (domain resourcePath : string) : string :=
  status_part err +:+ request_part domain resourcePath +:+ " " +:+ error_detail err.

End ErrorSpec.

(** ** The earlier scheduler: [server/src/scheduler.js]

    The cron callback without domain repair, verification and pausing: a
    failed sync is logged and nothing else. *)

Module Legacy.
Import JS Value Mapper Store Api Sync Webhook Scheduler System.
Local Open Scope async_scope.

(** The [try] block for one tenant. *)
Definition sync_attempt (fuel : nat) (s : shop) : M unit :=
  syncShopResources fuel s default_resources ;;
  let* t := read now in
  save (with_lastSyncedAt t s).

Definition process_shop (fuel : nat) (s : shop) : M unit :=
  try_catch (sync_attempt fuel s) (fun _ => ret tt).

Fixpoint for_each (fuel : nat) (l : list shop) : M unit :=
  match l with
  | [] => ret tt
  | s :: rest => process_shop fuel s ;; for_each fuel rest
  end.

Definition tick (fuel : nat) : M unit :=
  let* found := read (fun w =>
    List.filter (fun s => bool_decide (status s = active)) (shops w)) in
  for_each fuel found.

End Legacy.

(** ** Vocabulary: sweeps of the schedulers *)

Module SweepSpec.
Import JS Value Mapper Store Api Sync Webhook Scheduler System.

(** A result that is no exception. *)
Definition settles {A} (r : result A) : Prop :=
  (exists a, r = Ret a) \/ r = OutOfFuel.

(** Ticks of the scheduler, one after the other. *)
Definition ticks (fuels : list nat) (w : world) : world :=
  fold_left (fun w fuel => fst (tick fuel w)) fuels w.

(** A tenant changed at most in the time of its last sync. *)
Definition synced_only (t t' : shop) : Prop :=
  t' = t \/ exists time, t' = with_lastSyncedAt time t.

(** Stored tenants against the tenants of the start of the tick: the same
    ids in the same places, each changed at most in its sync time. *)
Definition sweep_kept (l l' : list shop) : Prop :=
  Forall2 (fun t t' => shop_id t' = shop_id t /\ synced_only t t') l l'.

End SweepSpec.

(** ** A small world for the schedulers and the sync route *)

Module Quiet.
Import JS Value Mapper Store Api Sync Webhook Scheduler System.

(** An upstream that answers every request with the shop record and no
    resource, and a world with one tenant, stored under a domain that is
    not normalised. *)
Definition upstream (log : list request) (r : request) : response + exn :=
  inl (mkResponse
         (JObj [("shop", JObj [("myshopify_domain", JStr "acme.myshopify.com")])])
         None).

Definition world : world :=
  mkWorld upstream [] "2024-11-06T09:00:00.000Z"
    [with_domain "ACME" Fixture.acme] [] [] [] [].

End Quiet.

(** ** The email gate: [server/src/middleware/auth.js] *)

Module Auth.
Import JS Value Mapper Store Api Sync Webhook Scheduler System.

(** [ALLOWED_EMAILS], split at commas, trimmed and lowered, empty entries
    dropped; [env] is the variable, [None] when it is not set. *)
Definition allowedEmails (env : option string) : list string :=
  List.filter truthy_string
    (map (fun e => toLowerCase (trim e)) (split "," (default EmptyString env))).

(** [next()], with the [req.userEmail] the middleware has set if any, or a
    reply with a status code and a message. *)
Inductive decision :=
| Next (userEmail : option string)
| Deny (code : N) (message : string).

(** [path] is [req.path], [header] the [x-user-email] header. *)
Definition authMiddleware (allowed : list string) (path : string)
    (header : option string) : decision :=
  if startsWith path "/webhooks" then Next None
  else
    let email := toLowerCase (trim (default EmptyString header)) in
    if negb (truthy_string email) then Deny 401 "Missing x-user-email header"
    else if negb (bool_decide (allowed = [])) && negb (bool_decide (email ∈ allowed))
    then Deny 403 "Email not allowed for onboarding"
    else Next (Some email).

End Auth.

(** ** The tenant routes: [server/src/routes/shops.js] *)

Module Shops.
Import JS Value Mapper Store Api Sync Webhook Scheduler System.
Local Open Scope async_scope.
Local Open Scope js_scope.

Definition looksLikeUrl (value : string) : bool :=
  match URL.parse value with
  | Some _ => true
  | None => includes value "://"
  end.

(** The result is the message of the complaint, [None] for [null]. *)
Definition validateAccessToken (token : jsval) : outcome (option string) :=
  let! text := to_string (if truthy token then token else JStr EmptyString) in
  let trimmed := trim text in
  Ok (if negb (truthy_string trimmed) then Some "Admin API access token is required."
      else if looksLikeUrl trimmed
      then Some "Access token looks like a URL. Paste the Admin API access token from Shopify."
      else if (String.length trimmed <? 20)%nat
      then Some "Access token looks too short. Paste the full Admin API access token."
      else None).

                                             (* 200 { shopId, summary } *)







End Shops.

(** ** What a run of the sync route leaves behind *)

Module RouteSpec.
Import JS Value Mapper Store Api Sync Webhook Scheduler System Shops.





End RouteSpec.

(** ** Vocabulary: webhook deliveries *)

Module HookSpec.
Import JS Value Mapper Store Api Sync Webhook Scheduler System.


End HookSpec.

(** * Properties *)

Import JS Value Mapper MapperSpec Store Api Sync SyncSpec Webhook Scheduler SchedulerSpec System.

(** ** Domain Normalizer *)

(** Every accepted result carries the platform suffix. *)
Lemma normalize_ends_with_suffix (raw h : string) :
  normalizeShopDomain raw = Some h -> endsWith h platform_suffix = true.
Proof.
  unfold normalizeShopDomain.
  destruct (negb (truthy_string raw)); [discriminate|].
  destruct (URL.parse _) as [u|]; [|discriminate].
  destruct (endsWith _ platform_suffix) eqn:E; simpl; [|discriminate].
  intros [= <-]. exact E.
Qed.



(** C7: the normalizer is not idempotent on every input it accepts.  The
    IPv6 literal [[::1]] has no dot, so it gets the suffix and is accepted;
    the accepted text is not a host any more, and normalizing it again is
    rejected. *)
Theorem normalize_twice_ipv6_literal :
  normalizeShopDomain "[::1]" = Some "[::1].myshopify.com" /\
  normalizeShopDomain "[::1].myshopify.com" = None.
Proof. split; vm_compute; reflexivity. Qed.

(** A percent escape kept from the opaque host of a non-special scheme is
    decoded by the second pass. *)
Lemma normalize_twice_opaque_host :
  normalizeShopDomain "foo://a%41b" = Some "a%41b.myshopify.com" /\
  normalizeShopDomain "a%41b.myshopify.com" = Some "aab.myshopify.com".
Proof. split; vm_compute; reflexivity. Qed.

(** What the parser's tests say of a plain character. *)
Lemma plain_char_facts c :
  plain_char c = true ->
  is_js_space c = false /\ URL.is_c0_or_space c = false /\
  URL.is_tab_or_newline c = false /\ URL.is_char 35 c = false /\
  URL.is_char 63 c = false /\ URL.is_char 64 c = false /\
  URL.is_char 58 c = false /\ URL.is_char 37 c = false /\
  URL.is_char 91 c = false /\ URL.is_char 93 c = false /\
  URL.is_slash c = false /\
  URL.authority_end true c = false /\ URL.forbidden_domain c = false /\
  (127 <? code c) = false /\ URL.ascii_lower c = c /\ lower_char c = c.
Proof.
  destruct c as [[] [] [] [] [] [] [] []]; intros H; try discriminate H;
    repeat split; reflexivity.
Qed.

Lemma forallb_impl_eq {A} (p q : A -> bool) (l : list A) :
  (forall x, p x = true -> q x = true) -> forallb p l = true -> forallb q l = true.
Proof.
  intros H. induction l as [|x l IH]; [reflexivity|]. simpl.
  rewrite !andb_true_iff. intros [Hx Hl]. auto.
Qed.

Lemma drop_while_head p (l : list ascii) :
  forallb (fun c => negb (p c)) l = true -> drop_while p l = l.
Proof.
  destruct l as [|c l]; [reflexivity|]. simpl.
  destruct (p c); [discriminate|reflexivity].
Qed.

Lemma forallb_rev {A} (p : A -> bool) (l : list A) :
  forallb p l = true -> forallb p (rev l) = true.
Proof.
  rewrite !forallb_forall. intros H x Hx. apply H, in_rev, Hx.
Qed.

Lemma strip_none p (l : list ascii) :
  forallb (fun c => negb (p c)) l = true -> strip p l = l.
Proof.
  intros H. unfold strip. rewrite (drop_while_head p l H).
  rewrite (drop_while_head p (rev l)) by (apply forallb_rev, H).
  apply rev_involutive.
Qed.

Lemma filter_all {A} (p : A -> bool) (l : list A) :
  forallb p l = true -> List.filter p l = l.
Proof.
  induction l as [|x l IH]; [reflexivity|]. simpl.
  destruct (p x); [|discriminate]. intros H. rewrite (IH H). reflexivity.
Qed.

Lemma span_all p (l : list ascii) :
  forallb p l = true -> URL.span p l = (l, []).
Proof.
  induction l as [|c l IH]; [reflexivity|]. simpl.
  destruct (p c); [|discriminate]. intros H. rewrite (IH H). reflexivity.
Qed.

Lemma existsb_none {A} (p : A -> bool) (l : list A) :
  forallb (fun x => negb (p x)) l = true -> existsb p l = false.
Proof.
  induction l as [|x l IH]; [reflexivity|]. simpl.
  destruct (p x); [discriminate|]. exact IH.
Qed.

Lemma after_last_at_none (l : list ascii) :
  forallb (fun c => negb (URL.is_char 64 c)) l = true -> URL.after_last_at l = None.
Proof.
  induction l as [|c l IH]; [reflexivity|]. simpl.
  destruct (URL.is_char 64 c); [discriminate|]. intros H. rewrite (IH H). reflexivity.
Qed.

Lemma split_host_port_none (l : list ascii) :
  forall inb acc,
    forallb (fun c => negb (URL.is_char 58 c)) l = true ->
    URL.split_host_port inb acc l = (rev acc ++ l, None).
Proof.
  induction l as [|c l IH]; intros inb acc; simpl.
  - rewrite app_nil_r. reflexivity.
  - destruct (URL.is_char 58 c); [discriminate|]. simpl. intros H.
    rewrite (IH _ _ H). simpl. rewrite <- app_assoc. reflexivity.
Qed.

Lemma percent_decode_none (l : list ascii) :
  forallb (fun c => negb (URL.is_char 37 c)) l = true -> URL.percent_decode l = l.
Proof.
  induction l as [|c l IH]; [reflexivity|]. simpl.
  destruct (URL.is_char 37 c); [discriminate|]. intros H. rewrite (IH H). reflexivity.
Qed.

Lemma map_fixed {A} (f : A -> A) (l : list A) :
  Forall (fun x => f x = x) l -> map f l = l.
Proof. induction 1; simpl; congruence. Qed.

Lemma split_l_no_sep sep (t : list ascii) :
  forall cur, ~ In sep t -> split_l sep cur t = [rev cur ++ t].
Proof.
  induction t as [|c t IH]; intros cur Hn; simpl.
  - rewrite app_nil_r. reflexivity.
  - destruct (ascii_dec c sep) as [->|_]; [exfalso; apply Hn; left; reflexivity|].
    rewrite IH by (intros Hin; apply Hn; right; exact Hin).
    simpl. rewrite <- app_assoc. reflexivity.
Qed.

Lemma split_l_last sep (l t : list ascii) :
  forall cur, ~ In sep t ->
    split_l sep cur (l ++ sep :: t) = split_l sep cur l ++ [t].
Proof.
  induction l as [|c l IH]; intros cur Hn; simpl.
  - destruct (ascii_dec sep sep) as [_|Hne]; [|contradiction].
    rewrite (split_l_no_sep sep t [] Hn). reflexivity.
  - destruct (ascii_dec c sep); rewrite IH by exact Hn; reflexivity.
Qed.

Lemma starts_with_app (p l : list ascii) :
  starts_with p l = true -> exists r, l = p ++ r.
Proof.
  revert l. induction p as [|a p IH]; intros l; [exists l; reflexivity|].
  destruct l as [|b l]; [discriminate|]. simpl.
  destruct (ascii_dec a b) as [->|]; [|discriminate].
  intros H. destruct (IH l H) as [r ->]. exists r. reflexivity.
Qed.

Lemma starts_with_refl_app (p r : list ascii) : starts_with p (p ++ r) = true.
Proof.
  induction p as [|a p IH]; [reflexivity|]. simpl.
  destruct (ascii_dec a a); [exact IH|contradiction].
Qed.

Lemma includes_l_app (sub x y : list ascii) : includes_l sub (x ++ sub ++ y) = true.
Proof.
  induction x as [|c x IH]; simpl.
  - destruct sub as [|a sub]; [destruct y; reflexivity|]. simpl.
    destruct (ascii_dec a a); [|contradiction].
    rewrite starts_with_refl_app. reflexivity.
  - rewrite IH. apply orb_true_r.
Qed.

Lemma includes_l_absent (c : ascii) (sub l : list ascii) :
  ~ In c l -> includes_l (c :: sub) l = false.
Proof.
  induction l as [|b l IH]; intros Hn; [reflexivity|]. simpl.
  destruct (ascii_dec c b) as [->|_]; [exfalso; apply Hn; left; reflexivity|].
  simpl. apply IH. intros Hin. apply Hn. right. exact Hin.
Qed.

Lemma chars_append (a b : string) : chars (a +:+ b) = chars a ++ chars b.
Proof.
  unfold chars. induction a as [|c a IH]; [reflexivity|].
  simpl. rewrite <- IH. reflexivity.
Qed.

Lemma chars_str l : chars (str l) = l.
Proof. apply list_ascii_of_string_of_list_ascii. Qed.

Lemma str_chars s : str (chars s) = s.
Proof. apply string_of_list_ascii_of_string. Qed.

Lemma not_in_plain (c : ascii) (l : list ascii) :
  plain_char c = false -> forallb plain_char l = true -> ~ In c l.
Proof.
  intros Hc Hl Hin. rewrite forallb_forall in Hl. rewrite (Hl c Hin) in Hc.
  discriminate.
Qed.

Lemma toLowerCase_plain h : plain_host h = true -> toLowerCase h = h.
Proof.
  unfold plain_host, chars. induction h as [|c h IH]; [reflexivity|].
  simpl. rewrite andb_true_iff. intros [Hc Hh].
  rewrite (IH Hh). f_equal. apply plain_char_facts, Hc.
Qed.

Lemma plain_forall (q : ascii -> bool) (l : list ascii) :
  (forall c, plain_char c = true -> q c = false) ->
  forallb plain_char l = true -> forallb (fun c => negb (q c)) l = true.
Proof.
  intros H. apply forallb_impl_eq. intros c Hc. rewrite (H c Hc). reflexivity.
Qed.

Ltac plain_fact :=
  let c := fresh "c" in
  let Hc := fresh "Hc" in
  intros c Hc; apply plain_char_facts in Hc; cbv beta; tauto.

Lemma host_parse_plain l :
  l <> [] -> forallb plain_char l = true -> URL.ends_in_number l = false ->
  URL.host_parse false l = Some l.
Proof.
  intros Hne Hp He. destruct l as [|c r]; [contradiction|].
  unfold URL.host_parse.
  assert (URL.is_char 91 c = false) as ->.
  { simpl in Hp. apply andb_true_iff in Hp as [Hc _].
    apply plain_char_facts in Hc. tauto. }
  rewrite (percent_decode_none (c :: r)) by (apply plain_forall; [plain_fact|exact Hp]).
  rewrite (existsb_none (fun c => 127 <? code c))
    by (apply plain_forall; [plain_fact|exact Hp]).
  rewrite (map_fixed URL.ascii_lower (c :: r)).
  2:{ apply Forall_forall. intros x Hx. rewrite forallb_forall in Hp.
      apply plain_char_facts, Hp, list_elem_of_In, Hx. }
  rewrite (existsb_none URL.forbidden_domain)
    by (apply plain_forall; [plain_fact|exact Hp]).
  rewrite He. reflexivity.
Qed.

Lemma parse_authority_plain l :
  l <> [] -> forallb plain_char l = true -> URL.ends_in_number l = false ->
  URL.parse_authority true l = Some l.
Proof.
  intros Hne Hp He. unfold URL.parse_authority.
  rewrite (span_all _ l) by (apply plain_forall; [plain_fact|exact Hp]).
  cbn [fst].
  rewrite (after_last_at_none l) by (apply plain_forall; [plain_fact|exact Hp]).
  rewrite (split_host_port_none l) by (apply plain_forall; [plain_fact|exact Hp]).
  cbn [rev app negb]. rewrite (host_parse_plain l Hne Hp He).
  destruct l; [contradiction|reflexivity].
Qed.

Lemma parse_https_plain l :
  l <> [] -> forallb plain_char l = true -> URL.ends_in_number l = false ->
  URL.parse (str (chars "https://" ++ l)) = Some (URL.mk "https" (str l) EmptyString).
Proof.
  intros Hne Hp He. unfold URL.parse. rewrite chars_str.
  rewrite strip_none.
  2:{ rewrite forallb_app. apply andb_true_iff. split; [reflexivity|].
      apply plain_forall; [plain_fact|exact Hp]. }
  rewrite filter_all.
  2:{ rewrite forallb_app. apply andb_true_iff. split; [reflexivity|].
      apply plain_forall; [plain_fact|exact Hp]. }
  assert (URL.span URL.scheme_char (chars "https://" ++ l)
          = (chars "https", chars "://" ++ l)) as -> by reflexivity.
  change (chars "https://" ++ l) with ("h"%char :: chars "ttps://" ++ l).
  change (URL.is_alpha "h") with true. cbv iota.
  change (chars "://" ++ l) with (":"%char :: chars "//" ++ l).
  change (URL.is_char 58 ":") with true. cbv iota.
  rewrite (span_all _ (chars "//" ++ l)).
  2:{ rewrite forallb_app. apply andb_true_iff. split; [reflexivity|].
      apply plain_forall; [plain_fact|exact Hp]. }
  rewrite (span_all _ (chars "//" ++ l)).
  2:{ rewrite forallb_app. apply andb_true_iff. split; [reflexivity|].
      apply plain_forall; [plain_fact|exact Hp]. }
  change (bool_decide (str (map URL.ascii_lower (chars "https")) = "file")) with false.
  change (URL.special_not_file (str (map URL.ascii_lower (chars "https")))) with true.
  cbv iota.
  change (drop_while URL.is_slash (chars "//" ++ l)) with (drop_while URL.is_slash l).
  rewrite (drop_while_head URL.is_slash l)
    by (apply plain_forall; [plain_fact|exact Hp]).
  rewrite (parse_authority_plain l Hne Hp He). reflexivity.
Qed.

Lemma ends_in_number_suffix (x : list ascii) :
  URL.ends_in_number (x ++ chars platform_suffix) = false.
Proof.
  unfold URL.ends_in_number.
  change (x ++ chars platform_suffix)
    with (x ++ chars ".myshopify" ++ "."%char :: chars "com").
  rewrite app_assoc, split_l_last.
  2:{ intros [H|[H|[H|[]]]]; discriminate H. }
  rewrite rev_app_distr. reflexivity.
Qed.

(** A plain host name under the platform suffix is a fixed point of the
    normalizer. *)
Lemma normalize_plain_fixed (h : string) :
  plain_host h = true -> endsWith h platform_suffix = true ->
  normalizeShopDomain h = Some h.
Proof.
  intros Hp He. unfold plain_host in Hp.
  assert (exists x, chars h = x ++ chars platform_suffix) as [x Hx].
  { unfold endsWith in He. apply starts_with_app in He as [r Hr].
    exists (rev r). rewrite <- (rev_involutive (chars h)), Hr, rev_app_distr.
    rewrite rev_involutive. reflexivity. }
  assert (chars h <> []) as Hne.
  { rewrite Hx. destruct x; discriminate. }
  unfold normalizeShopDomain.
  assert (truthy_string h = true) as ->.
  { destruct h; [contradiction Hne; reflexivity|reflexivity]. }
  cbn [negb].
  assert (trim h = h) as ->.
  { unfold trim. rewrite strip_none by (apply plain_forall; [plain_fact|exact Hp]).
    apply str_chars. }
  unfold domain_url.
  assert (includes h "://" = false) as ->.
  { unfold includes. apply includes_l_absent, not_in_plain; [reflexivity|exact Hp]. }
  replace ("https://" +:+ h) with (str (chars "https://" ++ chars h))
    by (rewrite <- chars_append; apply str_chars).
  rewrite (parse_https_plain (chars h) Hne Hp)
    by (rewrite Hx; apply ends_in_number_suffix).
  cbn [URL.hostname]. rewrite str_chars, (toLowerCase_plain h Hp).
  unfold default_suffix.
  assert (includes h "." = true) as ->.
  { unfold includes. rewrite Hx.
    change (chars platform_suffix) with (chars "." ++ chars "myshopify.com").
    apply includes_l_app. }
  rewrite andb_false_r, He. reflexivity.
Qed.

(** Where the normalizer is idempotent: on every input whose accepted
    result is a plain host name. *)
Lemma normalize_idempotent_on_plain (raw h : string) :
  normalizeShopDomain raw = Some h -> plain_host h = true ->
  normalizeShopDomain h = Some h.
Proof.
  intros Hn Hp. apply normalize_plain_fixed; [exact Hp|].
  apply (normalize_ends_with_suffix raw h Hn).
Qed.

Lemma normalize_idempotent_examples :
  normalizeShopDomain " My-Store " = Some "my-store.myshopify.com" /\
  plain_host "my-store.myshopify.com" = true /\
  normalizeShopDomain "https://My-Store.myshopify.com/admin" = Some "my-store.myshopify.com".
Proof. repeat split; vm_compute; reflexivity. Qed.

(** ** Frame lemmas: what an asynchronous function leaves untouched *)

Section frame.
Context {X : Type} (proj : world -> X).

Lemma preserves_ret {A} (a : A) : preserves proj (ret a).
Proof. intros w. reflexivity. Qed.

Lemma preserves_raise {A} (e : exn) : preserves proj (@raise A e).
Proof. intros w. reflexivity. Qed.

Lemma preserves_read {A} (f : world -> A) : preserves proj (read f).
Proof. intros w. reflexivity. Qed.

Lemma preserves_lift {A} (o : outcome A) : preserves proj (lift o).
Proof. destruct o; intros w; reflexivity. Qed.

Lemma preserves_bind {A B} (m : M A) (f : A -> M B) :
  preserves proj m -> (forall a, preserves proj (f a)) ->
  preserves proj (bind m f).
Proof.
  intros Hm Hf w. unfold bind. specialize (Hm w).
  destruct (m w) as [w' [a|e|]]; simpl in *; [|assumption..].
  rewrite (Hf a w'). assumption.
Qed.

Lemma preserves_try_catch {A} (m : M A) (h : exn -> M A) :
  preserves proj m -> (forall e, preserves proj (h e)) ->
  preserves proj (try_catch m h).
Proof.
  intros Hm Hh w. unfold try_catch. specialize (Hm w).
  destruct (m w) as [w' [a|e|]]; simpl in *; [assumption| |assumption].
  rewrite (Hh e w'). assumption.
Qed.

(** The projections of interest do not read the request log or the typed
    collections. *)
Hypothesis proj_requests : forall r w, proj (set_requests r w) = proj w.
Hypothesis proj_collection : forall m c w, proj (set_collection m c w) = proj w.

Lemma preserves_http_get c path params : preserves proj (http_get c path params).
Proof.
  intros w. unfold http_get.
  destruct (upstream w (requests w) _); simpl; apply proj_requests.
Qed.

Lemma preserves_upsertDocuments Model docs :
  preserves proj (upsertDocuments Model docs).
Proof.
  intros w. unfold upsertDocuments. destruct docs as [|d docs]; [reflexivity|].
  destruct (bulkWrite _ _) as [c r]. simpl. apply proj_collection.
Qed.

Lemma preserves_clientForShop s : preserves proj (clientForShop s).
Proof.
  unfold clientForShop. destruct (normalizeShopDomain _);
    [apply preserves_ret | apply preserves_raise].
Qed.

Lemma preserves_page_loop fuel c domain path dataKey params records pageInfo :
  preserves proj (page_loop fuel c domain path dataKey params records pageInfo).
Proof.
  revert records pageInfo. induction fuel as [|f IH]; intros records pageInfo.
  - intros w. reflexivity.
  - simpl. apply preserves_bind.
    + apply preserves_try_catch.
      * apply preserves_bind; [apply preserves_http_get|]. intros r.
        apply preserves_bind; [apply preserves_lift|]. intros payload.
        apply preserves_ret.
      * intros e. apply preserves_raise.
    + intros page. destruct (has_cursor _); [apply IH | apply preserves_ret].
Qed.

Lemma preserves_fetch fuel s path dataKey params :
  preserves proj (fetchPaginatedResource fuel s path dataKey params).
Proof.
  unfold fetchPaginatedResource.
  apply preserves_bind; [apply preserves_clientForShop|].
  intros c. apply preserves_page_loop.
Qed.

Lemma preserves_verify s : preserves proj (verifyShopCredentials s).
Proof.
  unfold verifyShopCredentials.
  destruct (normalizeShopDomain _); [|apply preserves_raise].
  apply preserves_bind; [apply preserves_clientForShop|]. intros c.
  apply preserves_try_catch.
  - apply preserves_bind; [apply preserves_http_get|]. intros r.
    apply preserves_bind; [apply preserves_lift|]. intros d.
    apply preserves_ret.
  - intros e. apply preserves_raise.
Qed.

Lemma preserves_sync_one fuel s resource summary :
  preserves proj (sync_one fuel s resource summary).
Proof.
  unfold sync_one. destruct (resourceConfig resource) as [cfg| |].
  - apply preserves_bind; [apply preserves_fetch|]. intros raw.
    apply preserves_bind; [apply preserves_lift|]. intros docs.
    apply preserves_bind; [apply preserves_upsertDocuments|]. intros saved.
    apply preserves_ret.
  - apply preserves_bind; [apply preserves_fetch|]. intros [|x raw];
      [apply preserves_ret | apply preserves_raise].
  - apply preserves_ret.
Qed.

Lemma preserves_sync_loop fuel s resources summary :
  preserves proj (sync_loop fuel s resources summary).
Proof.
  revert summary. induction resources as [|r rest IH]; intros summary.
  - apply preserves_ret.
  - simpl. apply preserves_bind; [apply preserves_sync_one|].
    intros summary'. apply IH.
Qed.

Lemma preserves_sync fuel s resources :
  preserves proj (syncShopResources fuel s resources).
Proof. apply preserves_sync_loop. Qed.

(** Nor, for the scheduler, the stored tenants. *)
Hypothesis proj_shops : forall l w, proj (set_shops l w) = proj w.

Lemma preserves_save s : preserves proj (save s).
Proof. intros w. apply proj_shops. Qed.

Lemma preserves_markShopError s err : preserves proj (markShopError s err).
Proof.
  unfold markShopError. apply preserves_bind; [apply preserves_read|].
  intros t. apply preserves_save.
Qed.

Lemma preserves_sync_attempt fuel s : preserves proj (sync_attempt fuel s).
Proof.
  unfold sync_attempt. destruct (normalizeShopDomain _); [|apply preserves_raise].
  apply preserves_bind.
  { destruct (bool_decide _); [apply preserves_ret | apply preserves_save]. }
  intros _. apply preserves_bind; [apply preserves_verify|].
  intros _. apply preserves_bind; [apply preserves_sync|].
  intros _. apply preserves_bind; [apply preserves_read|].
  intros t. apply preserves_save.
Qed.

Lemma preserves_process_shop fuel s : preserves proj (process_shop fuel s).
Proof.
  unfold process_shop. apply preserves_try_catch.
  - apply preserves_sync_attempt.
  - intros e. unfold on_failure.
    destruct (pauses e); [apply preserves_markShopError | apply preserves_ret].
Qed.

Lemma preserves_for_each fuel l : preserves proj (for_each fuel l).
Proof.
  induction l as [|s l IH]; [apply preserves_ret|].
  simpl. apply preserves_bind; [apply preserves_process_shop|]. intros _. exact IH.
Qed.

Lemma preserves_tick fuel : preserves proj (tick fuel).
Proof.
  unfold tick. apply preserves_bind; [apply preserves_read|]. intros l.
  apply preserves_for_each.
Qed.

End frame.

(** ** Event topics *)

Lemma events_set_requests r w : events (set_requests r w) = events w.
Proof. reflexivity. Qed.

Lemma events_set_collection m c w : events (set_collection m c w) = events w.
Proof. destruct m; reflexivity. Qed.

Lemma shops_set_requests r w : shops (set_requests r w) = shops w.
Proof. reflexivity. Qed.

Lemma shops_set_collection m c w : shops (set_collection m c w) = shops w.
Proof. destruct m; reflexivity. Qed.

Lemma lower_char_not_upper (c : ascii) : is_upper (lower_char c) = false.
Proof. destruct c as [[] [] [] [] [] [] [] []]; reflexivity. Qed.

Lemma toLowerCase_lowercase (t : string) : lowercase (toLowerCase t) = true.
Proof.
  unfold lowercase, chars. induction t as [|c t IH]; [reflexivity|].
  simpl. rewrite lower_char_not_upper. exact IH.
Qed.

Lemma events_set_shops l w : events (set_shops l w) = events w.
Proof. reflexivity. Qed.

Lemma tick_events fuel : preserves events (tick fuel).
Proof.
  apply preserves_tick;
    [apply events_set_requests | apply events_set_collection | apply events_set_shops].
Qed.

(** What [handleWebhook] leaves in the event collection. *)
Lemma handleWebhook_events topic payload s w :
  events (fst (handleWebhook topic payload s w)) =
  events w ++ [mkEvent (shop_id s) (toLowerCase topic) payload (now w)].
Proof.
  unfold handleWebhook.
  match goal with
  | |- context [bind (Event_create ?a ?b ?c) (fun _ => ?k)] =>
      assert (preserves events k) as Hk; [|set (k0 := k) in *]
  end.
  { assert (forall (Model : model) mapper (type : string),
            preserves events
              (bind (lift (mapper payload (shop_id s)))
                 (fun d : doc => bind (upsertDocuments Model [d])
                                   (fun _ => ret (Handled type))))) as Htyped.
    { intros Model mapper type.
      apply preserves_bind; [apply preserves_lift|]. intros d.
      apply preserves_bind;
        [apply (preserves_upsertDocuments events events_set_collection)|].
      intros _. apply preserves_ret. }
    repeat (destruct (startsWith (toLowerCase topic) _); [apply Htyped|]).
    destruct (_ || _); apply preserves_ret. }
  unfold bind, Event_create. cbn beta iota. rewrite Hk. reflexivity.
Qed.

Lemma webhook_route_lowercase topic domain body w :
  topics_lowercase w -> topics_lowercase (fst (webhook_route topic domain body w)).
Proof.
  intros Hw. unfold webhook_route.
  destruct topic as [topic|], domain as [domain|]; try exact Hw.
  destruct (negb _); [exact Hw|].
  unfold bind at 1, read. simpl.
  destruct (List.find _ _) as [s|]; [|exact Hw].
  unfold try_catch, bind at 1.
  pose proof (handleWebhook_events topic body s w) as He.
  destruct (handleWebhook topic body s w) as [w' [r|e|]]; simpl in *;
    unfold topics_lowercase; rewrite He; apply Forall_app; split; try exact Hw;
    repeat constructor; apply toLowerCase_lowercase.
Qed.

Lemma events_post_route_lowercase shopId userEmail body w :
  topics_lowercase w ->
  topics_lowercase (fst (events_post_route shopId userEmail body w)).
Proof.
  intros Hw. unfold events_post_route.
  unfold bind at 1. destruct (get body "topic") as [topic|e]; simpl; [|exact Hw].
  unfold bind at 1. destruct (get body "payload") as [payload|e]; simpl; [|exact Hw].
  destruct (negb (objectid_valid shopId)); [exact Hw|].
  unfold bind at 1, read. simpl.
  destruct (List.find _ _) as [s|]; [|exact Hw].
  destruct (match ownerEmail s with Some _ => _ | None => _ end); [exact Hw|].
  destruct (negb (truthy topic)); [exact Hw|].
  unfold bind at 1. destruct topic as [| | | |t| |]; simpl; try exact Hw.
  unfold topics_lowercase. simpl. apply Forall_app. split; [exact Hw|].
  repeat constructor. apply toLowerCase_lowercase.
Qed.

(** C9: every stored Event has a lowercase topic.  The property holds of the
    empty collection and every operation keeps it: the webhook path and the
    custom-event route store [topic.toLowerCase()], the orchestrator and the
    scheduler store no event. *)
Theorem event_topics_lowercase (calls : list call) (w : world) :
  topics_lowercase w -> topics_lowercase (run calls w).
Proof.
  revert w. induction calls as [|c calls IH]; intros w Hw; [exact Hw|].
  simpl. apply IH. destruct c as [topic domain body|shopId email body|fuel s rs|fuel];
    simpl.
  - apply webhook_route_lowercase, Hw.
  - apply events_post_route_lowercase, Hw.
  - unfold topics_lowercase.
    rewrite (preserves_sync events events_set_requests events_set_collection).
    exact Hw.
  - unfold topics_lowercase. rewrite tick_events. exact Hw.
Qed.

Lemma event_topics_lowercase_witness :
  let calls :=
    [WebhookDelivery (Some "Orders/Create") (Some "BETA.myshopify.com")
       Fixture.order_record;
     EventPost "64b7f0c2a1d4e5f6a7b8c9d1" None
       (JObj [("topic", JStr "Cart_Viewed"); ("payload", JObj [])]);
     SchedulerTick 5] in
  topics_lowercase (run calls Fixture.world1) /\
  map ev_topic (events (run calls Fixture.world1)) = ["orders/create"; "cart_viewed"].
Proof.
  split.
  - apply (event_topics_lowercase _ Fixture.world1). constructor.
  - vm_compute. reflexivity.
Defined.

(** ** Webhook Normalizer *)

(** What [handleWebhook] does for every topic and payload: it stores exactly
    one Event with the lowercased topic.  For a topic that starts with
    [customers/], [orders/] or [products/] (tested in this order, before
    the cart tests) it maps the payload and, when the mapper returns a
    document, upserts it into that collection and reports the type; when
    the mapper throws, the Event stays, no typed collection is written and
    the exception propagates.  Any other topic that starts with [carts/] or
    [checkouts/] or contains [abandon] or [cart] is reported as handled,
    event-only; the rest as unhandled; neither writes a typed collection
    nor raises.  Topic [carts/create] is of the event-only kind. *)
Lemma webhook_dispatch (topic : string) (payload : jsval) (s : shop) (w : world) :
  let t := toLowerCase topic in
  let audit := mkEvent (shop_id s) t payload (now w) in
  let w1 := set_events (events w ++ [audit]) w in
  let typed (Model : model) (mapped : outcome doc) (type : string) :=
    match mapped with
    | Ok d => (fst (upsertDocuments Model [d] w1), Ret (Handled type))
    | Throw e => (w1, Raise (exn_of_error e))
    end in
  events (fst (handleWebhook topic payload s w)) = events w ++ [audit] /\
  handleWebhook topic payload s w =
    (if startsWith t "customers/"
     then typed Customer (map_customer payload (shop_id s)) "customer"
     else if startsWith t "orders/"
     then typed Order (map_order payload (shop_id s)) "order"
     else if startsWith t "products/"
     then typed Product (map_product payload (shop_id s)) "product"
     else if startsWith t "carts/" || startsWith t "checkouts/"
             || includes t "abandon" || includes t "cart"
     then (w1, Ret (Handled "event-only"))
     else (w1, Ret Unhandled)) /\
  handleWebhook "carts/create" payload s w =
    (set_events (events w ++ [mkEvent (shop_id s) "carts/create" payload (now w)]) w,
     Ret (Handled "event-only")).
Proof.
  cbv zeta. split; [apply handleWebhook_events|]. split; [|reflexivity].
  unfold handleWebhook.
  assert (forall (Model : model) (mapped : outcome doc) (type : string) w1,
            bind (lift mapped)
              (fun d => bind (upsertDocuments Model [d])
                          (fun _ => ret (Handled type))) w1 =
            match mapped with
            | Ok d => (fst (upsertDocuments Model [d] w1), Ret (Handled type))
            | Throw e => (w1, Raise (exn_of_error e))
            end) as Htyped.
  { intros Model [d|e] type w1; [|reflexivity].
    unfold bind, lift, ret, upsertDocuments.
    destruct (bulkWrite _ _) as [c r]. reflexivity. }
  unfold bind at 1, Event_create. cbn beta iota.
  repeat (destruct (startsWith (toLowerCase topic) _); [apply Htyped|]).
  destruct (_ || _); reflexivity.
Qed.

(** C5: a topic with a typed prefix does not always end in a typed write.
    For the topic [customers/create] and a payload whose tags array holds a
    number, the Event is stored, then [normalizeTags] throws inside the
    mapper: no typed collection is written and the call fails. *)
Theorem webhook_typed_topic_without_write :
  let payload := JObj [("id", JNum (Dec 7 0)); ("tags", JArr [JNum (Dec 5 0)])] in
  exists w' e,
    handleWebhook "customers/create" payload Fixture.acme Fixture.world0
      = (w', Raise e) /\
    startsWith (toLowerCase "customers/create") "customers/" = true /\
    length (events w') = 1%nat /\
    customers w' = [] /\ orders w' = [] /\ products w' = [].
Proof. do 2 eexists. repeat split; vm_compute; reflexivity. Qed.

(** ** Upsert Writer *)

Lemma lookup_field_absent k (d : doc) :
  k ∉ map fst d -> lookup_field k d = JUndefined.
Proof.
  induction d as [|[k' v] d IH]; [reflexivity|]. simpl. intros Hk.
  rewrite not_elem_of_cons in Hk. destruct Hk as [Hne Hk].
  rewrite bool_decide_eq_false_2 by congruence. apply IH, Hk.
Qed.

Lemma set_fields_lookup (d : doc) (r : gmap string jsval) (k : string) :
  NoDup (map fst d) ->
  set_fields d r !! k =
    match lookup_field k d with
    | JUndefined => r !! k
    | v => Some v
    end.
Proof.
  unfold set_fields. revert r.
  induction d as [|[k' v] d IH]; intros r Hnd; [reflexivity|].
  simpl in Hnd. apply NoDup_cons in Hnd as [Hk' Hnd].
  simpl. rewrite IH by exact Hnd.
  destruct (bool_decide (k' = k)) eqn:E.
  - apply bool_decide_eq_true in E. subst k'.
    rewrite (lookup_field_absent k d Hk').
    destruct v; rewrite ?lookup_insert_eq; reflexivity.
  - apply bool_decide_eq_false in E.
    destruct (lookup_field k d); try reflexivity.
    destruct v; rewrite ?lookup_insert_ne by exact E; reflexivity.
Qed.

Lemma matches_key_filter (d : doc) (r : gmap string jsval) :
  matches (key_filter d) r = true <->
  r !! "shop" = Some (lookup_field "shop" d) /\
  r !! "shopifyId" = Some (lookup_field "shopifyId" d).
Proof.
  unfold key_filter, matches. simpl.
  rewrite !andb_true_iff, !bool_decide_eq_true. tauto.
Qed.



Lemma find_none_filter {A} (p : A -> bool) (l : list A) :
  List.find p l = None -> List.filter p l = [].
Proof.
  induction l as [|y l IH]; [reflexivity|]. simpl.
  destruct (p y); [discriminate|]. exact IH.
Qed.

Lemma find_none_forallb {A} (p : A -> bool) (l : list A) :
  List.find p l = None -> forallb (fun y => negb (p y)) l = true.
Proof.
  induction l as [|y l IH]; [reflexivity|]. simpl.
  destruct (p y); [discriminate|]. exact IH.
Qed.




Lemma find_app_skip {A} (p : A -> bool) (pre l : list A) :
  forallb (fun y => negb (p y)) pre = true ->
  List.find p (pre ++ l) = List.find p l.
Proof.
  induction pre as [|y pre IH]; [reflexivity|]. simpl.
  intros H. apply andb_true_iff in H as [Hy H]. apply negb_true_iff in Hy.
  rewrite Hy. apply IH, H.
Qed.

Lemma collection_set_collection Model c w :
  collection Model (set_collection Model c w) = c.
Proof. destruct Model; reflexivity. Qed.



Ltac mapper_result H :=
  repeat match type of H with
         | obind ?x _ = Ok _ =>
             let E := fresh "E" in
             destruct x eqn:E; cbn [obind] in H; [|discriminate H]
         end;
  injection H as <-.

(** Every document a mapper returns has distinct field names and carries
    the tenant and the external id as strings: it is [keyed], and its upsert
    filter is the pair (shop, shopifyId). *)
Lemma mapped_documents_keyed (raw : jsval) (shopId : string) (d : doc) :
  map_customer raw shopId = Ok d \/ map_order raw shopId = Ok d \/
  map_product raw shopId = Ok d ->
  keyed d /\
  exists id, key_filter d = [("shop", JStr shopId); ("shopifyId", JStr id)].
Proof.
  intros [H|[H|H]];
    [unfold map_customer in H|unfold map_order in H|unfold map_product in H];
    mapper_result H;
    (split; [split; [apply (bool_decide_unpack _); reflexivity
                    |split; discriminate]
            |eexists; reflexivity]).
Qed.










(** ** Paginator *)





(** ** Scheduler *)

Lemma others_kept_refl id l : others_kept id l l.
Proof. induction l; constructor; auto. Qed.

Lemma others_kept_trans id l1 l2 l3 :
  others_kept id l1 l2 -> others_kept id l2 l3 -> others_kept id l1 l3.
Proof.
  intros H12. revert l3. induction H12 as [|t1 t2 l1 l2 [Hid H] _ IH]; intros l3 H23.
  - inversion H23. constructor.
  - inversion H23 as [|t2' t3 l2' l3' [Hid' H'] Hrest]; subst. constructor.
    + split; [congruence|]. intros Hne. rewrite H', H; congruence.
    + apply IH, Hrest.
Qed.

Lemma others_kept_ids id l l' :
  others_kept id l l' -> map shop_id l' = map shop_id l.
Proof. induction 1 as [|t t' l l' [Hid _] _ IH]; simpl; congruence. Qed.

Lemma others_kept_find id id' l l' :
  others_kept id l l' -> id' <> id ->
  List.find (fun t => bool_decide (shop_id t = id')) l' =
  List.find (fun t => bool_decide (shop_id t = id')) l.
Proof.
  intros H Hne. induction H as [|t t' l l' [Hid Hk] _ IH]; [reflexivity|].
  simpl. rewrite Hid. destruct (bool_decide (shop_id t = id')) eqn:E; [|exact IH].
  apply bool_decide_eq_true in E. rewrite Hk; congruence.
Qed.

Lemma touches_of_preserves {A} id (m : M A) : preserves shops m -> touches id m.
Proof. intros H w. rewrite H. apply others_kept_refl. Qed.

Lemma touches_bind {A B} id (m : M A) (f : A -> M B) :
  touches id m -> (forall a, touches id (f a)) -> touches id (bind m f).
Proof.
  intros Hm Hf w. unfold bind. specialize (Hm w).
  destruct (m w) as [w' [a|e|]]; simpl in *; [|assumption..].
  eapply others_kept_trans; [exact Hm | apply Hf].
Qed.

Lemma touches_try_catch {A} id (m : M A) (h : exn -> M A) :
  touches id m -> (forall e, touches id (h e)) -> touches id (try_catch m h).
Proof.
  intros Hm Hh w. unfold try_catch. specialize (Hm w).
  destruct (m w) as [w' [a|e|]]; simpl in *; [assumption| |assumption].
  eapply others_kept_trans; [exact Hm | apply Hh].
Qed.

Lemma touches_save s : touches (shop_id s) (save s).
Proof.
  intros w. unfold save, modify. simpl.
  induction (shops w) as [|t l IH]; constructor; [|exact IH].
  destruct (bool_decide (shop_id t = shop_id s)) eqn:E.
  - apply bool_decide_eq_true in E. split; [congruence|]. intros Hne. congruence.
  - split; [reflexivity|]. reflexivity.
Qed.

Lemma shops_set_shops l w : shops (set_shops l w) = l.
Proof. reflexivity. Qed.

Lemma in_memory_id s : shop_id (in_memory s) = shop_id s.
Proof.
  unfold in_memory. destruct (normalizeShopDomain _); [|reflexivity].
  destruct (bool_decide _); reflexivity.
Qed.


Lemma touches_verify id s : touches id (verifyShopCredentials s).
Proof.
  apply touches_of_preserves, preserves_verify. apply shops_set_requests.
Qed.

Lemma touches_sync id fuel s rs : touches id (syncShopResources fuel s rs).
Proof.
  apply touches_of_preserves, preserves_sync;
    [apply shops_set_requests | apply shops_set_collection].
Qed.

Lemma touches_markShopError s err : touches (shop_id s) (markShopError s err).
Proof.
  unfold markShopError. apply touches_bind.
  - apply touches_of_preserves, preserves_read.
  - intros t. apply (touches_save (mkShop (shop_id s) _ _ _ _ _ _ _)).
Qed.

Lemma touches_process_shop fuel s : touches (shop_id s) (process_shop fuel s).
Proof.
  unfold process_shop. apply touches_try_catch.
  - unfold sync_attempt.
    destruct (normalizeShopDomain _) as [nd|];
      [|apply touches_of_preserves, preserves_raise].
    apply touches_bind.
    { destruct (bool_decide _).
      - apply touches_of_preserves, preserves_ret.
      - apply (touches_save (with_domain nd s)). }
    intros _. apply touches_bind; [apply touches_verify|].
    intros _. apply touches_bind; [apply touches_sync|].
    intros _. apply touches_bind; [apply touches_of_preserves, preserves_read|].
    intros t. destruct (bool_decide _).
    + apply (touches_save (with_lastSyncedAt t s)).
    + apply (touches_save (with_lastSyncedAt t (with_domain nd s))).
  - intros e. unfold on_failure. destruct (pauses e).
    + rewrite <- in_memory_id. apply touches_markShopError.
    + apply touches_of_preserves, preserves_ret.
Qed.

Lemma for_each_stored fuel l id w :
  Forall (fun t => shop_id t <> id) l ->
  stored id (fst (for_each fuel l w)) = stored id w.
Proof.
  revert w. induction l as [|t l IH]; intros w Hl; [reflexivity|].
  apply Forall_cons in Hl as [Ht Hl]. simpl. unfold bind.
  pose proof (touches_process_shop fuel t w) as Hk.
  destruct (process_shop fuel t w) as [w' [a|e|]]; simpl in *.
  - rewrite (IH w' Hl). unfold stored. apply (others_kept_find _ _ _ _ Hk). congruence.
  - unfold stored. apply (others_kept_find _ _ _ _ Hk). congruence.
  - unfold stored. apply (others_kept_find _ _ _ _ Hk). congruence.
Qed.

Lemma for_each_ids fuel l w :
  map shop_id (shops (fst (for_each fuel l w))) = map shop_id (shops w).
Proof.
  revert w. induction l as [|t l IH]; intros w; [reflexivity|].
  simpl. unfold bind.
  pose proof (touches_process_shop fuel t w) as Hk.
  apply others_kept_ids in Hk.
  destruct (process_shop fuel t w) as [w' [a|e|]]; simpl in *; [|assumption..].
  rewrite IH. exact Hk.
Qed.

Lemma for_each_app fuel l1 l2 w :
  for_each fuel (l1 ++ l2) w =
  match for_each fuel l1 w with
  | (w', Ret _) => for_each fuel l2 w'
  | r => r
  end.
Proof.
  revert w. induction l1 as [|t l1 IH]; intros w; [reflexivity|].
  simpl. unfold bind. destruct (process_shop fuel t w) as [w' [a|e|]]; auto.
Qed.




Lemma find_replaced (s' : shop) (l : list shop) :
  shop_id s' ∈ map shop_id l ->
  List.find (fun t => bool_decide (shop_id t = shop_id s'))
    (map (fun t => if bool_decide (shop_id t = shop_id s') then s' else t) l) = Some s'.
Proof.
  induction l as [|t l IH]; simpl.
  - intros H. inversion H.
  - intros H. destruct (bool_decide (shop_id t = shop_id s')) eqn:E.
    + rewrite bool_decide_eq_true_2 by reflexivity. reflexivity.
    + rewrite E. apply IH. apply elem_of_cons in H as [H|H]; [|exact H].
      apply bool_decide_eq_false in E. congruence.
Qed.

Lemma find_unique (s : shop) (l : list shop) :
  NoDup (map shop_id l) -> s ∈ l ->
  List.find (fun t => bool_decide (shop_id t = shop_id s)) l = Some s.
Proof.
  induction l as [|t l IH]; simpl; intros Hnd Hin; [inversion Hin|].
  apply NoDup_cons in Hnd as [Ht Hnd].
  apply elem_of_cons in Hin as [->|Hin].
  - rewrite bool_decide_eq_true_2 by reflexivity. reflexivity.
  - destruct (bool_decide (shop_id t = shop_id s)) eqn:E; [|apply IH; assumption].
    apply bool_decide_eq_true in E. exfalso. apply Ht. rewrite E.
    apply (list_elem_of_fmap_2 shop_id), Hin.
Qed.

Lemma elem_of_filter_map {A B} (f : A -> B) (p : A -> bool) (l : list A) (y : B) :
  y ∈ map f (List.filter p l) -> y ∈ map f l.
Proof.
  induction l as [|x l IH]; simpl; [auto|].
  destruct (p x); simpl; rewrite ?elem_of_cons; intuition.
Qed.

Lemma NoDup_map_filter {A B} (f : A -> B) (p : A -> bool) (l : list A) :
  NoDup (map f l) -> NoDup (map f (List.filter p l)).
Proof.
  induction l as [|x l IH]; simpl; [auto|]. intros H.
  apply NoDup_cons in H as [Hx H]. destruct (p x); simpl; [|auto].
  apply NoDup_cons. split; [|auto]. intros Hin. apply Hx.
  eapply elem_of_filter_map, Hin.
Qed.




(** ** Resource Mapper *)

Lemma toNumber_primitive v :
  primitive v = true -> exists out, toNumber v = Ok out /\ degrades v out.
Proof.
  unfold degrades, money_absent.
  destruct v as [| |b|n|s|l|fs]; try discriminate; intros _.
  - exists JUndefined. split; [reflexivity|]. tauto.
  - exists JUndefined. split; [reflexivity|]. tauto.
  - destruct b; eexists; (split; [reflexivity|]); simpl;
      (split; [discriminate|]); intros [H|[H|[H|H]]]; discriminate.
  - simpl. destruct n as [| |]; eexists; (split; [reflexivity|]); simpl.
    + tauto.
    + split; [discriminate|]. intros [H|[H|[H|H]]]; discriminate.
    + split; [discriminate|]. intros [H|[H|[H|H]]]; discriminate.
  - destruct s as [|c s]; [exists JUndefined; split; [reflexivity|tauto]|].
    simpl. destruct (string_to_number (String c s)) eqn:E;
      eexists; (split; [reflexivity|]); simpl.
    + tauto.
    + split; [discriminate|]. intros [H|[H|[H|H]]]; discriminate.
    + split; [discriminate|]. intros [H|[H|[H|H]]]; discriminate.
Qed.

Lemma to_string_primitive v :
  primitive v = true -> exists s, to_string v = Ok s.
Proof.
  destruct v as [| |[]|n|s|l|fs]; try discriminate; intros _; eexists; reflexivity.
Qed.

Lemma string_if_truthy_primitive v :
  primitive v = true -> exists out, string_if_truthy v = Ok out.
Proof.
  intros H. unfold string_if_truthy. destruct (truthy v); [|eexists; reflexivity].
  destruct (to_string_primitive v H) as [s ->]. eexists. reflexivity.
Qed.

Lemma map_outcome_trim l :
  forallb is_string l = true -> exists ts, map_outcome call_trim l = Ok ts.
Proof.
  induction l as [|x l IH]; simpl; [eexists; reflexivity|].
  intros H. apply andb_true_iff in H as [Hx Hl].
  destruct x; try discriminate. destruct (IH Hl) as [ts ->].
  eexists. reflexivity.
Qed.

Lemma normalizeTags_shape v :
  tags_shape v = true -> exists l, normalizeTags v = Ok l.
Proof.
  intros H. unfold normalizeTags. destruct (negb (truthy v)); [eexists; reflexivity|].
  destruct v as [| |b|n|s|l|fs]; try discriminate; try (eexists; reflexivity).
  - destruct b; eexists; reflexivity.
  - destruct (map_outcome_trim l H) as [ts ->]. eexists. reflexivity.
Qed.

Lemma map_items_shape (shape : jsval -> bool) (f : jsval -> outcome jsval)
    (rule : jsval -> jsval -> Prop) (v : jsval) :
  (forall x, shape x = true -> exists y, f x = Ok y /\ rule x y) ->
  items_shape shape v = true ->
  exists out, map_items v f = Ok (JArr out) /\ Forall2 rule (items v) out.
Proof.
  intros Hf Hv. unfold map_items.
  destruct v as [| |b|n|s|l|fs]; unfold items_shape in Hv;
    try (rewrite Hv; exists []; split; [reflexivity|constructor]).
  cbn [truthy negb items].
  induction l as [|x l IH]; cbn [map_outcome obind].
  - exists []. split; [reflexivity|constructor].
  - cbn [forallb] in Hv. apply andb_true_iff in Hv as [Hx Hl].
    destruct (Hf x Hx) as (y & -> & Hy). cbn [obind].
    destruct (IH Hl) as (out & Hout & Hall).
    destruct (map_outcome f l) as [ys|e]; [|discriminate].
    cbn [obind] in Hout |- *. injection Hout as <-.
    exists (y :: ys). split; [reflexivity|]. constructor; assumption.
Qed.

Lemma map_line_item_shape li :
  line_item_shape li = true ->
  exists out, map_line_item li = Ok out /\ line_item_rule li out.
Proof.
  destruct li as [| |b|n|s|l|fs]; try discriminate. unfold line_item_shape, field.
  rewrite !andb_true_iff. intros [[[Hid Hp] Hv] Hprice].
  unfold map_line_item. cbn [get obind].
  destruct (to_string_primitive _ Hid) as [sid ->]. cbn [obind].
  destruct (string_if_truthy_primitive _ Hp) as [p ->]. cbn [obind].
  destruct (string_if_truthy_primitive _ Hv) as [q ->]. cbn [obind].
  destruct (toNumber_primitive _ Hprice) as (out & -> & Hout). cbn [obind].
  eexists. split; [reflexivity|]. split; [exact Hout|reflexivity].
Qed.

Lemma map_variant_shape v :
  variant_shape v = true ->
  exists out, map_variant v = Ok out /\ variant_rule v out.
Proof.
  destruct v as [| |b|n|s|l|fs]; try discriminate. unfold variant_shape, field.
  rewrite !andb_true_iff. intros [Hid Hprice].
  unfold map_variant. cbn [get obind].
  destruct (to_string_primitive _ Hid) as [sid ->]. cbn [obind].
  destruct (toNumber_primitive _ Hprice) as (out & -> & Hout). cbn [obind].
  eexists. split; [reflexivity|]. split; [exact Hout|reflexivity].
Qed.

Lemma map_order_customer_shape c :
  embedded_customer_shape c = true -> exists out, map_order_customer c = Ok out.
Proof.
  intros H. unfold map_order_customer.
  destruct c as [| |b|n|s|l|fs]; try (eexists; reflexivity).
  - destruct (truthy (JBool b)); eexists; reflexivity.
  - destruct (truthy (JNum n)); eexists; reflexivity.
  - destruct (truthy (JStr s)); eexists; reflexivity.
  - unfold embedded_customer_shape, field in H. cbn [truthy get obind].
    destruct (to_string_primitive _ H) as [sid ->]. eexists. reflexivity.
Qed.

(** C4, as the code has it: on a record that is an object whose ids and
    monetary fields are scalars or missing, whose tags are missing, a scalar
    or an array of strings, and whose line items or variants are missing or
    an array of such objects, each mapper returns a document.  A monetary
    field ([total_spent], [total_price], [subtotal_price],
    [total_discounts], the [price] of a line item or variant) is absent in
    the document exactly when the input is missing, null, the empty string
    or turned into NaN by [Number]; the quantity fields ([quantity],
    [inventory_quantity]) are copied as they arrive. *)
Theorem mappers_on_shaped_records (raw : jsval) (shopId : string) :
  (customer_shape raw = true ->
   exists d, map_customer raw shopId = Ok d /\
     degrades (field "total_spent" raw) (lookup_field "totalSpent" d)) /\
  (order_shape raw = true ->
   exists d out, map_order raw shopId = Ok d /\
     degrades (field "total_price" raw) (lookup_field "totalPrice" d) /\
     degrades (field "subtotal_price" raw) (lookup_field "subtotalPrice" d) /\
     degrades (field "total_discounts" raw) (lookup_field "totalDiscounts" d) /\
     lookup_field "lineItems" d = JArr out /\
     Forall2 line_item_rule (items (field "line_items" raw)) out) /\
  (product_shape raw = true ->
   exists d out, map_product raw shopId = Ok d /\
     lookup_field "variants" d = JArr out /\
     Forall2 variant_rule (items (field "variants" raw)) out).
Proof.
  split; [|split].
  - destruct raw as [| |b|n|s|l|fs]; try discriminate.
    unfold customer_shape, field. rewrite !andb_true_iff. intros [[Hid Ht] Hm].
    unfold map_customer. cbn [get obind].
    destruct (to_string_primitive _ Hid) as [sid ->]. cbn [obind].
    destruct (normalizeTags_shape _ Ht) as [ts ->]. cbn [obind].
    destruct (toNumber_primitive _ Hm) as (out & -> & Hout). cbn [obind].
    destruct (get_opt _ "country_code") as [country|e] eqn:Hc.
    2:{ destruct (lookup_field "default_address" fs); discriminate. }
    cbn [obind]. eexists. split; [reflexivity|]. exact Hout.
  - destruct raw as [| |b|n|s|l|fs]; try discriminate.
    unfold order_shape, field. rewrite !andb_true_iff.
    intros [[[[[[Hid H1] H2] H3] Ht] Hc] Hl].
    unfold map_order. cbn [get obind].
    destruct (to_string_primitive _ Hid) as [sid ->]. cbn [obind].
    destruct (toNumber_primitive _ H1) as (o1 & -> & Ho1). cbn [obind].
    destruct (toNumber_primitive _ H2) as (o2 & -> & Ho2). cbn [obind].
    destruct (toNumber_primitive _ H3) as (o3 & -> & Ho3). cbn [obind].
    destruct (normalizeTags_shape _ Ht) as [ts ->]. cbn [obind].
    destruct (map_order_customer_shape _ Hc) as [oc ->]. cbn [obind].
    destruct (map_items_shape _ _ _ _ map_line_item_shape Hl) as (out & -> & Hall).
    cbn [obind]. eexists _, out. split; [reflexivity|]. auto.
  - destruct raw as [| |b|n|s|l|fs]; try discriminate.
    unfold product_shape, field. rewrite !andb_true_iff. intros [[Hid Ht] Hv].
    unfold map_product. cbn [get obind].
    destruct (to_string_primitive _ Hid) as [sid ->]. cbn [obind].
    destruct (normalizeTags_shape _ Ht) as [ts ->]. cbn [obind].
    destruct (map_items_shape _ _ _ _ map_variant_shape Hv) as (out & -> & Hall).
    cbn [obind]. eexists _, out. split; [reflexivity|]. auto.
Qed.

Lemma mappers_on_shaped_records_witness :
  exists d out,
    map_order Fixture.order_record (shop_id Fixture.acme) = Ok d /\
    lookup_field "lineItems" d = JArr out /\
    Forall2 line_item_rule (items (field "line_items" Fixture.order_record)) out.
Proof.
  destruct (mappers_on_shaped_records Fixture.order_record (shop_id Fixture.acme))
    as (_ & Horder & _).
  destruct Horder as (d & out & Hd & _ & _ & _ & Hl & Hall);
    [vm_compute; reflexivity|].
  exists d, out. auto.
Defined.

(** C4 as stated fails for the quantity fields: a line item's empty
    [quantity] and a variant's non-numeric [inventory_quantity] are mapped
    to themselves, not to an absent value, next to prices that are
    absent. *)
Lemma quantities_are_copied :
  exists d item p variant,
    map_order Fixture.untidy_order (shop_id Fixture.acme) = Ok d /\
    lookup_field "lineItems" d = JArr [item] /\
    field "price" item = JUndefined /\
    field "quantity" item = JStr EmptyString /\
    map_product Fixture.untidy_product (shop_id Fixture.acme) = Ok p /\
    lookup_field "variants" p = JArr [variant] /\
    field "price" variant = JUndefined /\
    field "inventoryQuantity" variant = JStr "n/a".
Proof. do 4 eexists. repeat split; vm_compute; reflexivity. Qed.

(** Inputs outside the shapes above: an array of tags that holds a number
    makes the mapper throw, and a price of blanks is mapped to zero. *)
Lemma mapper_edge_inputs :
  (exists e, map_customer (JObj [("id", JNum (Dec 7 0)); ("tags", JArr [JNum (Dec 5 0)])])
               (shop_id Fixture.acme) = Throw e) /\
  (exists e, map_order (JObj [("id", JNum (Dec 7 0)); ("line_items", JArr [JNull])])
               (shop_id Fixture.acme) = Throw e) /\
  toNumber (JStr " ") = Ok (JNum (Dec 0 0)).
Proof. repeat split; try eexists; vm_compute; reflexivity. Qed.

(** ** Sync Orchestrator *)

(** A kind that is not configured and not a member of [Object.prototype]
    gets its error entry, and nothing else happens. *)
Lemma sync_one_unsupported fuel s resource summary w :
  resourceConfig resource = Missing ->
  sync_one fuel s resource summary w =
    (w, Ret (<[resource := UnsupportedResource]> summary)).
Proof.
  intros H. unfold sync_one. rewrite H. unfold summary_set.
  destruct (bool_decide (resource = "__proto__")) eqn:E; [|reflexivity].
  apply bool_decide_eq_true in E. subst resource. discriminate H.
Qed.

Lemma agree_summary_set r e a b :
  agree a b -> agree (summary_set r e a) (summary_set r e b).
Proof.
  intros H k Hk. unfold summary_set. destruct (bool_decide _); [apply H, Hk|].
  destruct (decide (r = k)) as [->|Hne].
  - rewrite !lookup_insert_eq. reflexivity.
  - rewrite !lookup_insert_ne by exact Hne. apply H, Hk.
Qed.

(** The effects of one kind and its entry do not depend on the summary
    built so far. *)
Lemma sync_one_agree fuel s r a b w :
  agree a b ->
  fst (sync_one fuel s r a w) = fst (sync_one fuel s r b w) /\
  results_agree (snd (sync_one fuel s r a w)) (snd (sync_one fuel s r b w)).
Proof.
  intros H. unfold sync_one. destruct (resourceConfig r) as [cfg| |].
  - unfold bind.
    destruct (fetchPaginatedResource _ _ _ _ _ w) as [w1 [raw|e|]];
      cbv beta iota; cbn [fst snd results_agree]; auto.
    destruct (lift _ w1) as [w2 [docs|e|]];
      cbv beta iota; cbn [fst snd results_agree]; auto.
    destruct (upsertDocuments _ docs w2) as [w3 [saved|e|]];
      cbv beta iota; cbn [fst snd results_agree ret]; auto.
    split; [reflexivity|]. apply agree_summary_set, H.
  - unfold bind.
    destruct (fetchPaginatedResource _ _ _ _ _ w) as [w1 [raw|e|]];
      cbv beta iota; cbn [fst snd results_agree]; auto.
    destruct raw; cbn [fst snd results_agree ret raise]; auto.
    split; [reflexivity|]. apply agree_summary_set, H.
  - cbn [fst snd results_agree ret]. split; [reflexivity|].
    apply agree_summary_set, H.
Qed.

Lemma sync_loop_agree fuel s resources :
  forall a b w,
    agree a b ->
    fst (sync_loop fuel s resources a w)
      = fst (sync_loop fuel s (List.filter found resources) b w) /\
    results_agree (snd (sync_loop fuel s resources a w))
      (snd (sync_loop fuel s (List.filter found resources) b w)).
Proof.
  induction resources as [|r rest IH]; intros a b w H; [split; [reflexivity|exact H]|].
  cbn [List.filter]. destruct (found r) eqn:Hf.
  - cbn [sync_loop]. unfold bind.
    destruct (sync_one_agree fuel s r a b w H) as [Hw Hres].
    destruct (sync_one fuel s r a w) as [w1 [a'|e|]],
             (sync_one fuel s r b w) as [w2 [b'|e'|]];
      simpl in Hw, Hres; subst; try contradiction; auto;
      split; reflexivity.
  - assert (resourceConfig r = Missing) as Hr
      by (unfold found in Hf; destruct (resourceConfig r); congruence).
    cbn [sync_loop]. unfold bind at 1 2.
    rewrite (sync_one_unsupported fuel s r a w Hr). apply IH.
    intros k Hk. rewrite lookup_insert_ne; [apply H, Hk|].
    intros ->. congruence.
Qed.

(** Where the orchestrator does what C6 says: kinds that the lookup does
    not find change nothing but their own entries.  The run with them and
    the run without them leave the same world and end alike, with the same
    entries for all other kinds. *)
Lemma sync_unaffected_by_unsupported fuel s resources w :
  fst (syncShopResources fuel s resources w)
    = fst (syncShopResources fuel s (List.filter found resources) w) /\
  results_agree (snd (syncShopResources fuel s resources w))
    (snd (syncShopResources fuel s (List.filter found resources) w)).
Proof. apply sync_loop_agree. intros k _. reflexivity. Qed.

Lemma sync_one_entry fuel s r a w w' a' :
  sync_one fuel s r a w = (w', Ret a') -> exists e, a' = summary_set r e a.
Proof.
  unfold sync_one. destruct (resourceConfig r) as [cfg| |].
  - unfold bind at 1.
    destruct (fetchPaginatedResource _ _ _ _ _ w) as [w1 [raw|e|]]; try discriminate.
    unfold bind at 1. destruct (lift _ w1) as [w2 [docs|e|]]; try discriminate.
    unfold bind. destruct (upsertDocuments _ docs w2) as [w3 [saved|e|]];
      try discriminate.
    intros [= _ <-]. eexists. reflexivity.
  - unfold bind.
    destruct (fetchPaginatedResource _ _ _ _ _ w) as [w1 [raw|e|]]; try discriminate.
    destruct raw; [|discriminate]. intros [= _ <-]. eexists. reflexivity.
  - intros [= _ <-]. eexists. reflexivity.
Qed.

(** And every such kind has its error entry in a summary that is
    returned. *)
Lemma sync_unsupported_entries fuel s resources w w' summary :
  syncShopResources fuel s resources w = (w', Ret summary) ->
  forall k, k ∈ resources -> resourceConfig k = Missing ->
            summary !! k = Some UnsupportedResource.
Proof.
  unfold syncShopResources.
  assert (forall a w,
            sync_loop fuel s resources a w = (w', Ret summary) ->
            forall k, resourceConfig k = Missing ->
                      (k ∈ resources \/ a !! k = Some UnsupportedResource) ->
                      summary !! k = Some UnsupportedResource) as H.
  { induction resources as [|r rest IH]; intros a w0 Hrun k Hk Hin.
    - injection Hrun as _ <-. destruct Hin as [Hin|Hin]; [inversion Hin|exact Hin].
    - cbn [sync_loop] in Hrun. unfold bind in Hrun.
      destruct (sync_one fuel s r a w0) as [w1 [a'|e|]] eqn:Hone; try discriminate.
      apply (IH a' w1 Hrun k Hk).
      destruct (decide (k = r)) as [->|Hne].
      + right. rewrite (sync_one_unsupported fuel s r a w0 Hk) in Hone.
        injection Hone as _ <-. apply lookup_insert_eq.
      + destruct Hin as [Hin|Hin].
        * left. apply elem_of_cons in Hin as [?|?]; [contradiction|assumption].
        * right. destruct (sync_one_entry _ _ _ _ _ _ _ Hone) as [e ->].
          unfold summary_set. destruct (bool_decide _); [exact Hin|].
          rewrite lookup_insert_ne by congruence. exact Hin. }
  intros Hrun k Hin Hk. apply (H ∅ w Hrun k Hk). left. exact Hin.
Qed.

(** C6: a requested kind that names a member of [Object.prototype] is not
    reported as unsupported.  For the kinds [orders] and [constructor] the
    lookup [resourceConfig[resource]] finds the inherited member, the
    orchestrator requests [undefined.json], and with an upstream that
    answers 404 to it the whole run fails: there is no summary, hence no
    entry for [orders] either. *)
Theorem sync_inherited_kind_not_reported :
  let r := syncShopResources 5 Fixture.acme ["orders"; "constructor"]
             Fixture.world0 in
  resourceConfig "constructor" = Inherited /\
  map req_path (requests (fst r)) = ["orders.json"; "undefined.json"] /\
  exists e, snd r = Raise e /\ ex_status e = Some 404.
Proof.
  cbv zeta. split; [reflexivity|]. split; [vm_compute; reflexivity|].
  eexists. split; vm_compute; reflexivity.
Qed.

(** With [bogus] in place of [constructor] every kind gets its entry. *)
Lemma sync_orders_and_bogus :
  snd (syncShopResources 5 Fixture.acme ["orders"; "bogus"] Fixture.world0) =
    Ret (<["bogus" := UnsupportedResource]> (<["orders" := Counts 1 1]> ∅)).
Proof. vm_compute. reflexivity. Qed.

(** * Further properties *)

(** ** Domain normalizer: accepted inputs *)

Import NormalizerSpec.

(** ** Strings: trimming, spans and letter case *)

Lemma drop_while_app_stop p (u : list ascii) c v :
  p c = false -> drop_while p (u ++ c :: v) = drop_while p u ++ c :: v.
Proof.
  intros Hc. induction u as [|x u IH]; simpl.
  - rewrite Hc. reflexivity.
  - destruct (p x); [exact IH|reflexivity].
Qed.

Lemma drop_while_all p (u : list ascii) :
  forallb p u = true -> drop_while p u = [].
Proof.
  induction u as [|x u IH]; [reflexivity|]. simpl.
  destruct (p x); [exact IH|discriminate].
Qed.

(** Trimming removes the padding around a core that begins and ends with
    characters that stay. *)
Lemma strip_pad p (pad1 pad2 mid : list ascii) (x y : ascii) :
  forallb p pad1 = true -> forallb p pad2 = true -> p x = false -> p y = false ->
  strip p (pad1 ++ x :: mid ++ y :: pad2) = x :: mid ++ [y].
Proof.
  intros H1 H2 Hx Hy. unfold strip.
  rewrite (drop_while_app_stop p pad1 x _ Hx), (drop_while_all p pad1 H1). cbn [app].
  replace (rev (x :: mid ++ y :: pad2)) with (rev pad2 ++ y :: rev (x :: mid)).
  2:{ change (x :: mid ++ y :: pad2) with ((x :: mid) ++ y :: pad2).
      rewrite rev_app_distr. cbn [rev]. rewrite <- app_assoc. reflexivity. }
  rewrite (drop_while_app_stop p (rev pad2) y _ Hy).
  rewrite (drop_while_all p (rev pad2)) by (apply forallb_rev, H2).
  cbn [app rev]. rewrite rev_app_distr, rev_involutive. reflexivity.
Qed.

Lemma strip_pad_one p (pad1 pad2 : list ascii) (x : ascii) :
  forallb p pad1 = true -> forallb p pad2 = true -> p x = false ->
  strip p (pad1 ++ x :: pad2) = [x].
Proof.
  intros H1 H2 Hx. unfold strip.
  rewrite (drop_while_app_stop p pad1 x _ Hx), (drop_while_all p pad1 H1). cbn [app].
  cbn [rev]. rewrite (drop_while_app_stop p (rev pad2) x _ Hx).
  rewrite (drop_while_all p (rev pad2)) by (apply forallb_rev, H2). reflexivity.
Qed.

(** A list that is not empty has a first and a last element. *)
Lemma ends_of {A} (l : list A) :
  l <> [] -> (exists x, l = [x]) \/ exists x mid y, l = x :: mid ++ [y].
Proof.
  intros Hne. destruct l as [|x l]; [contradiction|].
  destruct (rev l) as [|y m] eqn:E.
  - left. exists x. apply (f_equal (@rev A)) in E. rewrite rev_involutive in E.
    rewrite E. reflexivity.
  - right. exists x, (rev m), y. apply (f_equal (@rev A)) in E.
    rewrite rev_involutive in E. rewrite E. reflexivity.
Qed.

Lemma strip_core p (pad1 pad2 core : list ascii) :
  forallb p pad1 = true -> forallb p pad2 = true ->
  forallb (fun c => negb (p c)) core = true ->
  strip p (pad1 ++ core ++ pad2) = core.
Proof.
  intros H1 H2 Hc. destruct core as [|x0 core0] eqn:Ecore.
  - cbn [app]. unfold strip.
    assert (forallb p (pad1 ++ pad2) = true) as H
      by (rewrite forallb_app, H1, H2; reflexivity).
    rewrite (drop_while_all p _ H). reflexivity.
  - destruct (ends_of (x0 :: core0)) as [[x E]|(x & mid & y & E)]; [discriminate| |];
      rewrite E in *.
    + cbn [app]. simpl in Hc. rewrite andb_true_r in Hc. apply negb_true_iff in Hc.
      apply strip_pad_one; assumption.
    + cbn [forallb] in Hc. rewrite forallb_app in Hc. cbn [forallb] in Hc.
      apply andb_true_iff in Hc as [Hx Hc]. apply andb_true_iff in Hc as [_ Hy].
      rewrite andb_true_r in Hy. apply negb_true_iff in Hx, Hy.
      cbn [app]. rewrite <- app_assoc. cbn [app]. apply strip_pad; assumption.
Qed.

Lemma span_app_all p (a b : list ascii) :
  forallb p a = true ->
  URL.span p (a ++ b) = (a ++ fst (URL.span p b), snd (URL.span p b)).
Proof.
  induction a as [|x a IH]; intros H.
  - cbn [app]. destruct (URL.span p b); reflexivity.
  - cbn [forallb] in H. apply andb_true_iff in H as [Hx H].
    cbn [app URL.span]. rewrite Hx, (IH H). reflexivity.
Qed.

Lemma span_stop p (c : ascii) (b : list ascii) :
  p c = false -> URL.span p (c :: b) = ([], c :: b).
Proof. intros H. cbn [URL.span]. rewrite H. reflexivity. Qed.

Lemma chars_toLowerCase (s : string) : chars (toLowerCase s) = map lower_char (chars s).
Proof.
  induction s as [|c s IH]; [reflexivity|]. cbn. f_equal. exact IH.
Qed.

Lemma toLowerCase_str (l : list ascii) : toLowerCase (str l) = str (map lower_char l).
Proof.
  rewrite <- (str_chars (toLowerCase (str l))), chars_toLowerCase, chars_str. reflexivity.
Qed.

Lemma host_char_facts c :
  host_char c = true ->
  is_js_space c = false /\ URL.is_c0_or_space c = false /\
  URL.is_tab_or_newline c = false /\ URL.is_char 35 c = false /\
  URL.is_char 63 c = false /\ URL.is_char 64 c = false /\
  URL.is_char 58 c = false /\ URL.is_char 37 c = false /\
  URL.is_char 91 c = false /\ URL.is_char 93 c = false /\
  URL.is_slash c = false /\
  URL.authority_end true c = false /\ (127 <? code c) = false /\
  plain_char (URL.ascii_lower c) = true /\ lower_char c = URL.ascii_lower c.
Proof.
  destruct c as [[] [] [] [] [] [] [] []]; intros H; try discriminate H;
    repeat split; reflexivity.
Qed.

Lemma host_forall (q : ascii -> bool) (l : list ascii) :
  (forall c, host_char c = true -> q c = false) ->
  forallb host_char l = true -> forallb (fun c => negb (q c)) l = true.
Proof.
  intros Hq Hl. apply forallb_forall. intros c Hc. rewrite forallb_forall in Hl.
  rewrite (Hq c (Hl c Hc)). reflexivity.
Qed.

Ltac host_fact :=
  let c := fresh "c" in
  let Hc := fresh "Hc" in
  intros c Hc; apply host_char_facts in Hc; cbv beta; tauto.

Lemma lower_host_plain (l : list ascii) :
  forallb host_char l = true -> forallb plain_char (map URL.ascii_lower l) = true.
Proof.
  intros H. rewrite forallb_forall in H |- *. intros c Hc.
  apply in_map_iff in Hc as (x & <- & Hx). apply host_char_facts, H, Hx.
Qed.

Lemma lower_host_js (l : list ascii) :
  forallb host_char l = true -> map lower_char l = map URL.ascii_lower l.
Proof.
  intros H. apply map_ext_in. intros c Hc. rewrite forallb_forall in H.
  apply host_char_facts, H, Hc.
Qed.

Lemma plain_lower_fixed (l : list ascii) :
  forallb plain_char l = true -> map URL.ascii_lower l = l.
Proof.
  intros H. apply map_fixed, Forall_forall. intros x Hx. rewrite forallb_forall in H.
  apply plain_char_facts, H, list_elem_of_In, Hx.
Qed.

(** The host parser lowers a typed host name. *)
Lemma host_parse_typed l :
  l <> [] -> forallb host_char l = true ->
  URL.ends_in_number (map URL.ascii_lower l) = false ->
  URL.host_parse false l = Some (map URL.ascii_lower l).
Proof.
  intros Hne Hp He. destruct l as [|c r]; [contradiction|].
  unfold URL.host_parse.
  assert (URL.is_char 91 c = false) as ->.
  { simpl in Hp. apply andb_true_iff in Hp as [Hc _].
    apply host_char_facts in Hc. tauto. }
  rewrite (percent_decode_none (c :: r)) by (apply host_forall; [host_fact|exact Hp]).
  rewrite (existsb_none (fun c => 127 <? code c))
    by (apply host_forall; [host_fact|exact Hp]).
  rewrite (existsb_none URL.forbidden_domain).
  2:{ apply plain_forall; [plain_fact|apply lower_host_plain, Hp]. }
  rewrite He. reflexivity.
Qed.

Lemma span_fragment_head (rest : list ascii) :
  ends_authority rest = true ->
  ends_authority (fst (URL.span (fun c => negb (URL.is_char 35 c)) rest)) = true /\
  (forall c r, fst (URL.span (fun c => negb (URL.is_char 35 c)) rest) = c :: r ->
               URL.authority_end true c = true).
Proof.
  destruct rest as [|c r]; [split; [reflexivity|discriminate]|].
  cbn [ends_authority URL.span]. intros H.
  destruct (URL.is_char 35 c) eqn:E; cbn [negb].
  - split; [reflexivity|discriminate].
  - destruct (URL.span _ r) as [a b]. cbn [fst ends_authority]. rewrite E.
    rewrite orb_false_r in H |- *. split; [exact H|]. intros c' r' [= <- _]. exact H.
Qed.

Lemma parse_authority_host l rest :
  l <> [] -> forallb host_char l = true ->
  (rest = [] \/ exists c r, rest = c :: r /\ URL.authority_end true c = true) ->
  URL.parse_authority true (l ++ rest) = URL.host_parse false l.
Proof.
  intros Hne Hp Hrest. unfold URL.parse_authority.
  assert (fst (URL.span (fun c => negb (URL.authority_end true c)) (l ++ rest)) = l)
    as ->.
  { rewrite span_app_all by (apply host_forall; [host_fact|exact Hp]). cbn [fst].
    destruct Hrest as [->|(c & r & -> & Hc)].
    - cbn. apply app_nil_r.
    - rewrite span_stop by (rewrite Hc; reflexivity). cbn [fst]. apply app_nil_r. }
  rewrite (after_last_at_none l) by (apply host_forall; [host_fact|exact Hp]).
  rewrite (split_host_port_none l) by (apply host_forall; [host_fact|exact Hp]).
  cbn [rev app negb]. destruct l; [contradiction|reflexivity].
Qed.

(** [new URL] on an https URL text with a typed host name: the outcome is
    that of the host parser. *)
Lemma parse_https_host l rest :
  l <> [] -> forallb host_char l = true ->
  ends_authority rest = true ->
  forallb (fun c => negb (URL.is_c0_or_space c)) rest = true ->
  URL.parse (str (chars "https://" ++ l ++ rest)) =
    option_map (fun h => URL.mk "https" (str h) (query_after rest))
      (URL.host_parse false l).
Proof.
  intros Hne Hp Hra Hrs. unfold URL.parse. rewrite chars_str.
  assert (forallb (fun c => negb (URL.is_c0_or_space c)) (chars "https://" ++ l ++ rest)
          = true) as Hall.
  { rewrite !forallb_app. apply andb_true_iff; split; [reflexivity|].
    apply andb_true_iff; split; [|exact Hrs].
    apply host_forall; [host_fact|exact Hp]. }
  rewrite strip_none by exact Hall.
  rewrite filter_all.
  2:{ eapply forallb_impl_eq; [|exact Hall]. intros c Hc. cbv beta in *.
      apply negb_true_iff in Hc. apply negb_true_iff.
      unfold URL.is_c0_or_space, URL.is_tab_or_newline in *.
      apply N.leb_gt in Hc. repeat rewrite orb_false_iff. repeat split; apply N.eqb_neq; lia. }
  assert (URL.span URL.scheme_char (chars "https://" ++ l ++ rest)
          = (chars "https", chars "://" ++ l ++ rest)) as -> by reflexivity.
  change (chars "https://" ++ l ++ rest) with ("h"%char :: chars "ttps://" ++ l ++ rest).
  change (URL.is_alpha "h") with true. cbv iota.
  change (chars "://" ++ l ++ rest) with (":"%char :: chars "//" ++ l ++ rest).
  change (URL.is_char 58 ":") with true. cbv iota.
  change (bool_decide (str (map URL.ascii_lower (chars "https")) = "file")) with false.
  change (URL.special_not_file (str (map URL.ascii_lower (chars "https")))) with true.
  cbv iota.
  destruct (span_fragment_head rest Hra) as [Hb1 Hb2].
  set (pf := fun c => negb (URL.is_char 35 c)) in *.
  set (pq := fun c => negb (URL.is_char 63 c)).
  assert (URL.span pf (chars "//" ++ l ++ rest)
          = (chars "//" ++ l ++ fst (URL.span pf rest), snd (URL.span pf rest))) as ->.
  { rewrite app_assoc, span_app_all, <- app_assoc; [reflexivity|].
    rewrite forallb_app. apply andb_true_iff. split; [reflexivity|].
    apply host_forall; [host_fact|exact Hp]. }
  assert (URL.span pq (chars "//" ++ l ++ fst (URL.span pf rest))
          = (chars "//" ++ l ++ fst (URL.span pq (fst (URL.span pf rest))),
             snd (URL.span pq (fst (URL.span pf rest))))) as ->.
  { rewrite app_assoc, span_app_all, <- app_assoc; [reflexivity|].
    rewrite forallb_app. apply andb_true_iff. split; [reflexivity|].
    apply host_forall; [host_fact|exact Hp]. }
  change (drop_while URL.is_slash (chars "//" ++ l ++ fst (URL.span pf rest)))
    with (drop_while URL.is_slash (l ++ fst (URL.span pf rest))).
  assert (drop_while URL.is_slash (l ++ fst (URL.span pf rest))
          = l ++ fst (URL.span pf rest)) as ->.
  { destruct l as [|c l']; [contradiction|]. cbn [app drop_while].
    cbn [forallb] in Hp. apply andb_true_iff in Hp as [Hc _].
    apply host_char_facts in Hc. destruct Hc as (_&_&_&_&_&_&_&_&_&_&Hs&_).
    rewrite Hs. reflexivity. }
  rewrite (parse_authority_host l _ Hne Hp).
  2:{ destruct (fst (URL.span pf rest)) as [|c r] eqn:E; [left; reflexivity|].
      right. exists c, r. split; [reflexivity|]. apply (Hb2 c r eq_refl). }
  destruct (URL.host_parse false l); reflexivity.
Qed.

Lemma parse_https_typed l rest :
  l <> [] -> forallb host_char l = true ->
  URL.ends_in_number (map URL.ascii_lower l) = false ->
  ends_authority rest = true ->
  forallb (fun c => negb (URL.is_c0_or_space c)) rest = true ->
  URL.parse (str (chars "https://" ++ l ++ rest)) =
    Some (URL.mk "https" (str (map URL.ascii_lower l)) (query_after rest)).
Proof.
  intros Hne Hp He Hra Hrs.
  rewrite (parse_https_host l rest Hne Hp Hra Hrs), (host_parse_typed l Hne Hp He).
  reflexivity.
Qed.

(** ** The normalizer on what users type *)

Lemma visible_facts c :
  visible c = true -> is_js_space c = false /\ URL.is_c0_or_space c = false.
Proof.
  destruct c as [[] [] [] [] [] [] [] []]; intros H; try discriminate H;
    split; reflexivity.
Qed.

Lemma visible_forall (q : ascii -> bool) (l : list ascii) :
  (forall c, visible c = true -> q c = false) ->
  forallb visible l = true -> forallb (fun c => negb (q c)) l = true.
Proof.
  intros Hq Hl. apply forallb_forall. intros c Hc. rewrite forallb_forall in Hl.
  rewrite (Hq c (Hl c Hc)). reflexivity.
Qed.

Lemma suffix_split (h : string) :
  endsWith h platform_suffix = true -> exists x, chars h = x ++ chars platform_suffix.
Proof.
  unfold endsWith. intros He. apply starts_with_app in He as [r Hr].
  exists (rev r). rewrite <- (rev_involutive (chars h)), Hr, rev_app_distr.
  rewrite rev_involutive. reflexivity.
Qed.

Lemma endsWith_app (a b : string) : endsWith (a +:+ b) b = true.
Proof.
  unfold endsWith. rewrite chars_append, rev_app_distr. apply starts_with_refl_app.
Qed.

Lemma str_app (a b : list ascii) : str (a ++ b) = str a +:+ str b.
Proof.
  rewrite <- (str_chars (str a +:+ str b)), chars_append, !chars_str. reflexivity.
Qed.

Lemma truthy_chars (s : string) : chars s <> [] -> truthy_string s = true.
Proof. destruct s; [intros H; contradiction H; reflexivity|reflexivity]. Qed.

(** The steps of the normalizer once the URL text parses to a host name
    that is already lowercase. *)
Lemma normalize_steps (raw : string) (core : list ascii) (host : list ascii) (q : string) :
  chars raw <> [] ->
  strip is_js_space (chars raw) = core ->
  URL.parse (domain_url (str core)) = Some (URL.mk "https" (str host) q) ->
  forallb plain_char host = true ->
  normalizeShopDomain raw =
    if endsWith (default_suffix (str host)) platform_suffix
    then Some (default_suffix (str host)) else None.
Proof.
  intros Hne Hcore Hparse Hplain. unfold normalizeShopDomain.
  rewrite (truthy_chars raw Hne). cbn [negb]. unfold trim. rewrite Hcore, Hparse.
  cbn [URL.hostname]. rewrite toLowerCase_plain by (unfold plain_host; rewrite chars_str; exact Hplain).
  destruct (endsWith _ _); reflexivity.
Qed.

Lemma app_not_nil {A} (a b c : list A) : b <> [] -> a ++ b ++ c <> [].
Proof. destruct a, b; simpl; congruence. Qed.

Lemma typed_host_parts (host : string) :
  forallb host_char (chars host) = true ->
  endsWith (toLowerCase host) platform_suffix = true ->
  toLowerCase host = str (map URL.ascii_lower (chars host)) /\
  URL.ends_in_number (map URL.ascii_lower (chars host)) = false /\
  includes (toLowerCase host) "." = true /\ chars host <> [].
Proof.
  intros Hh He.
  assert (toLowerCase host = str (map URL.ascii_lower (chars host))) as Hlow.
  { rewrite <- (str_chars host) at 1. rewrite toLowerCase_str, lower_host_js by exact Hh.
    reflexivity. }
  destruct (suffix_split _ He) as [x Hx]. rewrite Hlow, chars_str in Hx.
  split; [exact Hlow|]. split; [rewrite Hx; apply ends_in_number_suffix|].
  split.
  - unfold includes. rewrite Hlow, chars_str, Hx.
    change (chars platform_suffix) with (chars "." ++ chars "myshopify.com").
    apply includes_l_app.
  - intros E. rewrite E in Hx. destruct x; discriminate Hx.
Qed.

(** A host name under the platform suffix, typed in any letter case, alone
    or inside an https URL with a path, a query or a fragment, and with
    white space around it, is normalised to the lowercase host name.
    (Punycode labels are outside the URL model, hence excluded.) *)
Theorem normalize_typed_host (pad1 host rest pad2 : string) :
  spaces pad1 = true -> spaces pad2 = true ->
  forallb host_char (chars host) = true ->
  endsWith (toLowerCase host) platform_suffix = true ->
  includes (toLowerCase host) "xn--" = false ->
  url_tail rest = true ->
  normalizeShopDomain (pad1 +:+ host +:+ pad2) = Some (toLowerCase host) /\
  normalizeShopDomain (pad1 +:+ "https://" +:+ host +:+ rest +:+ pad2)
    = Some (toLowerCase host).
Proof.
  intros H1 H2 Hh He _ Ht.
  destruct (typed_host_parts host Hh He) as (Hlow & Hnum & Hdot & Hne).
  apply andb_true_iff in Ht as [Hra Hvis].
  assert (default_suffix (toLowerCase host) = toLowerCase host) as Hdef.
  { unfold default_suffix. rewrite Hdot, andb_false_r. reflexivity. }
  assert (forallb plain_char (map URL.ascii_lower (chars host)) = true) as Hplain
    by (apply lower_host_plain, Hh).
  split.
  - rewrite (normalize_steps _ (chars host) (map URL.ascii_lower (chars host)) EmptyString).
    + rewrite <- Hlow, Hdef, He. reflexivity.
    + rewrite !chars_append. apply app_not_nil, Hne.
    + rewrite !chars_append. apply strip_core; [exact H1|exact H2|].
      apply host_forall; [host_fact|exact Hh].
    + unfold domain_url. rewrite str_chars.
      assert (includes host "://" = false) as ->.
      { unfold includes. apply includes_l_absent. intros Hin.
        rewrite forallb_forall in Hh. specialize (Hh _ Hin). discriminate Hh. }
      replace ("https://" +:+ host) with (str (chars "https://" ++ chars host ++ []))
        by (rewrite app_nil_r, <- chars_append; apply str_chars).
      rewrite (parse_https_typed (chars host) [] Hne Hh Hnum eq_refl eq_refl).
      reflexivity.
    + exact Hplain.
  - rewrite (normalize_steps _ (chars "https://" ++ chars host ++ chars rest)
               (map URL.ascii_lower (chars host)) (query_after (chars rest))).
    + rewrite <- Hlow, Hdef, He. reflexivity.
    + rewrite !chars_append. apply app_not_nil. discriminate.
    + rewrite !chars_append.
      replace (chars pad1 ++ chars "https://" ++ chars host ++ chars rest ++ chars pad2)
        with (chars pad1 ++ (chars "https://" ++ chars host ++ chars rest) ++ chars pad2)
        by (rewrite <- !app_assoc; reflexivity).
      apply strip_core; [exact H1|exact H2|].
      rewrite !forallb_app. apply andb_true_iff; split; [reflexivity|].
      apply andb_true_iff; split.
      * apply host_forall; [host_fact|exact Hh].
      * apply visible_forall; [|exact Hvis]. intros c Hc. apply visible_facts, Hc.
    + unfold domain_url.
      assert (includes (str (chars "https://" ++ chars host ++ chars rest)) "://" = true)
        as ->.
      { unfold includes. rewrite chars_str.
        change (chars "https://") with (chars "https" ++ chars "://").
        rewrite <- app_assoc. apply includes_l_app. }
      apply (parse_https_typed (chars host) (chars rest) Hne Hh Hnum Hra).
      apply visible_forall; [|exact Hvis]. intros c Hc. apply visible_facts, Hc.
    + exact Hplain.
Qed.

Lemma normalize_typed_host_witness :
  normalizeShopDomain " Acme-Store.MyShopify.com " = Some "acme-store.myshopify.com" /\
  normalizeShopDomain "https://Acme-Store.myshopify.com/admin/products?x=1#top"
    = Some "acme-store.myshopify.com".
Proof.
  split.
  - exact (proj1 (normalize_typed_host " " "Acme-Store.MyShopify.com" "/admin" " "
                    eq_refl eq_refl eq_refl eq_refl eq_refl eq_refl)).
  - exact (proj2 (normalize_typed_host "" "Acme-Store.myshopify.com"
                    "/admin/products?x=1#top" ""
                    eq_refl eq_refl eq_refl eq_refl eq_refl eq_refl)).
Defined.

Lemma handle_is_host (l : list ascii) :
  forallb handle_char l = true -> forallb host_char l = true.
Proof.
  apply forallb_impl_eq. intros c H. unfold host_char, handle_char in *.
  rewrite H. reflexivity.
Qed.

Lemma handle_no_dot (l : list ascii) :
  forallb handle_char l = true -> ~ In "."%char (map URL.ascii_lower l).
Proof.
  intros H Hin. apply in_map_iff in Hin as (c & Hc & Hin).
  rewrite forallb_forall in H. specialize (H c Hin).
  destruct c as [[] [] [] [] [] [] [] []]; try discriminate H; discriminate Hc.
Qed.

Lemma letter_not_number (c : ascii) (r : list ascii) :
  URL.is_alpha c = true ->
  forallb URL.is_digit (URL.ascii_lower c :: r) = false /\
  URL.ipv4_number (URL.ascii_lower c :: r) = None.
Proof.
  intros H.
  destruct c as [[] [] [] [] [] [] [] []]; try discriminate H;
    (split; [reflexivity|destruct r; reflexivity]).
Qed.

Lemma handle_not_number (c : ascii) (r : list ascii) :
  URL.is_alpha c = true -> forallb handle_char (c :: r) = true ->
  URL.ends_in_number (map URL.ascii_lower (c :: r)) = false.
Proof.
  intros Hc Hh. unfold URL.ends_in_number.
  rewrite split_l_no_sep by (apply handle_no_dot, Hh).
  cbn [rev app map]. destruct (letter_not_number c (map URL.ascii_lower r) Hc) as [H1 H2].
  rewrite H1, H2. reflexivity.
Qed.

(** A shop handle (letters, digits and hyphens, beginning with a letter,
    no Punycode prefix) is completed with the platform suffix and lowered,
    white space around it dropped. *)
Theorem normalize_bare_handle (pad1 handle pad2 : string) :
  spaces pad1 = true -> spaces pad2 = true ->
  forallb handle_char (chars handle) = true ->
  (match chars handle with c :: _ => URL.is_alpha c | [] => false end) = true ->
  includes (toLowerCase handle) "xn--" = false ->
  normalizeShopDomain (pad1 +:+ handle +:+ pad2)
    = Some (toLowerCase handle +:+ platform_suffix).
Proof.
  intros H1 H2 Hh Hc _.
  destruct (chars handle) as [|c r] eqn:E; [discriminate|].
  pose proof (handle_is_host _ Hh) as Hhost.
  pose proof (handle_not_number c r Hc Hh) as Hnum.
  assert (toLowerCase handle = str (map URL.ascii_lower (c :: r))) as Hlow.
  { rewrite <- (str_chars handle), E, toLowerCase_str, lower_host_js by exact Hhost.
    reflexivity. }
  rewrite (normalize_steps _ (c :: r) (map URL.ascii_lower (c :: r)) EmptyString).
  - rewrite <- Hlow. unfold default_suffix.
    assert (includes (toLowerCase handle) "." = false) as ->.
    { unfold includes. rewrite Hlow, chars_str.
      apply includes_l_absent, handle_no_dot, Hh. }
    rewrite (truthy_chars (toLowerCase handle))
      by (rewrite Hlow, chars_str; discriminate).
    cbn [andb negb]. rewrite endsWith_app. reflexivity.
  - rewrite !chars_append, E. apply app_not_nil. discriminate.
  - rewrite !chars_append, E. apply strip_core; [exact H1|exact H2|].
    apply host_forall; [host_fact|exact Hhost].
  - unfold domain_url.
    assert (includes (str (c :: r)) "://" = false) as ->.
    { unfold includes. rewrite chars_str. apply includes_l_absent. intros Hin.
      rewrite forallb_forall in Hhost. specialize (Hhost _ Hin). discriminate Hhost. }
    replace ("https://" +:+ str (c :: r)) with (str (chars "https://" ++ (c :: r) ++ []))
      by (rewrite app_nil_r, str_app, str_chars; reflexivity).
    rewrite (parse_https_typed (c :: r) [] ltac:(discriminate) Hhost Hnum eq_refl eq_refl).
    reflexivity.
  - apply lower_host_plain, Hhost.
Qed.

Lemma normalize_bare_handle_witness :
  normalizeShopDomain "  My-Store-2 " = Some "my-store-2.myshopify.com".
Proof.
  exact (normalize_bare_handle "  " "My-Store-2" " " eq_refl eq_refl eq_refl eq_refl
           eq_refl).
Defined.

(** *** Handles made of digits *)

Lemma digit_of_small (k : N) : k < 10 -> URL.is_digit (ascii_of_N (48 + k)) = true.
Proof.
  intros H.
  assert (k = 0 \/ k = 1 \/ k = 2 \/ k = 3 \/ k = 4 \/ k = 5 \/ k = 6 \/ k = 7 \/
          k = 8 \/ k = 9) as Hk by lia.
  repeat destruct Hk as [->|Hk]; try subst k; reflexivity.
Qed.

Lemma decimal_go_digits fuel :
  forall n acc, exists pre,
    URL.decimal_go fuel n acc = pre ++ acc /\ forallb URL.is_digit pre = true /\
    (fuel <> O -> pre <> []).
Proof.
  induction fuel as [|f IH]; intros n acc.
  - exists []. repeat split. intros H. contradiction.
  - cbn [URL.decimal_go].
    assert (URL.is_digit (ascii_of_N (48 + n mod 10)) = true) as Hd
      by (apply digit_of_small, N.mod_lt; lia).
    destruct (n / 10 =? 0).
    + exists [ascii_of_N (48 + n mod 10)]. cbn [app forallb]. rewrite Hd.
      repeat split. discriminate.
    + destruct (IH (n / 10) (ascii_of_N (48 + n mod 10) :: acc)) as (pre & E & Hp & _).
      exists (pre ++ [ascii_of_N (48 + n mod 10)]).
      rewrite E, <- app_assoc. cbn [app]. split; [reflexivity|].
      split; [rewrite forallb_app, Hp; cbn [forallb]; rewrite Hd; reflexivity|].
      intros _. destruct pre; discriminate.
Qed.

Lemma decimal_digits (n : N) :
  URL.decimal n <> [] /\ forallb URL.is_digit (URL.decimal n) = true.
Proof.
  unfold URL.decimal.
  destruct (decimal_go_digits (S (N.to_nat (N.log2 n))) n []) as (pre & E & Hp & Hne).
  rewrite E, app_nil_r. split; [apply Hne; discriminate|exact Hp].
Qed.

Lemma ipv4_serialize_shape (a : N) :
  forallb digit_or_dot (URL.ipv4_serialize a) = true /\
  In "."%char (URL.ipv4_serialize a) /\
  exists pre d, URL.ipv4_serialize a = pre ++ [d] /\ URL.is_digit d = true.
Proof.
  unfold URL.ipv4_serialize.
  assert (forall n, forallb digit_or_dot (URL.decimal n) = true) as Hd.
  { intros n. eapply forallb_impl_eq; [|apply decimal_digits].
    intros c Hc. unfold digit_or_dot. rewrite Hc. reflexivity. }
  split; [|split].
  - rewrite !forallb_app, !Hd. reflexivity.
  - apply in_or_app. right. left. reflexivity.
  - destruct (decimal_digits (a mod 256)) as [Hne Hdig].
    destruct (ends_of _ Hne) as [[x E]|(x & mid & y & E)]; rewrite E in *.
    + eexists. exists x. rewrite !app_assoc. split; [reflexivity|].
      simpl in Hdig. rewrite andb_true_r in Hdig. exact Hdig.
    + eexists. exists y. split.
      * change (x :: mid ++ [y]) with ((x :: mid) ++ [y]). rewrite !app_assoc. reflexivity.
      * cbn [forallb] in Hdig. rewrite forallb_app in Hdig. cbn [forallb] in Hdig.
        apply andb_true_iff in Hdig as [_ Hdig]. apply andb_true_iff in Hdig as [_ Hdig].
        rewrite andb_true_r in Hdig. exact Hdig.
Qed.

Lemma digit_facts c :
  URL.is_digit c = true ->
  host_char c = true /\ URL.ascii_lower c = c /\ URL.is_char 46 c = false /\
  c <> "m"%char.
Proof.
  destruct c as [[] [] [] [] [] [] [] []]; intros H; try discriminate H;
    repeat split; discriminate.
Qed.

Lemma digit_or_dot_plain (l : list ascii) :
  forallb digit_or_dot l = true -> forallb plain_char l = true.
Proof.
  apply forallb_impl_eq. intros c.
  destruct c as [[] [] [] [] [] [] [] []]; intros H; try discriminate H; reflexivity.
Qed.

(** A handle made only of digits is never accepted: the URL parser reads
    it as the number of an IPv4 address. *)
Theorem normalize_rejects_digits (pad1 handle pad2 : string) :
  spaces pad1 = true -> spaces pad2 = true ->
  handle <> EmptyString -> forallb URL.is_digit (chars handle) = true ->
  normalizeShopDomain (pad1 +:+ handle +:+ pad2) = None.
Proof.
  intros H1 H2 Hne Hd.
  assert (chars handle <> []) as Hne'.
  { intros E. apply Hne. rewrite <- (str_chars handle), E. reflexivity. }
  assert (forallb host_char (chars handle) = true) as Hhost.
  { eapply forallb_impl_eq; [|exact Hd]. intros c Hc. apply digit_facts, Hc. }
  unfold normalizeShopDomain.
  rewrite truthy_chars by (rewrite !chars_append; apply app_not_nil, Hne').
  cbn [negb]. unfold trim. rewrite !chars_append.
  rewrite strip_core; [|exact H1|exact H2|apply host_forall; [host_fact|exact Hhost]].
  unfold domain_url. rewrite str_chars.
  assert (includes handle "://" = false) as ->.
  { unfold includes. apply includes_l_absent. intros Hin.
    rewrite forallb_forall in Hhost. specialize (Hhost _ Hin). discriminate Hhost. }
  replace ("https://" +:+ handle) with (str (chars "https://" ++ chars handle ++ []))
    by (rewrite app_nil_r, <- chars_append; apply str_chars).
  rewrite (parse_https_host (chars handle) [] Hne' Hhost eq_refl eq_refl).
  assert (URL.host_parse false (chars handle)
          = option_map URL.ipv4_serialize (URL.ipv4_parse (chars handle))) as ->.
  { destruct (chars handle) as [|c r] eqn:E; [contradiction|].
    unfold URL.host_parse.
    assert (URL.is_char 91 c = false) as ->.
    { cbn [forallb] in Hhost. apply andb_true_iff in Hhost as [Hc _].
      apply host_char_facts in Hc. tauto. }
    rewrite (percent_decode_none (c :: r)) by (apply host_forall; [host_fact|exact Hhost]).
    rewrite (existsb_none (fun c => 127 <? code c))
      by (apply host_forall; [host_fact|exact Hhost]).
    rewrite (map_fixed URL.ascii_lower (c :: r)).
    2:{ apply Forall_forall. intros x Hx. rewrite forallb_forall in Hd.
        apply digit_facts, Hd, list_elem_of_In, Hx. }
    rewrite (existsb_none URL.forbidden_domain).
    2:{ apply plain_forall; [plain_fact|].
        eapply forallb_impl_eq; [|exact Hd]. intros x Hx.
        destruct x as [[] [] [] [] [] [] [] []]; try discriminate Hx; reflexivity. }
    assert (URL.ends_in_number (c :: r) = true) as ->; [|reflexivity].
    unfold URL.ends_in_number. rewrite split_l_no_sep.
    2:{ intros Hin. rewrite forallb_forall in Hd. specialize (Hd _ Hin). discriminate Hd. }
    cbn [rev app]. rewrite Hd. reflexivity. }
  destruct (URL.ipv4_parse (chars handle)) as [a|]; [|reflexivity].
  cbn [option_map URL.hostname].
  destruct (ipv4_serialize_shape a) as (Hshape & Hdot & pre & d & Hlast & Hdig).
  rewrite toLowerCase_plain
    by (unfold plain_host; rewrite chars_str; apply digit_or_dot_plain, Hshape).
  unfold default_suffix.
  assert (includes (str (URL.ipv4_serialize a)) "." = true) as ->.
  { unfold includes. rewrite chars_str. apply in_split in Hdot as (x & y & ->).
    replace (x ++ "."%char :: y) with (x ++ chars "." ++ y) by reflexivity.
    apply includes_l_app. }
  rewrite andb_false_r.
  assert (endsWith (str (URL.ipv4_serialize a)) platform_suffix = false) as ->;
    [|reflexivity].
  unfold endsWith. rewrite chars_str, Hlast, rev_app_distr. cbn [rev app].
  change (rev (chars platform_suffix)) with ("m"%char :: rev (chars ".myshopify.co")).
  cbn [starts_with]. destruct (ascii_dec "m" d) as [<-|]; [discriminate Hdig|reflexivity].
Qed.

Lemma normalize_rejects_digits_witness :
  normalizeShopDomain "12345" = None /\ normalizeShopDomain " 007 " = None.
Proof.
  split.
  - refine (normalize_rejects_digits "" "12345" "" eq_refl eq_refl _ eq_refl). discriminate.
  - refine (normalize_rejects_digits " " "007" " " eq_refl eq_refl _ eq_refl). discriminate.
Defined.

Lemma lower_char_idempotent (c : ascii) : lower_char (lower_char c) = lower_char c.
Proof. destruct c as [[] [] [] [] [] [] [] []]; reflexivity. Qed.

Lemma toLowerCase_idempotent (s : string) : toLowerCase (toLowerCase s) = toLowerCase s.
Proof.
  induction s as [|c s IH]; [reflexivity|]. cbn [toLowerCase].
  rewrite lower_char_idempotent, IH. reflexivity.
Qed.

Lemma toLowerCase_app (a b : string) :
  toLowerCase (a +:+ b) = toLowerCase a +:+ toLowerCase b.
Proof.
  induction a as [|c a IH]; [reflexivity|].
  change (toLowerCase (String c a +:+ b))
    with (String (lower_char c) (toLowerCase (a +:+ b))).
  rewrite IH. reflexivity.
Qed.

(** Whatever is accepted is a lowercase host name under the platform
    suffix, and is not empty. *)
Theorem normalize_result_shape (raw h : string) :
  normalizeShopDomain raw = Some h ->
  endsWith h platform_suffix = true /\ toLowerCase h = h /\ h <> EmptyString.
Proof.
  intros Hn. split; [apply (normalize_ends_with_suffix raw h Hn)|].
  revert Hn. unfold normalizeShopDomain. destruct (negb _); [discriminate|].
  destruct (URL.parse _) as [u|]; [|discriminate]. cbv zeta.
  destruct (negb _) eqn:E; [discriminate|]. intros [= <-]. split.
  - unfold default_suffix. destruct (_ && _).
    + rewrite toLowerCase_app, toLowerCase_idempotent. reflexivity.
    + apply toLowerCase_idempotent.
  - apply negb_false_iff in E. intros E0. rewrite E0 in E. discriminate E.
Qed.

Lemma normalize_result_shape_witness :
  endsWith "acme.myshopify.com" platform_suffix = true /\
  toLowerCase "acme.myshopify.com" = "acme.myshopify.com".
Proof.
  destruct (normalize_result_shape "HTTPS://ACME.myshopify.com/" "acme.myshopify.com")
    as (H1 & H2 & _); [vm_compute; reflexivity|].
  split; [exact H1|exact H2].
Defined.

(** ** Store: upserts *)

Import StoreSpec.

(** ** The upsert writer beyond the claims *)














Lemma set_collection_same Model w : set_collection Model (collection Model w) w = w.
Proof. destruct w, Model; reflexivity. Qed.


(** *** Tenant isolation *)

Lemma other_tenant_written (sid : string) (d : doc) (r : gmap string jsval) :
  NoDup (map fst d) -> lookup_field "shop" d = JStr sid ->
  other_tenant sid (set_fields d r) = false.
Proof.
  intros Hd Hs. unfold other_tenant.
  rewrite (set_fields_lookup d r "shop" Hd), Hs.
  rewrite bool_decide_eq_true_2 by reflexivity. reflexivity.
Qed.

Lemma updateOne_others (sid : string) (d : doc) (c : list (gmap string jsval)) :
  NoDup (map fst d) -> lookup_field "shop" d = JStr sid ->
  List.filter (other_tenant sid) (fst (updateOne (key_filter d) d c)) =
  List.filter (other_tenant sid) c /\
  (length c <= length (fst (updateOne (key_filter d) d c)))%nat.
Proof.
  intros Hd Hs. induction c as [|r c [IH1 IH2]].
  - cbn [updateOne fst List.filter].
    rewrite (other_tenant_written sid d _ Hd Hs). split; [reflexivity|simpl; lia].
  - cbn [updateOne]. destruct (matches (key_filter d) r) eqn:Hm.
    + cbn [fst List.filter]. rewrite (other_tenant_written sid d _ Hd Hs).
      apply matches_key_filter in Hm as [Hshop _]. rewrite Hs in Hshop.
      unfold other_tenant at 2. rewrite Hshop.
      rewrite bool_decide_eq_true_2 by reflexivity. split; [reflexivity|simpl; lia].
    + destruct (updateOne (key_filter d) d c) as [c' res]. cbn [fst] in *.
      cbn [List.filter]. rewrite IH1. split; [reflexivity|simpl; lia].
Qed.

Lemma bulkWrite_others (sid : string) (docs : list doc) :
  forall c,
    Forall (fun d => NoDup (map fst d) /\ lookup_field "shop" d = JStr sid) docs ->
    List.filter (other_tenant sid) (fst (bulkWrite (map upsert_operation docs) c)) =
    List.filter (other_tenant sid) c /\
    (length c <= length (fst (bulkWrite (map upsert_operation docs) c)))%nat.
Proof.
  induction docs as [|d docs IH]; intros c Hall; [split; [reflexivity|simpl; lia]|].
  apply Forall_cons_1 in Hall as [[Hd Hs] Hall].
  cbn [map bulkWrite].
  change (op_filter (upsert_operation d)) with (key_filter d).
  change (op_update (upsert_operation d)) with d.
  destruct (updateOne_others sid d c Hd Hs) as [H1 H2].
  destruct (updateOne (key_filter d) d c) as [c1 r1]. cbn [fst] in *.
  destruct (IH c1 Hall) as [H3 H4].
  destruct (bulkWrite (map upsert_operation docs) c1) as [c2 r2]. cbn [fst] in *.
  split; [congruence|lia].
Qed.

Lemma collection_other_model Model Model' c w :
  Model <> Model' -> collection Model (set_collection Model' c w) = collection Model w.
Proof. destruct Model, Model'; try reflexivity; congruence. Qed.

Lemma upsertDocuments_others (sid : string) (Model' Model : model) (docs : list doc)
    (w : world) :
  Forall (fun d => NoDup (map fst d) /\ lookup_field "shop" d = JStr sid) docs ->
  List.filter (other_tenant sid) (collection Model (fst (upsertDocuments Model' docs w))) =
  List.filter (other_tenant sid) (collection Model w) /\
  (length (collection Model w) <=
   length (collection Model (fst (upsertDocuments Model' docs w))))%nat.
Proof.
  intros Hall. destruct docs as [|d docs]; [split; [reflexivity|simpl; lia]|].
  unfold upsertDocuments.
  pose proof (bulkWrite_others sid (d :: docs) (collection Model' w) Hall) as H.
  destruct (bulkWrite (map upsert_operation (d :: docs)) (collection Model' w))
    as [c1 r1]. cbn [fst] in *.
  destruct (decide (Model = Model')) as [->|Hne].
  - rewrite collection_set_collection. exact H.
  - rewrite (collection_other_model _ _ _ _ Hne). split; [reflexivity|lia].
Qed.

Lemma mapped_for_tenant (raw : jsval) (shopId : string) (d : doc) :
  map_customer raw shopId = Ok d \/ map_order raw shopId = Ok d \/
  map_product raw shopId = Ok d ->
  NoDup (map fst d) /\ lookup_field "shop" d = JStr shopId.
Proof.
  intros H. destruct (mapped_documents_keyed raw shopId d H) as [[Hd _] [id Hkey]].
  split; [exact Hd|].
  unfold key_filter, upsert_operation, op_filter in Hkey. congruence.
Qed.

Lemma map_outcome_Forall {A B} (f : A -> outcome B) (P : B -> Prop) (l : list A) :
  forall l', (forall x y, f x = Ok y -> P y) -> map_outcome f l = Ok l' -> Forall P l'.
Proof.
  induction l as [|x l IH]; intros l' Hf H; simpl in H.
  - injection H as <-. constructor.
  - destruct (f x) as [y|e] eqn:Hx; [|discriminate]. cbn [obind] in H.
    destruct (map_outcome f l) as [ys|e] eqn:Hl; [|discriminate]. cbn [obind] in H.
    injection H as <-. constructor; [eapply Hf, Hx|apply IH; auto].
Qed.

Lemma own_config_map (resource : string) (cfg : config) :
  resourceConfig resource = Own cfg ->
  forall item sid d, cfg_map cfg item sid = Ok d ->
    map_customer item sid = Ok d \/ map_order item sid = Ok d \/
    map_product item sid = Ok d.
Proof.
  unfold resourceConfig. intros H item sid d Hd.
  repeat (destruct (bool_decide _) in H; [injection H as <-; simpl in Hd; auto|]).
  destruct (bool_decide _) in H; discriminate.
Qed.

Lemma collection_set_requests Model r w :
  collection Model (set_requests r w) = collection Model w.
Proof. destruct Model; reflexivity. Qed.

Lemma collection_set_events Model l w :
  collection Model (set_events l w) = collection Model w.
Proof. destruct Model; reflexivity. Qed.

Lemma sync_one_others fuel (s : shop) resource summary (Model : model) (w : world) :
  let w' := fst (sync_one fuel s resource summary w) in
  List.filter (other_tenant (shop_id s)) (collection Model w') =
  List.filter (other_tenant (shop_id s)) (collection Model w) /\
  (length (collection Model w) <= length (collection Model w'))%nat.
Proof.
  cbv zeta. unfold sync_one.
  destruct (resourceConfig resource) as [cfg| |] eqn:Hcfg.
  - unfold bind.
    pose proof (preserves_fetch (collection Model) (collection_set_requests Model)
                  fuel s (cfg_path cfg) (cfg_dataKey cfg) (cfg_params cfg) w) as Hf.
    destruct (fetchPaginatedResource _ _ _ _ _ w) as [w1 [raw|e|]];
      cbn [fst] in Hf; try (cbn [fst]; rewrite Hf; split; [reflexivity|lia]).
    destruct (map_outcome (fun item => cfg_map cfg item (shop_id s)) raw)
      as [docs|e] eqn:Hdocs; cbn [lift];
      [|cbn [fst raise]; rewrite Hf; split; [reflexivity|lia]].
    unfold ret. cbv beta iota.
    assert (Forall (fun d => NoDup (map fst d) /\
                             lookup_field "shop" d = JStr (shop_id s)) docs) as Hall.
    { eapply map_outcome_Forall; [|exact Hdocs]. intros item d Hd.
      cbv beta in Hd |- *. apply (mapped_for_tenant item).
      apply (own_config_map resource cfg Hcfg). exact Hd. }
    pose proof (upsertDocuments_others (shop_id s) (cfg_model cfg) Model docs w1 Hall)
      as [H1 H2].
    destruct (upsertDocuments (cfg_model cfg) docs w1) as [w2 [saved|e|]];
      cbn [fst] in *; rewrite <- Hf; split; assumption.
  - unfold bind.
    pose proof (preserves_fetch (collection Model) (collection_set_requests Model)
                  fuel s "undefined" "undefined" [] w) as Hf.
    destruct (fetchPaginatedResource _ _ _ _ _ w) as [w1 [raw|e|]];
      cbn [fst] in Hf; try (cbn [fst]; rewrite Hf; split; [reflexivity|lia]).
    destruct raw; cbn [fst ret raise]; rewrite Hf; split; (reflexivity || lia).
  - cbn [fst ret]. split; [reflexivity|lia].
Qed.

Lemma sync_loop_others fuel (s : shop) resources (Model : model) :
  forall summary w,
    let w' := fst (sync_loop fuel s resources summary w) in
    List.filter (other_tenant (shop_id s)) (collection Model w') =
    List.filter (other_tenant (shop_id s)) (collection Model w) /\
    (length (collection Model w) <= length (collection Model w'))%nat.
Proof.
  cbv zeta. induction resources as [|r rest IH]; intros summary w.
  - split; [reflexivity|simpl; lia].
  - cbn [sync_loop]. unfold bind.
    pose proof (sync_one_others fuel s r summary Model w) as [H1 H2]. cbv zeta in *.
    destruct (sync_one fuel s r summary w) as [w1 [sm|e|]]; cbn [fst] in *;
      try (split; assumption).
    destruct (IH sm w1) as [H3 H4]. split; [congruence|lia].
Qed.

(** Typed writes are upserts for one tenant: a run of the orchestrator and
    a webhook delivery for tenant [s] leave every stored record of another
    tenant as it was, in place, and remove no record. *)
Theorem typed_writes_keep_other_tenants (s : shop) (Model : model) (w : world) :
  (forall fuel resources,
     let w' := fst (syncShopResources fuel s resources w) in
     List.filter (other_tenant (shop_id s)) (collection Model w') =
     List.filter (other_tenant (shop_id s)) (collection Model w) /\
     (length (collection Model w) <= length (collection Model w'))%nat) /\
  (forall topic payload,
     let w' := fst (handleWebhook topic payload s w) in
     List.filter (other_tenant (shop_id s)) (collection Model w') =
     List.filter (other_tenant (shop_id s)) (collection Model w) /\
     (length (collection Model w) <= length (collection Model w'))%nat).
Proof.
  split.
  - intros fuel resources. apply sync_loop_others.
  - intros topic payload. cbv zeta.
    destruct (webhook_dispatch topic payload s w) as (_ & Heq & _).
    cbv zeta in Heq. rewrite Heq. clear Heq.
    set (w1 := set_events _ w).
    assert (collection Model w1 = collection Model w) as Hw1
      by apply collection_set_events.
    assert (forall Model' mapped (type : string),
              (mapped = map_customer payload (shop_id s) \/
               mapped = map_order payload (shop_id s) \/
               mapped = map_product payload (shop_id s)) ->
              let w' := fst (match mapped with
                             | Ok d => (fst (upsertDocuments Model' [d] w1),
                                        Ret (Handled type))
                             | Throw e => (w1, Raise (exn_of_error e))
                             end) in
              List.filter (other_tenant (shop_id s)) (collection Model w') =
              List.filter (other_tenant (shop_id s)) (collection Model w) /\
              (length (collection Model w) <= length (collection Model w'))%nat)
      as Htyped.
    { intros Model' mapped type Hm. cbv zeta.
      destruct mapped as [d|e] eqn:E; cbn [fst];
        [|rewrite Hw1; split; [reflexivity|lia]].
      rewrite <- Hw1. apply upsertDocuments_others. constructor; [|constructor].
      apply (mapped_for_tenant payload).
      destruct Hm as [Hm|[Hm|Hm]]; rewrite <- Hm; auto. }
    repeat (destruct (startsWith (toLowerCase topic) _);
            [apply Htyped; auto|]).
    destruct (_ || _); cbn [fst]; rewrite Hw1; split; (reflexivity || lia).
Qed.







(** ** Requests to the platform *)

Import ApiSpec.

(** ** Where requests go *)











Lemma bind_raise_l {A B} (e : exn) (f : A -> M B) (w : world) :
  bind (raise e) f w = (w, Raise e).
Proof. reflexivity. Qed.





(** ** Invalid domains *)

Lemma fetch_invalid_domain (s : shop) fuel path dataKey params (w : world) :
  normalizeShopDomain (shopDomain s) = None ->
  fetchPaginatedResource fuel s path dataKey params w = (w, Raise invalid_domain_error).
Proof.
  intros Hn. unfold fetchPaginatedResource, clientForShop. rewrite Hn. reflexivity.
Qed.

Lemma sync_loop_invalid_domain (s : shop) fuel resources :
  normalizeShopDomain (shopDomain s) = None ->
  forall summary w,
    fst (sync_loop fuel s resources summary w) = w /\
    (snd (sync_loop fuel s resources summary w) = Raise invalid_domain_error \/
     (forallb (fun k => negb (found k)) resources = true /\
      exists sm, snd (sync_loop fuel s resources summary w) = Ret sm)).
Proof.
  intros Hn. induction resources as [|r rest IH]; intros summary w.
  - split; [reflexivity|]. right. split; [reflexivity|]. eexists. reflexivity.
  - cbn [sync_loop forallb]. unfold bind, sync_one, found.
    destruct (resourceConfig r) as [cfg| |].
    + unfold bind. rewrite (fetch_invalid_domain s _ _ _ _ w Hn). split; [reflexivity|].
      left. reflexivity.
    + unfold bind. rewrite (fetch_invalid_domain s _ _ _ _ w Hn). split; [reflexivity|].
      left. reflexivity.
    + unfold ret at 1. cbn [negb andb]. apply IH.
Qed.

(** A tenant whose stored domain is not accepted by the normalizer causes
    no request and no write: the verifier and the paginator fail at once
    with the invalid-domain error, which the scheduler counts among the
    failures that pause, and a run of the orchestrator leaves the world as
    it was. *)
Theorem invalid_domain_reaches_nothing (s : shop) (w : world) :
  normalizeShopDomain (shopDomain s) = None ->
  verifyShopCredentials s w = (w, Raise invalid_domain_error) /\
  (forall fuel resourcePath dataKey params,
     fetchPaginatedResource fuel s resourcePath dataKey params w =
       (w, Raise invalid_domain_error)) /\
  (forall fuel resources,
     fst (syncShopResources fuel s resources w) = w /\
     (existsb found resources = true ->
      snd (syncShopResources fuel s resources w) = Raise invalid_domain_error)) /\
  pauses invalid_domain_error = true.
Proof.
  intros Hn. split; [|split; [|split]].
  - unfold verifyShopCredentials. rewrite Hn. reflexivity.
  - intros. apply fetch_invalid_domain, Hn.
  - intros fuel resources.
    destruct (sync_loop_invalid_domain s fuel resources Hn ∅ w) as [H1 H2].
    split; [exact H1|]. intros Hex. destruct H2 as [H2|[H2 _]]; [exact H2|].
    exfalso. clear -Hex H2. induction resources as [|r rest IH]; [discriminate|].
    simpl in *. destruct (found r); simpl in *; [discriminate|auto].
  - vm_compute. reflexivity.
Qed.

Lemma invalid_domain_reaches_nothing_witness :
  let s := with_domain "shop.example.com" Fixture.acme in
  verifyShopCredentials s Fixture.world0 = (Fixture.world0, Raise invalid_domain_error) /\
  fst (syncShopResources 5 s default_resources Fixture.world0) = Fixture.world0.
Proof.
  cbv zeta.
  destruct (invalid_domain_reaches_nothing
              (with_domain "shop.example.com" Fixture.acme) Fixture.world0)
    as (Hv & _ & Hs & _); [vm_compute; reflexivity|].
  split; [exact Hv|]. exact (proj1 (Hs 5%nat default_resources)).
Defined.

(** ** The credential verifier *)







(** ** Paginator: failures and endless chains *)

Import PaginatorSpec.

(** ** The paginator when a page fails, and without a last page *)

Lemma upstream_set_requests r w : upstream (set_requests r w) = upstream w.
Proof. reflexivity. Qed.

Lemma set_requests_twice r r' w : set_requests r (set_requests r' w) = set_requests r w.
Proof. reflexivity. Qed.

Lemma page_loop_step fuel c domain resourcePath dataKey params records cursor w r payload :
  upstream w (requests w) (page_request c resourcePath params cursor) = inl r ->
  page_payload (res_data r) dataKey = Ok payload ->
  page_loop (S fuel) c domain resourcePath dataKey params records cursor w =
    let w1 := set_requests (requests w ++ [page_request c resourcePath params cursor]) w in
    if has_cursor (parsePageInfo (res_link r))
    then page_loop fuel c domain resourcePath dataKey params (records ++ payload)
           (parsePageInfo (res_link r)) w1
    else (w1, Ret (records ++ payload)).
Proof.
  intros Hup Hpay. cbn [page_loop]. unfold bind at 1, try_catch, bind, http_get.
  unfold page_request in Hup. rewrite Hup, Hpay. cbn [lift ret fst snd].
  destruct (has_cursor _); reflexivity.
Qed.

Lemma page_loop_failure fuel c domain resourcePath dataKey params records cursor w err :
  upstream w (requests w) (page_request c resourcePath params cursor) = inr err ->
  page_loop (S fuel) c domain resourcePath dataKey params records cursor w =
    (set_requests (requests w ++ [page_request c resourcePath params cursor]) w,
     Raise (buildShopifyError err domain resourcePath)).
Proof.
  intros Hup. cbn [page_loop]. unfold bind at 1, try_catch, bind, http_get.
  unfold page_request in Hup. rewrite Hup. reflexivity.
Qed.

Lemma page_loop_run fuel c domain resourcePath dataKey params pages final :
  forall log cursor records w,
    page_run (upstream w) c resourcePath dataKey params log cursor pages final ->
    requests w = log ->
    page_loop (length pages + fuel) c domain resourcePath dataKey params records cursor w =
    page_loop fuel c domain resourcePath dataKey params
      (records ++ concat (map snd pages)) final
      (set_requests (log ++ map fst pages) w).
Proof.
  induction pages as [|[req payload] pages IH]; intros log cursor records w Hrun Hlog.
  - inversion Hrun; subst. simpl. rewrite !app_nil_r.
    destruct w; reflexivity.
  - inversion Hrun as [|? ? r ? ? ? Hup Hpay Hcur Hrest]; subst.
    cbn [length Nat.add]. rewrite (page_loop_step _ _ _ _ _ _ _ _ _ _ _ Hup Hpay).
    cbv zeta. rewrite Hcur.
    rewrite (IH _ _ _
               (set_requests (requests w ++ [page_request c resourcePath params cursor]) w)
               Hrest eq_refl).
    cbn [map concat fst snd]. rewrite <- !app_assoc. reflexivity.
Qed.

Lemma run_check_sound up c resourcePath dataKey params pages final :
  forall log cursor,
    run_check up c resourcePath dataKey params log cursor pages final = true ->
    page_run up c resourcePath dataKey params log cursor pages final.
Proof.
  induction pages as [|[req payload] rest IH]; intros log cursor; cbn [run_check].
  - intros H. apply bool_decide_eq_true in H. subst final. apply run_done.
  - intros H. apply andb_true_iff in H as [Hreq H].
    apply bool_decide_eq_true in Hreq. subst req.
    destruct (up log _) as [r|e] eqn:Hup; [|discriminate].
    apply andb_true_iff in H as [H Hrest]. apply andb_true_iff in H as [Hpay Hcur].
    apply bool_decide_eq_true in Hpay.
    eapply run_next; eauto.
Qed.

(** When the upstream has served some pages, each with a next cursor, and
    rejects the request for the page that follows, the paginator raises the
    structured error of that rejection: the records of the pages read are
    not returned, and no further request is made. *)
Theorem paginator_fails_as_a_whole (fuel : nat) (s : shop)
    (resourcePath dataKey : string) (params : list (string * string))
    (w : world) (domain : string) (pages : list (request * list jsval))
    (cursor : option string) (err : exn) :
  normalizeShopDomain (shopDomain s) = Some domain ->
  page_run (upstream w) (client_of s domain) resourcePath dataKey params
    (requests w) None pages cursor ->
  upstream w (requests w ++ map fst pages)
    (page_request (client_of s domain) resourcePath params cursor) = inr err ->
  (length pages < fuel)%nat ->
  fetchPaginatedResource fuel s resourcePath dataKey params w =
    (set_requests
       (requests w ++ map fst pages ++
        [page_request (client_of s domain) resourcePath params cursor]) w,
     Raise (buildShopifyError err domain resourcePath)).
Proof.
  intros Hn Hrun Herr Hfuel.
  unfold fetchPaginatedResource, clientForShop. rewrite Hn.
  change (bind (ret ?a) ?f w) with (f a w). cbv beta.
  replace fuel with (length pages + S (fuel - S (length pages)))%nat by lia.
  rewrite (page_loop_run _ _ _ _ _ _ _ _ _ _ _ _ Hrun eq_refl).
  rewrite page_loop_failure with (err := err); [|exact Herr].
  cbn [requests set_requests]. rewrite <- app_assoc. reflexivity.
Qed.

Lemma paginator_fails_as_a_whole_witness :
  fetchPaginatedResource 5 Fixture.acme "customers" "customers" []
    (Scenario.with_upstream Scenario.second_page_fails Fixture.world0)
  = (set_requests
       (map fst (firstn 1 Fixture.customer_pages) ++
        [page_request (client_of Fixture.acme "acme.myshopify.com") "customers" []
           (Some "p2")])
       (Scenario.with_upstream Scenario.second_page_fails Fixture.world0),
     Raise (buildShopifyError Scenario.server_error "acme.myshopify.com" "customers")).
Proof.
  apply (paginator_fails_as_a_whole 5 Fixture.acme "customers" "customers" []
           (Scenario.with_upstream Scenario.second_page_fails Fixture.world0)
           "acme.myshopify.com" (firstn 1 Fixture.customer_pages) (Some "p2")
           Scenario.server_error).
  - vm_compute. reflexivity.
  - apply run_check_sound. vm_compute. reflexivity.
  - vm_compute. reflexivity.
  - vm_compute. lia.
Defined.

Lemma page_loop_endless fuel c domain resourcePath dataKey params :
  forall records cursor w,
    endless (upstream w) c resourcePath dataKey params ->
    exists w',
      page_loop fuel c domain resourcePath dataKey params records cursor w
        = (w', OutOfFuel) /\
      length (requests w') = (length (requests w) + fuel)%nat.
Proof.
  induction fuel as [|f IH]; intros records cursor w Hend.
  - exists w. split; [reflexivity|lia].
  - destruct (Hend (requests w) cursor) as (r & payload & Hup & Hpay & Hcur).
    rewrite (page_loop_step _ _ _ _ _ _ _ _ _ _ _ Hup Hpay). cbv zeta. rewrite Hcur.
    destruct (IH (records ++ payload) (parsePageInfo (res_link r))
                (set_requests (requests w ++ [page_request c resourcePath params cursor]) w)
                Hend) as (w' & Heq & Hlen).
    exists w'. split; [exact Heq|]. rewrite Hlen. cbn [requests set_requests].
    rewrite length_app. simpl. lia.
Qed.

(** The paginator has no page limit: against an upstream that answers
    every page request with a next cursor it is still requesting after any
    number of pages, and never returns. *)
Theorem paginator_has_no_page_limit (s : shop) (resourcePath dataKey : string)
    (params : list (string * string)) (w : world) (domain : string) :
  normalizeShopDomain (shopDomain s) = Some domain ->
  endless (upstream w) (client_of s domain) resourcePath dataKey params ->
  forall fuel, exists w',
    fetchPaginatedResource fuel s resourcePath dataKey params w = (w', OutOfFuel) /\
    length (requests w') = (length (requests w) + fuel)%nat.
Proof.
  intros Hn Hend fuel.
  unfold fetchPaginatedResource, clientForShop. rewrite Hn.
  change (bind (ret ?a) ?f w) with (f a w). cbv beta.
  apply page_loop_endless, Hend.
Qed.

Lemma paginator_has_no_page_limit_witness :
  exists w',
    fetchPaginatedResource 40 Fixture.acme "customers" "customers" []
      (Scenario.with_upstream Scenario.looping Fixture.world0) = (w', OutOfFuel) /\
    length (requests w') = 40%nat.
Proof.
  refine (paginator_has_no_page_limit Fixture.acme "customers" "customers" []
            (Scenario.with_upstream Scenario.looping Fixture.world0)
            "acme.myshopify.com" _ _ 40%nat).
  - vm_compute. reflexivity.
  - intros log cursor.
    exists (mkResponse (JObj [("customers", JArr [Fixture.customer_record 1])])
              (Some (Fixture.page_link "next" "again"))).
    exists [Fixture.customer_record 1].
    split; [reflexivity|]. split; vm_compute; reflexivity.
Defined.

(** ** Link headers *)

Import LinkSpec.

(** ** Reading the cursor of the next page *)

Lemma includes_l_parts (sub l : list ascii) :
  includes_l sub l = true -> exists x y, l = x ++ sub ++ y.
Proof.
  induction l as [|c l IH]; cbn [includes_l].
  - rewrite orb_false_r. intros H. apply starts_with_app in H as [r ->].
    exists [], r. reflexivity.
  - intros H. apply orb_true_iff in H as [H|H].
    + apply starts_with_app in H as [r ->]. exists [], r. reflexivity.
    + destruct (IH H) as (x & y & ->). exists (c :: x), y. reflexivity.
Qed.

Lemma includes_l_within (sub a l b : list ascii) :
  includes_l sub l = true -> includes_l sub (a ++ l ++ b) = true.
Proof.
  intros H. apply includes_l_parts in H as (x & y & ->).
  replace (a ++ (x ++ sub ++ y) ++ b) with ((a ++ x) ++ sub ++ (y ++ b))
    by (rewrite <- !app_assoc; reflexivity).
  apply includes_l_app.
Qed.

Lemma split_l_within sep (l : list ascii) :
  forall cur part, In part (split_l sep cur l) ->
    exists a b, rev cur ++ l = a ++ part ++ b.
Proof.
  induction l as [|c l IH]; intros cur part Hin; cbn [split_l] in Hin.
  - destruct Hin as [<-|[]]. exists [], []. rewrite !app_nil_r. reflexivity.
  - destruct (ascii_dec c sep) as [->|Hne].
    + destruct Hin as [<-|Hin].
      * exists [], (sep :: l). reflexivity.
      * destruct (IH [] part Hin) as (a & b & E). cbn [rev app] in E.
        exists (rev cur ++ sep :: a), b. rewrite E, <- app_assoc. reflexivity.
    + destruct (IH (c :: cur) part Hin) as (a & b & E). exists a, b.
      rewrite <- E. cbn [rev]. rewrite <- app_assoc. reflexivity.
Qed.

Lemma split_l_first sep (a b : list ascii) :
  forall cur, ~ In sep a ->
    split_l sep cur (a ++ sep :: b) = (rev cur ++ a) :: split_l sep [] b.
Proof.
  induction a as [|c a IH]; intros cur Hnin.
  - cbn [app split_l]. destruct (ascii_dec sep sep); [|contradiction].
    rewrite app_nil_r. reflexivity.
  - cbn [app split_l]. destruct (ascii_dec c sep) as [->|Hne].
    + contradiction Hnin. left. reflexivity.
    + rewrite IH by (intros H; apply Hnin; right; exact H).
      cbn [rev]. rewrite <- app_assoc. reflexivity.
Qed.

(** Without a link marked as the next one there is no cursor. *)
Theorem no_next_link_no_cursor (header : string) :
  includes header next_marker = false -> parsePageInfo (Some header) = None.
Proof.
  intros Hno. unfold parsePageInfo. destruct (negb (truthy_string header)); [reflexivity|].
  cbv zeta. fold next_marker.
  destruct (List.find _ _) as [part|] eqn:E; [|reflexivity].
  apply find_some in E as [Hin Hinc]. exfalso.
  unfold split in Hin. apply in_map_iff in Hin as (p & <- & Hp).
  apply split_l_within in Hp as (a & b & Hab). cbn [rev app] in Hab.
  unfold includes in *. rewrite chars_str in Hinc. rewrite Hab in Hno.
  rewrite (includes_l_within _ a p b Hinc) in Hno. discriminate.
Qed.

Lemma no_next_link_no_cursor_witness :
  parsePageInfo (Some (Fixture.page_link "previous" "p1")) = None.
Proof.
  apply no_next_link_no_cursor. vm_compute. reflexivity.
Defined.

Lemma link_safe_facts c :
  link_safe c = true ->
  is_js_space c = false /\ c <> ","%char /\ c <> ";"%char /\
  (URL.is_char 60 c || URL.is_char 62 c) = false.
Proof.
  destruct c as [[] [] [] [] [] [] [] []]; intros H; try discriminate H;
    repeat split; discriminate.
Qed.

Lemma link_safe_notin (x : ascii) (l : list ascii) :
  link_safe x = false -> forallb link_safe l = true -> ~ In x l.
Proof.
  intros Hx Hl Hin. rewrite forallb_forall in Hl. rewrite (Hl x Hin) in Hx. discriminate.
Qed.

(** The header parser on one link marked next, possibly after other
    links: it hands the text between the angle brackets to the URL
    parser. *)
Lemma parsePageInfo_link (earlier : string) (U : list ascii) :
  forallb link_safe U = true ->
  includes earlier next_marker = false ->
  parsePageInfo (Some (link (str U) "next")) =
    match URL.parse (str U) with
    | Some url => URL.searchParams_get url "page_info"
    | None => None
    end /\
  parsePageInfo (Some (earlier +:+ ", " +:+ link (str U) "next")) =
    match URL.parse (str U) with
    | Some url => URL.searchParams_get url "page_info"
    | None => None
    end.
Proof.
  intros HU Hearlier.
  set (tail := chars (">; rel=" +:+ quoted "next")).
  assert (chars (link (str U) "next") = "<"%char :: U ++ tail) as Hlink.
  { unfold link. subst tail. rewrite !chars_append, chars_str. reflexivity. }
  assert (~ In ","%char ("<"%char :: U ++ tail)) as Hcomma.
  { intros [H|H]; [discriminate H|]. apply in_app_or in H as [H|H].
    - revert H. apply link_safe_notin; [reflexivity|exact HU].
    - vm_compute in H. intuition discriminate. }
  assert (forall core : list ascii,
            core = "<"%char :: U ++ tail \/ core = " "%char :: "<"%char :: U ++ tail ->
            includes (str core) next_marker = true /\
            (let first := hd EmptyString (split ";" (str core)) in
             str (List.filter (fun c => negb (URL.is_char 60 c || URL.is_char 62 c))
                    (chars (trim first))) = str U)) as Hcore.
  { intros core Hc. split.
    - unfold includes. rewrite chars_str.
      assert (exists a, core = a ++ chars next_marker ++ []) as [a ->].
      { destruct Hc as [->| ->]; subst tail.
        - exists ("<"%char :: U ++ chars ">; "). cbn [app]. rewrite <- app_assoc.
          rewrite app_nil_r. reflexivity.
        - exists (" "%char :: "<"%char :: U ++ chars ">; "). cbn [app].
          rewrite <- app_assoc, app_nil_r. reflexivity. }
      apply includes_l_app.
    - cbv zeta. unfold split. rewrite chars_str.
      assert (exists pad, forallb is_js_space pad = true /\
                core = (pad ++ "<"%char :: U ++ [">"%char]) ++ ";"%char :: chars (" rel=" +:+ quoted "next"))
        as (pad & Hpad & ->).
      { destruct Hc as [->| ->]; subst tail.
        - exists []. split; [reflexivity|]. cbn [app]. rewrite <- app_assoc. reflexivity.
        - exists [" "%char]. split; [reflexivity|]. cbn [app]. rewrite <- app_assoc.
          reflexivity. }
      rewrite split_l_first.
      2:{ intros H. apply in_app_or in H as [H|H].
          - rewrite forallb_forall in Hpad. specialize (Hpad _ H). discriminate Hpad.
          - destruct H as [H|H]; [discriminate H|]. apply in_app_or in H as [H|H].
            + revert H. apply link_safe_notin; [reflexivity|exact HU].
            + destruct H as [H|[]]. discriminate H. }
      cbn [rev app map hd]. unfold trim. rewrite !chars_str.
      replace (pad ++ "<"%char :: U ++ [">"%char])
        with (pad ++ ("<"%char :: U ++ [">"%char]) ++ []) by (rewrite app_nil_r; reflexivity).
      rewrite strip_core; [|exact Hpad|reflexivity|].
      2:{ change ("<"%char :: U ++ [">"%char]) with (["<"%char] ++ U ++ [">"%char]).
          rewrite !forallb_app.
          assert (forallb (fun c => negb (is_js_space c)) U = true) as ->; [|reflexivity].
          apply forallb_forall. intros c Hc'. rewrite forallb_forall in HU.
          destruct (link_safe_facts c (HU c Hc')) as (-> & _). reflexivity. }
      cbn [List.filter].
      change (negb (URL.is_char 60 "<" || URL.is_char 62 "<")) with false. cbv iota.
      rewrite List.filter_app. cbn [List.filter].
      change (negb (URL.is_char 60 ">" || URL.is_char 62 ">")) with false. cbv iota.
      rewrite app_nil_r, filter_all; [reflexivity|].
      apply forallb_forall. intros c Hc'. rewrite forallb_forall in HU.
      destruct (link_safe_facts c (HU c Hc')) as (_ & _ & _ & ->). reflexivity. }
  split.
  - unfold parsePageInfo.
    assert (truthy_string (link (str U) "next") = true) as -> by reflexivity.
    cbn [negb]. cbv zeta. fold next_marker. unfold split at 1.
    rewrite Hlink, split_l_no_sep by exact Hcomma.
    cbn [rev app map List.find].
    destruct (Hcore _ (or_introl eq_refl)) as [-> Hfirst]. cbv zeta in Hfirst.
    rewrite Hfirst. reflexivity.
  - unfold parsePageInfo.
    assert (truthy_string (earlier +:+ ", " +:+ link (str U) "next") = true) as ->.
    { apply truthy_chars. rewrite !chars_append. destruct (chars earlier); discriminate. }
    cbn [negb]. cbv zeta. fold next_marker. unfold split at 1.
    rewrite !chars_append, Hlink.
    change (chars ", " ++ "<"%char :: U ++ tail)
      with (","%char :: " "%char :: "<"%char :: U ++ tail).
    rewrite split_l_last.
    2:{ intros [H|H]; [discriminate H|]. exact (Hcomma H). }
    rewrite map_app. cbn [map].
    assert (List.find (fun part => includes part next_marker)
              (map str (split_l "," [] (chars earlier))) = None) as Hnone.
    { destruct (List.find _ _) as [part|] eqn:E; [|reflexivity].
      apply find_some in E as [Hin Hinc]. exfalso.
      apply in_map_iff in Hin as (p & <- & Hp).
      apply split_l_within in Hp as (a & b & Hab). cbn [rev app] in Hab.
      unfold includes in *. rewrite chars_str in Hinc. rewrite Hab in Hearlier.
      rewrite (includes_l_within _ a p b Hinc) in Hearlier. discriminate. }
    rewrite (find_app_skip _ _ _ (find_none_forallb _ _ Hnone)).
    cbn [List.find].
    destruct (Hcore _ (or_intror eq_refl)) as [-> Hfirst]. cbv zeta in Hfirst.
    rewrite Hfirst. reflexivity.
Qed.

Lemma host_link_safe (l : list ascii) :
  forallb host_char l = true -> forallb link_safe l = true.
Proof.
  apply forallb_impl_eq. intros c.
  destruct c as [[] [] [] [] [] [] [] []]; intros H; try discriminate H; reflexivity.
Qed.

Lemma path_char_facts c :
  path_char c = true ->
  link_safe c = true /\ visible c = true /\
  negb (URL.is_char 35 c) = true /\ negb (URL.is_char 63 c) = true.
Proof.
  destruct c as [[] [] [] [] [] [] [] []]; intros H; try discriminate H;
    repeat split; reflexivity.
Qed.

Lemma cursor_char_facts c :
  cursor_char c = true ->
  link_safe c = true /\ visible c = true /\
  negb (URL.is_char 35 c) = true /\ negb (URL.is_char 63 c) = true /\
  c <> "&"%char /\ negb (URL.is_char 37 c) = true /\
  (if URL.is_char 43 c then ascii_of_N 32 else c) = c.
Proof.
  destruct c as [[] [] [] [] [] [] [] []]; intros H; try discriminate H;
    repeat split; try reflexivity; discriminate.
Qed.

Lemma forallb_from {A} (p q : A -> bool) (l : list A) :
  (forall c, In c l -> p c = true -> q c = true) ->
  forallb p l = true -> forallb q l = true.
Proof.
  intros H Hp. apply forallb_forall. intros c Hc. rewrite forallb_forall in Hp. auto.
Qed.

Lemma form_decode_cursor (C : list ascii) :
  forallb cursor_char C = true -> URL.form_decode C = str C.
Proof.
  intros H. unfold URL.form_decode.
  rewrite (map_fixed (fun c => if URL.is_char 43 c then ascii_of_N 32 else c) C).
  2:{ apply Forall_forall. intros c Hc. rewrite forallb_forall in H.
      apply cursor_char_facts, H, list_elem_of_In, Hc. }
  rewrite percent_decode_none; [reflexivity|].
  eapply forallb_from; [|exact H]. intros c _ Hc. apply cursor_char_facts, Hc.
Qed.

Lemma search_cursor (C : list ascii) :
  forallb cursor_char C = true ->
  URL.assoc "page_info"
    (URL.search_pairs (str (chars "limit=250&page_info=" ++ C))) = Some (str C).
Proof.
  intros H. unfold URL.search_pairs. rewrite chars_str.
  change (chars "limit=250&page_info=" ++ C)
    with (chars "limit=250" ++ "&"%char :: chars "page_info=" ++ C).
  rewrite split_l_first by (vm_compute; intuition discriminate).
  rewrite split_l_no_sep.
  2:{ intros Hin. apply in_app_or in Hin as [Hin|Hin].
      - vm_compute in Hin. intuition discriminate.
      - rewrite forallb_forall in H. specialize (H _ Hin).
        apply cursor_char_facts in H. destruct H as (_&_&_&_&H&_). apply H. reflexivity. }
  cbn [rev app omap list_omap].
  change (chars "limit=250") with ("l"%char :: chars "imit=250").
  change (chars "page_info=" ++ C) with ("p"%char :: chars "age_info=" ++ C).
  cbv iota beta.
  change (URL.span (fun c => negb (URL.is_char 61 c)) ("l"%char :: chars "imit=250"))
    with (chars "limit", chars "=250").
  change (URL.span (fun c => negb (URL.is_char 61 c)) ("p"%char :: chars "age_info=" ++ C))
    with (chars "page_info", "="%char :: C).
  cbv iota beta. cbn [tl URL.assoc].
  change (URL.form_decode (chars "limit")) with "limit".
  change (URL.form_decode (chars "page_info")) with "page_info".
  rewrite bool_decide_eq_false_2 by discriminate.
  rewrite bool_decide_eq_true_2 by reflexivity.
  rewrite (form_decode_cursor C H). reflexivity.
Qed.

(** Reading a link header is the inverse of writing the link of the next
    page: from the link marked next, alone or after other links, the
    paginator reads the cursor that stands in its [page_info] parameter. *)
Theorem next_cursor_round_trip (earlier host path cursor : string) :
  forallb host_char (chars host) = true ->
  endsWith (toLowerCase host) platform_suffix = true ->
  includes (toLowerCase host) "xn--" = false ->
  forallb path_char (chars path) = true ->
  forallb cursor_char (chars cursor) = true ->
  includes earlier next_marker = false ->
  parsePageInfo (Some (link (page_url host path cursor) "next")) = Some cursor /\
  parsePageInfo (Some (earlier +:+ ", " +:+ link (page_url host path cursor) "next"))
    = Some cursor.
Proof.
  intros Hh He _ Hp Hc Hearlier.
  destruct (typed_host_parts host Hh He) as (_ & Hnum & _ & Hne).
  set (rest := "/"%char :: chars path ++ chars "?limit=250&page_info=" ++ chars cursor).
  assert (page_url host path cursor = str (chars "https://" ++ chars host ++ rest)) as HU.
  { unfold page_url. subst rest. rewrite <- (str_chars (_ +:+ _)) at 1.
    rewrite !chars_append. reflexivity. }
  assert (forallb visible rest = true) as Hvis.
  { subst rest. cbn [forallb]. rewrite !forallb_app.
    apply andb_true_iff; split; [reflexivity|]. apply andb_true_iff; split.
    - eapply forallb_from; [|exact Hp]. intros c _ H. apply path_char_facts, H.
    - apply andb_true_iff; split; [reflexivity|].
      eapply forallb_from; [|exact Hc]. intros c _ H. apply cursor_char_facts, H. }
  assert (forallb link_safe (chars "https://" ++ chars host ++ rest) = true) as Hsafe.
  { subst rest. rewrite !forallb_app. cbn [forallb]. rewrite !forallb_app.
    apply andb_true_iff; split; [reflexivity|]. apply andb_true_iff; split.
    - apply host_link_safe, Hh.
    - apply andb_true_iff; split; [reflexivity|]. apply andb_true_iff; split.
      + eapply forallb_from; [|exact Hp]. intros c _ H. apply path_char_facts, H.
      + apply andb_true_iff; split; [reflexivity|].
        eapply forallb_from; [|exact Hc]. intros c _ H. apply cursor_char_facts, H. }
  assert (URL.parse (str (chars "https://" ++ chars host ++ rest)) =
          Some (URL.mk "https" (str (map URL.ascii_lower (chars host)))
                  (str (chars "limit=250&page_info=" ++ chars cursor)))) as Hparse.
  { rewrite (parse_https_typed (chars host) rest Hne Hh Hnum eq_refl).
    2:{ apply visible_forall; [|exact Hvis]. intros c H. apply visible_facts, H. }
    do 2 f_equal. unfold query_after.
    rewrite (span_all (fun c => negb (URL.is_char 35 c)) rest).
    2:{ subst rest. cbn [forallb]. rewrite !forallb_app.
        apply andb_true_iff; split; [reflexivity|]. apply andb_true_iff; split.
        - eapply forallb_from; [|exact Hp]. intros c _ H. apply path_char_facts, H.
        - apply andb_true_iff; split; [reflexivity|].
          eapply forallb_from; [|exact Hc]. intros c _ H. apply cursor_char_facts, H. }
    cbn [fst]. subst rest.
    change ("/"%char :: chars path ++ chars "?limit=250&page_info=" ++ chars cursor)
      with (("/"%char :: chars path) ++
            "?"%char :: chars "limit=250&page_info=" ++ chars cursor).
    rewrite span_app_all.
    2:{ cbn [forallb]. apply andb_true_iff; split; [reflexivity|].
        eapply forallb_from; [|exact Hp]. intros c _ H. apply path_char_facts, H. }
    rewrite span_stop by reflexivity. reflexivity. }
  rewrite HU.
  destruct (parsePageInfo_link earlier _ Hsafe Hearlier) as [H1 H2].
  rewrite H1, H2, Hparse. unfold URL.searchParams_get. cbn [URL.query].
  rewrite (search_cursor (chars cursor) Hc), str_chars. split; reflexivity.
Qed.

Lemma next_cursor_round_trip_witness :
  parsePageInfo
    (Some (link (page_url "acme.myshopify.com" "admin/api/2024-10/customers.json"
                   "eyJsYXN0X2lkIjo3fQ") "previous" +:+ ", " +:+
           link (page_url "acme.myshopify.com" "admin/api/2024-10/customers.json"
                   "eyJsYXN0X2lkIjo5fQ") "next"))
  = Some "eyJsYXN0X2lkIjo5fQ".
Proof.
  refine (proj2 (next_cursor_round_trip
                   (link (page_url "acme.myshopify.com" "admin/api/2024-10/customers.json"
                            "eyJsYXN0X2lkIjo3fQ") "previous")
                   "acme.myshopify.com" "admin/api/2024-10/customers.json"
                   "eyJsYXN0X2lkIjo5fQ" eq_refl eq_refl eq_refl eq_refl eq_refl _)).
  vm_compute. reflexivity.
Defined.

(** ** Structured errors *)

Import ErrorSpec.

(** ** The structured error *)

(** Trimming keeps everything between a first character that is no space
    and a later character that is no space. *)
Lemma strip_keeps p (x y : ascii) (mid rest : list ascii) :
  p x = false -> p y = false ->
  exists rest', strip p (x :: mid ++ y :: rest) = x :: mid ++ y :: rest'.
Proof.
  intros Hx Hy. unfold strip. cbn [drop_while]. rewrite Hx.
  change (x :: mid ++ y :: rest) with ((x :: mid) ++ y :: rest).
  rewrite rev_app_distr. cbn [rev]. rewrite <- app_assoc. cbn [app].
  rewrite (drop_while_app_stop p (rev rest) y _ Hy).
  exists (rev (drop_while p (rev rest))).
  rewrite rev_app_distr. cbn [rev]. rewrite rev_app_distr, rev_involutive.
  cbn [rev app]. rewrite <- !app_assoc. reflexivity.
Qed.

Lemma string_app_assoc (a b c : string) : (a +:+ b) +:+ c = a +:+ b +:+ c.
Proof.
  rewrite <- (str_chars ((a +:+ b) +:+ c)), <- (str_chars (a +:+ b +:+ c)).
  rewrite !chars_append, app_assoc. reflexivity.
Qed.

Lemma built_message (err : exn) (domain resourcePath : string) :
  let status := option_map er_status (ex_response err) in
  ex_message (buildShopifyError err domain resourcePath) =
    trim (if bool_decide (status = Some 404)
          then error_text err domain resourcePath +:+ " - " +:+ domain_hint
          else if bool_decide (status = Some 401) || bool_decide (status = Some 403)
               then error_text err domain resourcePath +:+ " - " +:+ token_hint
               else error_text err domain resourcePath).
Proof.
  cbv zeta. unfold buildShopifyError. cbv zeta. cbn [ex_message].
  fold (error_detail err).
  set (text := "Shopify " +:+ _).
  assert (text = error_text err domain resourcePath) as Htext.
  { subst text. unfold error_text, status_part, request_part.
    rewrite !string_app_assoc. reflexivity. }
  assert (truthy_string text = true) as Ht by reflexivity.
  destruct (bool_decide (_ = Some 404)).
  - cbn [List.filter]. rewrite Ht. change (truthy_string _) with true at 1.
    cbv iota. cbn [join fold_left]. rewrite Htext. reflexivity.
  - destruct (_ || _).
    + cbn [List.filter]. rewrite Ht. change (truthy_string _) with true at 1.
      cbv iota. cbn [join fold_left]. rewrite Htext. reflexivity.
    + cbn [List.filter]. rewrite Ht. cbn [truthy_string join fold_left].
      rewrite Htext. reflexivity.
Qed.

Lemma error_text_chars (err : exn) (domain resourcePath : string) :
  exists a b,
    chars (error_text err domain resourcePath) =
      chars "Shopify " ++ a ++ chars (request_part domain resourcePath) ++ b /\
    exists c, chars "Shopify " ++ a ++ chars (request_part domain resourcePath)
              = "S"%char :: c ++ [":"%char].
Proof.
  unfold error_text, status_part. rewrite !chars_append.
  exists (chars (status_text (option_map er_status (ex_response err))) ++
          chars " " ++
          chars (default EmptyString (option_map er_statusText (ex_response err)))).
  exists (chars " " ++ chars (error_detail err)). split.
  - repeat (rewrite <- app_assoc). reflexivity.
  - unfold request_part. rewrite !chars_append.
    change (chars "Shopify ") with ("S"%char :: chars "hopify ").
    change (chars ":") with [":"%char]. cbn [app]. eexists.
    f_equal. rewrite !app_assoc. reflexivity.
Qed.

Lemma trimmed_message (err : exn) (domain resourcePath : string) (tail : string) :
  startsWith (trim (error_text err domain resourcePath +:+ tail)) "Shopify " = true /\
  includes (trim (error_text err domain resourcePath +:+ tail))
    (request_part domain resourcePath) = true.
Proof.
  destruct (error_text_chars err domain resourcePath) as (a & b & Htext & c & Hc).
  unfold trim, startsWith, includes. rewrite chars_str, chars_append, Htext.
  replace ((chars "Shopify " ++ a ++ chars (request_part domain resourcePath) ++ b)
           ++ chars tail)
    with ((chars "Shopify " ++ a ++ chars (request_part domain resourcePath))
          ++ b ++ chars tail) by (rewrite <- !app_assoc; reflexivity).
  pose proof Hc as Hc'. rewrite Hc.
  replace (("S"%char :: c ++ [":"%char]) ++ b ++ chars tail)
    with ("S"%char :: c ++ ":"%char :: b ++ chars tail)
    by (cbn [app]; rewrite <- app_assoc; reflexivity).
  destruct (strip_keeps is_js_space "S" ":" c (b ++ chars tail) eq_refl eq_refl)
    as [rest ->].
  replace ("S"%char :: c ++ ":"%char :: rest) with (("S"%char :: c ++ [":"%char]) ++ rest)
    by (cbn [app]; rewrite <- app_assoc; reflexivity).
  rewrite <- Hc'. split.
  - rewrite <- !app_assoc. apply starts_with_refl_app.
  - rewrite app_assoc, <- app_assoc. 
    replace ((chars "Shopify " ++ a) ++ chars (request_part domain resourcePath) ++ rest)
      with ((chars "Shopify " ++ a) ++ chars (request_part domain resourcePath) ++ rest)
      by reflexivity.
    apply includes_l_app.
Qed.

Lemma hinted_message (err : exn) (domain resourcePath hint : string)
    (h : list ascii) (dot : ascii) :
  chars hint = h ++ [dot] -> is_js_space dot = false ->
  trim (error_text err domain resourcePath +:+ " - " +:+ hint) =
    (error_text err domain resourcePath +:+ " - ") +:+ hint.
Proof.
  intros Hh Hdot. rewrite string_app_assoc. unfold trim.
  rewrite <- (str_chars (error_text err domain resourcePath +:+ " - " +:+ hint)) at 2.
  f_equal.
  destruct (error_text_chars err domain resourcePath) as (a & b & Htext & _).
  rewrite !chars_append, Htext, Hh.
  set (body := a ++ chars (request_part domain resourcePath) ++ b).
  assert ((chars "Shopify " ++ body) ++ chars " - " ++ h ++ [dot] =
          [] ++ "S"%char :: (chars "hopify " ++ body ++ chars " - " ++ h) ++ dot :: [])
    as ->.
  { change (chars "Shopify ") with ("S"%char :: chars "hopify ").
    cbn [app]. f_equal. repeat (rewrite <- app_assoc). reflexivity. }
  rewrite strip_pad by (reflexivity || assumption). reflexivity.
Qed.

(** The structured error keeps the HTTP status and the response of the
    failure; its message begins with [Shopify], says which domain and
    resource were requested, and for the statuses 404 and 401 or 403 ends
    with the hint for that status; with one of these statuses the scheduler
    pauses the tenant. *)
Theorem structured_error (err : exn) (domain resourcePath : string) :
  let e := buildShopifyError err domain resourcePath in
  let st := option_map er_status (ex_response err) in
  ex_status e = st /\ ex_response e = ex_response err /\
  startsWith (ex_message e) "Shopify " = true /\
  includes (ex_message e) (request_part domain resourcePath) = true /\
  (st = Some 404 -> endsWith (ex_message e) domain_hint = true) /\
  (st = Some 401 \/ st = Some 403 -> endsWith (ex_message e) token_hint = true) /\
  (st = Some 401 \/ st = Some 403 \/ st = Some 404 -> pauses e = true).
Proof.
  cbv zeta. split; [reflexivity|]. split; [reflexivity|].
  pose proof (built_message err domain resourcePath) as Hm. cbv zeta in Hm.
  set (st := option_map er_status (ex_response err)) in *.
  assert (error_text err domain resourcePath +:+ EmptyString
          = error_text err domain resourcePath) as Hnil.
  { rewrite <- (str_chars (_ +:+ _)), chars_append, app_nil_r. apply str_chars. }
  split; [|split; [|split; [|split]]].
  - rewrite Hm.
    destruct (bool_decide (st = Some 404)); [apply trimmed_message|].
    destruct (_ || _); [apply trimmed_message|].
    rewrite <- Hnil. apply trimmed_message.
  - rewrite Hm.
    destruct (bool_decide (st = Some 404)); [apply trimmed_message|].
    destruct (_ || _); [apply trimmed_message|].
    rewrite <- Hnil. apply trimmed_message.
  - intros H404. rewrite Hm, bool_decide_eq_true_2 by exact H404.
    rewrite (hinted_message err domain resourcePath domain_hint
               (chars "Verify the shop domain is the Admin hostname (e.g. your-store.myshopify.com) and the token has access")
               "."%char eq_refl eq_refl).
    apply endsWith_app.
  - intros H40x. rewrite Hm.
    rewrite bool_decide_eq_false_2 by (destruct H40x as [H|H]; rewrite H; discriminate).
    assert (bool_decide (st = Some 401) || bool_decide (st = Some 403) = true) as ->.
    { destruct H40x as [H|H]; rewrite H; reflexivity. }
    rewrite (hinted_message err domain resourcePath token_hint
               (chars "Check the Admin API token and scopes for customers/orders/products")
               "."%char eq_refl eq_refl).
    apply endsWith_app.
  - intros H. unfold pauses. cbn [ex_status buildShopifyError]. fold st.
    destruct H as [H|[H|H]]; rewrite H; reflexivity.
Qed.

(** ** Schedulers *)

Import SweepSpec.

(** ** The scheduler beyond failures *)

Lemma markShopError_returns s err w : exists w', markShopError s err w = (w', Ret tt).
Proof. unfold markShopError, bind, read, save, modify. eexists. reflexivity. Qed.

Lemma process_shop_settles fuel s w : settles (snd (process_shop fuel s w)).
Proof.
  unfold process_shop, try_catch.
  destruct (sync_attempt fuel s w) as [w1 [[]|e|]]; cbn [snd].
  - left. exists tt. reflexivity.
  - unfold on_failure. destruct (pauses e).
    + destruct (markShopError_returns (in_memory s) e w1) as [w' ->].
      left. exists tt. reflexivity.
    + left. exists tt. reflexivity.
  - right. reflexivity.
Qed.

Lemma for_each_settles fuel l : forall w, settles (snd (for_each fuel l w)).
Proof.
  induction l as [|s l IH]; intros w.
  - left. exists tt. reflexivity.
  - cbn [for_each]. unfold bind.
    pose proof (process_shop_settles fuel s w) as H.
    destruct (process_shop fuel s w) as [w1 [a|e|]]; cbn [snd] in *.
    + apply IH.
    + destruct H as [[a H]|H]; discriminate H.
    + right. reflexivity.
Qed.

(** A tick never fails: the failure of a tenant is caught inside the
    sweep, whatever the upstream answers and whatever is stored. *)
Theorem tick_never_raises (fuel : nat) (w : world) :
  snd (tick fuel w) = Ret tt \/ snd (tick fuel w) = OutOfFuel.
Proof.
  unfold tick, bind, read.
  destruct (for_each_settles fuel
              (List.filter (fun s => bool_decide (status s = active)) (shops w)) w)
    as [[[] H]|H]; auto.
Qed.

(** *** A tenant's place in the sweep *)

Lemma sweep_place (w : world) (before after : list shop) (s : shop) :
  NoDup (map shop_id (shops w)) ->
  List.filter (fun t => bool_decide (status t = active)) (shops w)
    = before ++ s :: after ->
  s ∈ shops w /\ status s = active /\
  Forall (fun t => shop_id t <> shop_id s) before /\
  Forall (fun t => shop_id t <> shop_id s) after.
Proof.
  intros Hnd Hact.
  assert (In s (List.filter (fun t => bool_decide (status t = active)) (shops w)))
    as Hf by (rewrite Hact; apply in_elt).
  apply filter_In in Hf as [Hf Hst]. apply bool_decide_eq_true in Hst.
  split; [apply list_elem_of_In, Hf|]. split; [exact Hst|].
  pose proof (NoDup_map_filter shop_id
                (fun t => bool_decide (status t = active)) _ Hnd) as Hnd'.
  rewrite Hact, map_app in Hnd'. simpl in Hnd'.
  apply NoDup_app in Hnd' as (_ & Hba & Hnd').
  apply NoDup_cons in Hnd' as [Hafter _]. split.
  - apply Forall_forall. intros t Ht E. apply (Hba (shop_id t)).
    + apply (list_elem_of_fmap_2 shop_id), Ht.
    + rewrite E. apply elem_of_cons. left. reflexivity.
  - apply Forall_forall. intros t Ht E. apply Hafter. rewrite <- E.
    apply (list_elem_of_fmap_2 shop_id), Ht.
Qed.

Lemma now_kept_attempt fuel s w : now (fst (sync_attempt fuel s w)) = now w.
Proof.
  apply (preserves_sync_attempt now (fun _ _ => eq_refl)
           (fun m c w => match m with Customer | Order | Product => eq_refl end)
           (fun _ _ => eq_refl)).
Qed.

Lemma now_kept_for_each fuel l w : now (fst (for_each fuel l w)) = now w.
Proof.
  apply (preserves_for_each now (fun _ _ => eq_refl)
           (fun m c w => match m with Customer | Order | Product => eq_refl end)
           (fun _ _ => eq_refl)).
Qed.

(** A completed attempt has stored the tenant with the normalised domain
    and the time of the sync. *)
Lemma sync_attempt_ret fuel s w w1 :
  sync_attempt fuel s w = (w1, Ret tt) ->
  exists wb,
    shops w1 = map (fun t => if bool_decide (shop_id t = shop_id s)
                             then with_lastSyncedAt (now w) (in_memory s) else t)
                 (shops wb) /\
    map shop_id (shops wb) = map shop_id (shops w) /\
    exists nd, normalizeShopDomain (shopDomain s) = Some nd /\
               shopDomain (in_memory s) = nd.
Proof.
  unfold sync_attempt, in_memory.
  destruct (normalizeShopDomain (shopDomain s)) as [nd|]; [|discriminate].
  set (s1 := if bool_decide (nd = shopDomain s) then s else with_domain nd s).
  intros H.
  assert (shop_id s1 = shop_id s) as Hid by (subst s1; destruct (bool_decide _); reflexivity).
  assert (shopDomain s1 = nd) as Hdom.
  { subst s1. destruct (bool_decide (nd = shopDomain s)) eqn:E; [|reflexivity].
    apply bool_decide_eq_true in E. congruence. }
  unfold bind at 1 in H.
  pose proof (touches_save s1) as Hsave.
  assert (exists wa, (if bool_decide (nd = shopDomain s) then ret tt else save s1) w
                     = (wa, Ret tt) /\
                     map shop_id (shops wa) = map shop_id (shops w) /\ now wa = now w)
    as (wa & Ha & Hida & Hnowa).
  { destruct (bool_decide (nd = shopDomain s)).
    - exists w. repeat split.
    - eexists. split; [reflexivity|]. split; [|reflexivity].
      specialize (Hsave w). apply others_kept_ids in Hsave. exact Hsave. }
  rewrite Ha in H. unfold bind at 1 in H.
  pose proof (preserves_verify shops shops_set_requests s1 wa) as Hv.
  pose proof (preserves_verify now (fun _ _ => eq_refl) s1 wa) as Hvn.
  destruct (verifyShopCredentials s1 wa) as [wv [v|e|]]; cbn [fst] in *; try discriminate.
  unfold bind at 1 in H.
  pose proof (preserves_sync shops shops_set_requests shops_set_collection
                fuel s1 default_resources wv) as Hs.
  pose proof (preserves_sync now (fun _ _ => eq_refl)
                (fun m c w => match m with Customer | Order | Product => eq_refl end)
                fuel s1 default_resources wv) as Hsn.
  destruct (syncShopResources fuel s1 default_resources wv) as [wb [sm|e|]];
    cbn [fst] in *; try discriminate.
  unfold bind, read, save, modify in H. injection H as <-.
  exists wb. rewrite shops_set_shops. cbn [shop_id with_lastSyncedAt].
  rewrite Hid. split; [|split].
  - replace (now wb) with (now w) by congruence. reflexivity.
  - congruence.
  - exists nd. split; [reflexivity|exact Hdom].
Qed.

Lemma with_domain_same (s : shop) : with_domain (shopDomain s) s = s.
Proof. destruct s; reflexivity. Qed.

Lemma in_memory_with_domain (s : shop) (nd : string) :
  normalizeShopDomain (shopDomain s) = Some nd -> in_memory s = with_domain nd s.
Proof.
  intros H. unfold in_memory. rewrite H.
  destruct (bool_decide (nd = shopDomain s)) eqn:E; [|reflexivity].
  apply bool_decide_eq_true in E. subst nd. symmetry. apply with_domain_same.
Qed.

(** When the sweep completes the sync of a tenant, the tenant it stores is
    the one it found with the normalised domain and, as the time of the
    last sync, the time of the tick; status, token and metadata are as
    found. *)
Theorem scheduler_success_recorded (fuel : nat) (w : world)
    (before after : list shop) (s : shop) (w0 w1 : world) :
  NoDup (map shop_id (shops w)) ->
  List.filter (fun t => bool_decide (status t = active)) (shops w)
    = before ++ s :: after ->
  for_each fuel before w = (w0, Ret tt) ->
  sync_attempt fuel s w0 = (w1, Ret tt) ->
  exists nd,
    normalizeShopDomain (shopDomain s) = Some nd /\
    stored (shop_id s) (fst (tick fuel w))
      = Some (with_lastSyncedAt (now w) (with_domain nd s)).
Proof.
  intros Hnd Hact Hbefore Hattempt.
  destruct (sweep_place w before after s Hnd Hact) as (Hin & Hs & Hb & Ha).
  destruct (sync_attempt_ret fuel s w0 w1 Hattempt)
    as (wb & Hshops & Hids & nd & Hn & _).
  exists nd. split; [exact Hn|].
  assert (tick fuel w = for_each fuel after w1) as ->.
  { unfold tick, bind at 1, read. rewrite Hact, for_each_app, Hbefore.
    cbn [for_each]. unfold bind, process_shop, try_catch.
    rewrite Hattempt. reflexivity. }
  rewrite (for_each_stored fuel after (shop_id s) w1 Ha).
  unfold stored. rewrite Hshops.
  pose proof (now_kept_for_each fuel before w) as Hnow.
  rewrite Hbefore in Hnow. cbn [fst] in Hnow. rewrite Hnow.
  rewrite (in_memory_with_domain s nd Hn).
  pose proof (find_replaced (with_lastSyncedAt (now w) (with_domain nd s)) (shops wb))
    as Hfind.
  cbn [shop_id with_lastSyncedAt with_domain] in Hfind. apply Hfind.
  rewrite Hids.
  pose proof (for_each_ids fuel before w) as Hi. rewrite Hbefore in Hi.
  cbn [fst] in Hi. rewrite Hi. apply (list_elem_of_fmap_2 shop_id), Hin.
Qed.

Lemma scheduler_success_recorded_witness :
  stored (shop_id Fixture.acme) (fst (tick 5 Quiet.world))
  = Some (with_lastSyncedAt "2024-11-06T09:00:00.000Z" Fixture.acme).
Proof.
  destruct (scheduler_success_recorded 5 Quiet.world
              [] [] (with_domain "ACME" Fixture.acme) Quiet.world
              (fst (sync_attempt 5 (with_domain "ACME" Fixture.acme) Quiet.world)))
    as (nd & Hn & Hst).
  - apply (bool_decide_unpack _). vm_compute. exact I.
  - vm_compute. reflexivity.
  - reflexivity.
  - vm_compute. reflexivity.
  - refine (eq_trans Hst _).
    assert (nd = "acme.myshopify.com") as ->.
    { assert (Some nd = Some "acme.myshopify.com") as E
        by (rewrite <- Hn; vm_compute; reflexivity).
      injection E as ->. reflexivity. }
    reflexivity.
Defined.

(** *** Paused tenants *)

Lemma same_id_same_shop (l : list shop) (t t' : shop) :
  NoDup (map shop_id l) -> t ∈ l -> t' ∈ l -> shop_id t' = shop_id t -> t' = t.
Proof.
  intros Hnd Ht Ht' E.
  pose proof (find_unique t l Hnd Ht) as H1.
  pose proof (find_unique t' l Hnd Ht') as H2.
  rewrite E in H2. congruence.
Qed.

Lemma tick_keeps_paused (fuel : nat) (w : world) (t : shop) :
  NoDup (map shop_id (shops w)) -> t ∈ shops w -> status t = paused ->
  stored (shop_id t) (fst (tick fuel w)) = Some t /\
  NoDup (map shop_id (shops (fst (tick fuel w)))) /\
  t ∈ shops (fst (tick fuel w)).
Proof.
  intros Hnd Hin Hp.
  assert (stored (shop_id t) (fst (tick fuel w)) = Some t) as Hst.
  { unfold tick, bind at 1, read. rewrite for_each_stored.
    - apply find_unique; assumption.
    - apply Forall_forall. intros t' Ht' E.
      apply list_elem_of_In, filter_In in Ht' as [Ht' Hact].
      apply bool_decide_eq_true in Hact.
      rewrite (same_id_same_shop _ t t' Hnd Hin) in Hact;
        [congruence|apply list_elem_of_In, Ht'|exact E]. }
  split; [exact Hst|]. split.
  - unfold tick, bind at 1, read. rewrite for_each_ids. exact Hnd.
  - unfold stored in Hst. apply find_some in Hst as [H _].
    apply list_elem_of_In, H.
Qed.

(** A paused tenant is never taken up again: over any number of ticks the
    stored tenant stays exactly as it was. *)
Theorem paused_tenants_stay (fuels : list nat) (w : world) (t : shop) :
  NoDup (map shop_id (shops w)) -> t ∈ shops w -> status t = paused ->
  stored (shop_id t) (ticks fuels w) = Some t.
Proof.
  revert w. induction fuels as [|fuel fuels IH]; intros w Hnd Hin Hp.
  - apply find_unique; assumption.
  - destruct (tick_keeps_paused fuel w t Hnd Hin Hp) as (_ & Hnd' & Hin').
    apply (IH (fst (tick fuel w)) Hnd' Hin' Hp).
Qed.

Lemma paused_tenants_stay_witness :
  let w1 := fst (tick 5 Fixture.world1) in
  exists t, stored (shop_id Fixture.beta) w1 = Some t /\ status t = paused /\
            stored (shop_id t) (ticks [5; 5; 5]%nat w1) = Some t.
Proof.
  cbv zeta.
  destruct (stored (shop_id Fixture.beta) (fst (tick 5 Fixture.world1))) as [t|] eqn:E;
    [|vm_compute in E; discriminate E].
  assert (status t = paused) as Hp.
  { assert (option_map status (Some t) = Some paused) as H
      by (rewrite <- E; vm_compute; reflexivity).
    injection H as ->. reflexivity. }
  exists t. split; [reflexivity|]. split; [exact Hp|].
  apply paused_tenants_stay; [| |exact Hp].
  - apply (bool_decide_unpack _). vm_compute. exact I.
  - unfold stored in E. apply find_some in E as [H _]. apply list_elem_of_In, H.
Defined.

(** ** The earlier scheduler *)

Lemma sweep_kept_refl l : sweep_kept l l.
Proof. induction l; constructor; auto. split; [reflexivity|left; reflexivity]. Qed.

Lemma sweep_kept_save (orig cur : list shop) (s : shop) (time : string) :
  NoDup (map shop_id orig) -> s ∈ orig -> sweep_kept orig cur ->
  sweep_kept orig
    (map (fun t => if bool_decide (shop_id t = shop_id s)
                   then with_lastSyncedAt time s else t) cur).
Proof.
  intros Hnd Hs Hk.
  assert (forall l l', Forall2 (fun t t' => shop_id t' = shop_id t /\ synced_only t t') l l' ->
            Forall (fun t => t ∈ orig) l ->
            Forall2 (fun t t' => shop_id t' = shop_id t /\ synced_only t t') l
              (map (fun t => if bool_decide (shop_id t = shop_id s)
                             then with_lastSyncedAt time s else t) l')) as H.
  { induction 1 as [|t t' l l' [Hid Hso] _ IH]; intros Hin; [constructor|].
    apply Forall_cons_1 in Hin as [Ht Hin]. cbn [map]. constructor; [|apply IH, Hin].
    destruct (bool_decide (shop_id t' = shop_id s)) eqn:E.
    - apply bool_decide_eq_true in E.
      assert (s = t) as ->.
      { apply (same_id_same_shop orig t s Hnd Ht Hs). congruence. }
      split; [reflexivity|]. right. exists time. reflexivity.
    - split; assumption. }
  apply H; [exact Hk|]. apply Forall_forall. auto.
Qed.

Lemma legacy_process_kept fuel (orig : list shop) (s : shop) (w : world) :
  NoDup (map shop_id orig) -> s ∈ orig -> sweep_kept orig (shops w) ->
  sweep_kept orig (shops (fst (Legacy.process_shop fuel s w))) /\
  settles (snd (Legacy.process_shop fuel s w)).
Proof.
  intros Hnd Hs Hk. unfold Legacy.process_shop, try_catch, Legacy.sync_attempt.
  unfold bind.
  pose proof (preserves_sync shops shops_set_requests shops_set_collection
                fuel s default_resources w) as Hsync.
  destruct (syncShopResources fuel s default_resources w) as [w1 [sm|e|]];
    cbn [fst] in Hsync.
  - unfold read, save, modify. cbn [fst snd]. rewrite shops_set_shops, Hsync.
    change (shop_id (with_lastSyncedAt (now w1) s)) with (shop_id s).
    split; [apply sweep_kept_save; assumption|left; exists tt; reflexivity].
  - cbn [fst snd ret]. rewrite Hsync. split; [exact Hk|left; exists tt; reflexivity].
  - cbn [fst snd]. rewrite Hsync. split; [exact Hk|right; reflexivity].
Qed.

Lemma legacy_for_each_kept fuel (orig : list shop) (l : list shop) :
  NoDup (map shop_id orig) -> Forall (fun s => s ∈ orig) l ->
  forall w, sweep_kept orig (shops w) ->
    sweep_kept orig (shops (fst (Legacy.for_each fuel l w))) /\
    settles (snd (Legacy.for_each fuel l w)).
Proof.
  intros Hnd. induction l as [|s l IH]; intros Hl w Hk.
  - split; [exact Hk|left; exists tt; reflexivity].
  - apply Forall_cons_1 in Hl as [Hs Hl]. cbn [Legacy.for_each]. unfold bind.
    destruct (legacy_process_kept fuel orig s w Hnd Hs Hk) as [H1 H2].
    destruct (Legacy.process_shop fuel s w) as [w1 [a|e|]]; cbn [fst snd] in *.
    + apply (IH Hl w1 H1).
    + destruct H2 as [[a H2]|H2]; discriminate H2.
    + split; [exact H1|right; reflexivity].
Qed.

(** A tick of the earlier scheduler changes nothing in a stored tenant but
    the time of its last sync: it corrects no domain and pauses no tenant,
    whatever fails; and it never fails itself. *)
Theorem legacy_tick_changes_sync_time_only (fuel : nat) (w : world) :
  NoDup (map shop_id (shops w)) ->
  Forall2 synced_only (shops w) (shops (fst (Legacy.tick fuel w))) /\
  (snd (Legacy.tick fuel w) = Ret tt \/ snd (Legacy.tick fuel w) = OutOfFuel).
Proof.
  intros Hnd. unfold Legacy.tick, bind at 1, read.
  destruct (legacy_for_each_kept fuel (shops w)
              (List.filter (fun s => bool_decide (status s = active)) (shops w)) Hnd)
    with (w := w) as [H1 H2].
  - apply Forall_forall. intros s Hs.
    apply list_elem_of_In, filter_In in Hs as [Hs _]. apply list_elem_of_In, Hs.
  - apply sweep_kept_refl.
  - split.
    + eapply Forall2_impl; [exact H1|]. intros t t' [_ H]. exact H.
    + destruct H2 as [[[] H2]|H2]; auto.
Qed.

Lemma legacy_tick_changes_sync_time_only_witness :
  map status (shops (fst (Legacy.tick 5 Fixture.world1))) = [active; active] /\
  map status (shops (fst (tick 5 Fixture.world1))) = [paused; active].
Proof.
  destruct (legacy_tick_changes_sync_time_only 5 Fixture.world1) as [H _].
  - apply (bool_decide_unpack _). vm_compute. exact I.
  - split; [|vm_compute; reflexivity].
    assert (forall l l', Forall2 synced_only l l' -> map status l' = map status l) as Hst.
    { induction 1 as [|t t' l l' Hs _ IH]; [reflexivity|]. cbn [map]. rewrite IH.
      destruct Hs as [->|[time ->]]; reflexivity. }
    rewrite (Hst _ _ H). reflexivity.
Defined.

(** ** Email gate and tenant routes *)

Import Auth Shops RouteSpec.

(** ** The email gate *)

Lemma drop_while_shape p (l : list ascii) :
  drop_while p l = [] \/ exists x r, drop_while p l = x :: r /\ p x = false.
Proof.
  induction l as [|c l IH]; [left; reflexivity|]. cbn [drop_while].
  destruct (p c) eqn:E; [exact IH|]. right. exists c, l. auto.
Qed.

(** What trimming leaves begins and ends with characters that stay. *)
Lemma strip_shape p (l : list ascii) :
  strip p l = [] \/ (exists x, strip p l = [x] /\ p x = false) \/
  exists x mid y, strip p l = x :: mid ++ [y] /\ p x = false /\ p y = false.
Proof.
  unfold strip. destruct (drop_while_shape p l) as [->|(x & r & -> & Hx)].
  - left. reflexivity.
  - cbn [rev]. rewrite (drop_while_app_stop p (rev r) x [] Hx).
    destruct (drop_while_shape p (rev r)) as [->|(y & r2 & -> & Hy)].
    + right. left. exists x. auto.
    + right. right. exists x, (rev r2), y. cbn [app rev].
      rewrite rev_app_distr. cbn [rev app]. auto.
Qed.

Lemma strip_idempotent p (l : list ascii) : strip p (strip p l) = strip p l.
Proof.
  destruct (strip_shape p l) as [->|[(x & -> & Hx)|(x & mid & y & -> & Hx & Hy)]].
  - reflexivity.
  - apply (strip_pad_one p [] [] x eq_refl eq_refl Hx).
  - apply (strip_pad p [] [] mid x y eq_refl eq_refl Hx Hy).
Qed.

Lemma trim_idempotent (s : string) : trim (trim s) = trim s.
Proof. unfold trim. rewrite chars_str, strip_idempotent. reflexivity. Qed.

Lemma lower_char_space (c : ascii) : is_js_space (lower_char c) = is_js_space c.
Proof. destruct c as [[] [] [] [] [] [] [] []]; reflexivity. Qed.

Lemma drop_while_lower (l : list ascii) :
  drop_while is_js_space (map lower_char l) = map lower_char (drop_while is_js_space l).
Proof.
  induction l as [|c l IH]; [reflexivity|]. cbn [map drop_while].
  rewrite lower_char_space. destruct (is_js_space c); [exact IH|reflexivity].
Qed.

Lemma trim_lower (s : string) : trim (toLowerCase s) = toLowerCase (trim s).
Proof.
  unfold trim. rewrite chars_toLowerCase, toLowerCase_str. f_equal. unfold strip.
  rewrite drop_while_lower, <- map_rev, drop_while_lower, map_rev. reflexivity.
Qed.

(** The identity the gate attaches to a request is not empty, lowercase
    and trimmed, and is on the allow list when the list is not empty. *)
Theorem gate_identity (allowed : list string) (path : string) (header : option string)
    (email : string) :
  authMiddleware allowed path header = Next (Some email) ->
  email <> EmptyString /\ toLowerCase email = email /\ trim email = email /\
  (allowed = [] \/ email ∈ allowed) /\
  startsWith path "/webhooks" = false.
Proof.
  unfold authMiddleware. destruct (startsWith path "/webhooks"); [discriminate|].
  cbv zeta. set (e := toLowerCase (trim (default EmptyString header))).
  destruct (truthy_string e) eqn:Ht; cbn [negb]; [|discriminate].
  destruct (bool_decide (allowed = [])) eqn:Ha; cbn [negb andb].
  - intros [= <-]. apply bool_decide_eq_true in Ha.
    split; [intros E; rewrite E in Ht; discriminate|].
    split; [apply toLowerCase_idempotent|].
    split; [subst e; rewrite <- trim_lower, trim_idempotent; reflexivity|auto].
  - destruct (bool_decide (e ∈ allowed)) eqn:Hin; cbn [negb]; [|discriminate].
    intros [= <-]. apply bool_decide_eq_true in Hin.
    split; [intros E; rewrite E in Ht; discriminate|].
    split; [apply toLowerCase_idempotent|].
    split; [subst e; rewrite <- trim_lower, trim_idempotent; reflexivity|auto].
Qed.

Lemma gate_identity_witness :
  authMiddleware (allowedEmails (Some "Owner@Example.com, ops@example.com"))
    "/shops/register" (Some "  OPS@example.COM ") = Next (Some "ops@example.com") /\
  toLowerCase "ops@example.com" = "ops@example.com".
Proof.
  assert (authMiddleware (allowedEmails (Some "Owner@Example.com, ops@example.com"))
            "/shops/register" (Some "  OPS@example.COM ") = Next (Some "ops@example.com"))
    as H by (vm_compute; reflexivity).
  split; [exact H|]. exact (proj1 (proj2 (gate_identity _ _ _ _ H))).
Defined.

Lemma allowed_entry (env : option string) (email : string) :
  email ∈ allowedEmails env <->
  email <> EmptyString /\
  exists entry, entry ∈ split "," (default EmptyString env) /\
                toLowerCase (trim entry) = email.
Proof.
  unfold allowedEmails. rewrite list_elem_of_In, filter_In, in_map_iff. split.
  - intros [(entry & E & Hin) Ht]. split.
    + intros E0. rewrite E0 in Ht. discriminate.
    + exists entry. split; [apply list_elem_of_In, Hin|exact E].
  - intros [Hne (entry & Hin & E)]. split.
    + exists entry. split; [exact E|apply list_elem_of_In, Hin].
    + destruct email; [contradiction|reflexivity].
Qed.

(** Whom the gate lets through outside the webhook paths: with no entry
    on the allow list everyone who names an email; else those whose email,
    trimmed and lowered, equals an entry of [ALLOWED_EMAILS], trimmed and
    lowered. *)
Theorem gate_allow_list (env : option string) (path : string) (header : string) :
  startsWith path "/webhooks" = false ->
  let email := toLowerCase (trim header) in
  (authMiddleware (allowedEmails env) path (Some header) = Next (Some email) <->
   email <> EmptyString /\
   (allowedEmails env = [] \/
    exists entry, entry ∈ split "," (default EmptyString env) /\
                  toLowerCase (trim entry) = email)) /\
  allowedEmails None = [] /\ allowedEmails (Some EmptyString) = [].
Proof.
  intros Hp. cbv zeta. split; [|split; reflexivity].
  unfold authMiddleware. rewrite Hp. cbn [from_option id]. cbv zeta.
  set (email := toLowerCase (trim header)).
  destruct (truthy_string email) eqn:Ht; cbn [negb].
  - assert (email <> EmptyString) as Hne by (intros E; rewrite E in Ht; discriminate).
    destruct (bool_decide (allowedEmails env = [])) eqn:Ha; cbn [negb andb].
    + apply bool_decide_eq_true in Ha. split; [auto|reflexivity].
    + apply bool_decide_eq_false in Ha.
      destruct (bool_decide (email ∈ allowedEmails env)) eqn:Hin; cbn [negb].
      * apply bool_decide_eq_true in Hin. split; [|reflexivity]. intros _.
        split; [exact Hne|]. right. apply allowed_entry in Hin. tauto.
      * apply bool_decide_eq_false in Hin. split; [discriminate|].
        intros [_ [H|H]]; [contradiction|]. exfalso. apply Hin, allowed_entry. auto.
  - split; [discriminate|]. intros [Hne _]. exfalso. apply Hne.
    destruct email; [reflexivity|discriminate].
Qed.

Lemma gate_allow_list_witness :
  authMiddleware (allowedEmails None) "/shops" (Some "Anyone@Example.com")
    = Next (Some "anyone@example.com") /\
  authMiddleware (allowedEmails (Some " , Owner@Example.com")) "/shops"
    (Some "owner@example.com ") = Next (Some "owner@example.com").
Proof.
  split.
  - apply (proj1 (gate_allow_list None "/shops" "Anyone@Example.com" eq_refl)).
    split; [discriminate|]. left. reflexivity.
  - apply (proj1 (gate_allow_list (Some " , Owner@Example.com") "/shops"
                    "owner@example.com " eq_refl)).
    split; [discriminate|]. right. exists " Owner@Example.com".
    split; [|reflexivity]. apply (bool_decide_unpack _). vm_compute. exact I.
Defined.

(** ** The token check *)

Lemma drop_while_In p (l : list ascii) (x : ascii) :
  In x (drop_while p l) -> In x l.
Proof.
  induction l as [|c l IH]; [auto|]. cbn [drop_while].
  destruct (p c); [intros H; right; auto|auto].
Qed.

Lemma strip_In p (l : list ascii) (x : ascii) : In x (strip p l) -> In x l.
Proof.
  unfold strip. intros H. apply in_rev, drop_while_In, in_rev, drop_while_In in H.
  exact H.
Qed.

Lemma span_parts p (l : list ascii) : l = fst (URL.span p l) ++ snd (URL.span p l).
Proof.
  induction l as [|c l IH]; [reflexivity|]. cbn [URL.span].
  destruct (p c); [|reflexivity]. destruct (URL.span p l) as [a b].
  cbn [fst snd app] in *. rewrite <- IH. reflexivity.
Qed.

(** Without a colon there is no scheme, and no URL. *)
Lemma parse_needs_colon (s : string) : ~ In ":"%char (chars s) -> URL.parse s = None.
Proof.
  intros Hno. unfold URL.parse.
  set (l := List.filter _ _).
  assert (~ In ":"%char l) as Hl.
  { subst l. intros H. apply filter_In in H as [H _]. apply strip_In in H. auto. }
  destruct l as [|c r]; [reflexivity|].
  destruct (URL.is_alpha c); [|reflexivity].
  pose proof (span_parts URL.scheme_char (c :: r)) as Hparts.
  destruct (URL.span URL.scheme_char (c :: r)) as [sch rest]. cbn [fst snd] in Hparts.
  destruct rest as [|colon rest1]; [reflexivity|].
  destruct (URL.is_char 58 colon) eqn:E; [|reflexivity].
  exfalso. apply Hl. rewrite Hparts. apply in_or_app. right. left.
  unfold URL.is_char in E. apply N.eqb_eq in E.
  rewrite <- (ascii_N_embedding colon). unfold code in E. rewrite E. reflexivity.
Qed.

Lemma includes_needs (sub l : list ascii) (c : ascii) :
  In c sub -> ~ In c l -> includes_l sub l = false.
Proof.
  intros Hc Hl. destruct (includes_l sub l) eqn:E; [|reflexivity].
  apply includes_l_parts in E as (x & y & ->). exfalso. apply Hl.
  apply in_or_app. right. apply in_or_app. left. exact Hc.
Qed.

(** What the token check accepts is at least twenty characters long once
    trimmed and holds no [://]; and a token of at least twenty characters
    without a colon is accepted. *)
Theorem token_check (token : string) :
  (validateAccessToken (JStr token) = Ok None ->
   (20 <= String.length (trim token))%nat /\ includes (trim token) "://" = false) /\
  ((20 <= String.length (trim token))%nat -> ~ In ":"%char (chars token) ->
   validateAccessToken (JStr token) = Ok None).
Proof.
  assert (validateAccessToken (JStr token) =
          Ok (if negb (truthy_string (trim token))
              then Some "Admin API access token is required."
              else if looksLikeUrl (trim token)
              then Some "Access token looks like a URL. Paste the Admin API access token from Shopify."
              else if (String.length (trim token) <? 20)%nat
              then Some "Access token looks too short. Paste the full Admin API access token."
              else None)) as ->.
  { unfold validateAccessToken. destruct token; reflexivity. }
  split.
  - destruct (negb _); [discriminate|].
    unfold looksLikeUrl. destruct (URL.parse (trim token)); [discriminate|].
    destruct (includes (trim token) "://"); [discriminate|].
    destruct (Nat.ltb_spec (String.length (trim token)) 20); [discriminate|]. auto.
  - intros Hlen Hno.
    assert (~ In ":"%char (chars (trim token))) as Hno'.
    { unfold trim. rewrite chars_str. intros H. apply strip_In in H. auto. }
    assert (truthy_string (trim token) = true) as ->
      by (destruct (trim token); [simpl in Hlen; lia|reflexivity]).
    unfold looksLikeUrl. rewrite (parse_needs_colon _ Hno').
    unfold includes. rewrite (includes_needs (chars "://") _ ":"%char);
      [|left; reflexivity|exact Hno'].
    cbn [negb]. destruct (Nat.ltb_spec (String.length (trim token)) 20); [lia|reflexivity].
Qed.

Lemma token_check_witness :
  validateAccessToken (JStr " shpat_0123456789abcdef0123 ") = Ok None /\
  validateAccessToken (JStr "shpat:0123456789abcdef0123") =
    Ok (Some "Access token looks like a URL. Paste the Admin API access token from Shopify.").
Proof.
  split; [|vm_compute; reflexivity].
  apply (proj2 (token_check " shpat_0123456789abcdef0123 ")).
  - vm_compute. lia.
  - intros H. vm_compute in H. intuition discriminate.
Defined.

(** ** The sync route *)







Lemma lowercase_with_domain nd s : shopDomain (with_domain nd s) = nd.
Proof. reflexivity. Qed.







(** ** Webhook route *)

Import HookSpec.



